(** * A shallow embedding of the go-x86-emu emulator core (emulator.go)

    The Go program keeps one mutable [Emulator] struct and mutates it
    from every instruction handler.  Here the struct is a record, the
    handlers are computations in a small state-and-failure monad, and
    every fixed-width Go integer is a [Z] whose wrap-around is written
    out with [u8], [u32], [u64], [i8] and [i32].

    Embedded: the byte and field reader, the addressing decoder, the
    flag engine, every instruction handler, the dispatch and the run
    loop.  Left out: [NewEmulator] and [DumpEmulator] (file and console
    I/O around the core), [main], and [InAlDx] with [IoIn8], which no
    case of the dispatch reaches. *)

From Stdlib Require Import ZArith Lia String Ascii DecimalString.
From stdpp Require Import base list.

Local Open Scope Z_scope.

(** ** Fixed-width integers *)

Module Int.

(** Conversion to [uint8], [uint32] and [uint64]: keep the low bits. *)
Definition u8 (z : Z) : Z := z mod 2^8.
Definition u32 (z : Z) : Z := z mod 2^32.
Definition u64 (z : Z) : Z := z mod 2^64.

(** Conversion to [int8] and [int32]: keep the low bits, read them in
    two's complement. *)
Definition i8 (z : Z) : Z := (z + 2^7) mod 2^8 - 2^7.
Definition i32 (z : Z) : Z := (z + 2^31) mod 2^32 - 2^31.

End Int.
Export Int.

(** ** Register numbers and flag masks *)

Definition CEax : Z := 0.
Definition CEcx : Z := 1.
Definition CEdx : Z := 2.
Definition CEbx : Z := 3.
Definition CEsp : Z := 4.
Definition CEbp : Z := 5.
Definition CEsi : Z := 6.
Definition CEdi : Z := 7.
Definition RegistersCount : Z := 8.

Definition CAl : Z := CEax.
Definition CAh : Z := CEax + 4.
Definition CCl : Z := CEcx.
Definition CCh : Z := CEcx + 4.
Definition CDl : Z := CEdx.
Definition CDh : Z := CEdx + 4.
Definition CBl : Z := CEbx.
Definition CBh : Z := CEbx + 4.

Definition CarryFlag : Z := 1.
Definition ZeroFlag : Z := Z.shiftl 1 6.
Definition SignFlag : Z := Z.shiftl 1 7.
Definition OverFlowFlag : Z := Z.shiftl 1 11.

(** ** Processor state *)

Record Emulator := mkEmulator {
  Registers : list Z;      (* [RegistersCount]uint32 *)
  Eflags : Z;              (* uint32 *)
  Memory : list Z;         (* []uint8 *)
  Eip : Z;                 (* uint32 *)
  MaxMemorySize : Z        (* uint32 *)
}.

Definition set_Registers (f : list Z -> list Z) (e : Emulator) : Emulator :=
  mkEmulator (f (Registers e)) (Eflags e) (Memory e) (Eip e) (MaxMemorySize e).
Definition set_Eflags (f : Z -> Z) (e : Emulator) : Emulator :=
  mkEmulator (Registers e) (f (Eflags e)) (Memory e) (Eip e) (MaxMemorySize e).
Definition set_Memory (f : list Z -> list Z) (e : Emulator) : Emulator :=
  mkEmulator (Registers e) (Eflags e) (f (Memory e)) (Eip e) (MaxMemorySize e).
Definition set_Eip (f : Z -> Z) (e : Emulator) : Emulator :=
  mkEmulator (Registers e) (Eflags e) (Memory e) (f (Eip e)) (MaxMemorySize e).

(** Go checks every slice and array index against the length. *)
Definition index {A : Type} (l : list A) (i : Z) : option A :=
  if (0 <=? i) && (i <? Z.of_nat (length l)) then l !! Z.to_nat i else None.

Definition in_range (lo hi : Z) (z : Z) : bool := (lo <=? z) && (z <? hi).

(** The ranges the Go types give for free. *)
Definition wfb (e : Emulator) : bool :=
  (Z.of_nat (length (Registers e)) =? RegistersCount)
  && forallb (in_range 0 (2^32)) (Registers e)
  && forallb (in_range 0 (2^8)) (Memory e)
  && in_range 0 (2^32) (Eflags e)
  && in_range 0 (2^32) (Eip e)
  && in_range 0 (2^32) (MaxMemorySize e).

Definition wf (e : Emulator) : Prop := wfb e = true.

(** ** Standard output

    Everything the program writes goes through [fmt.Printf]; a call is
    recorded with its format (the text of the Go literal) and its
    arguments. *)

Definition printf_call : Type := string * list Z.
Definition stdout : Type := list printf_call.

(** ** The monad of handlers

    A handler either returns with a new state, ends the process with
    [os.Exit], or panics on an index out of range. *)

Inductive outcome (A : Type) : Type :=
| Ok (a : A) (e : Emulator) (out : stdout)
| Exit (code : Z) (out : stdout)
| Panic (out : stdout).

Arguments Ok {A} a e out.
Arguments Exit {A} code out.
Arguments Panic {A} out.

Definition M (A : Type) : Type := Emulator -> outcome A.

Definition prepend {A : Type} (o : stdout) (r : outcome A) : outcome A :=
  match r with
  | Ok a e o' => Ok a e (o ++ o')
  | Exit c o' => Exit c (o ++ o')
  | Panic o' => Panic (o ++ o')
  end.

Definition ret {A : Type} (a : A) : M A := fun e => Ok a e [].

Definition bind {A B : Type} (m : M A) (f : A -> M B) : M B :=
  fun e =>
    match m e with
    | Ok a e' o => prepend o (f a e')
    | Exit c o => Exit c o
    | Panic o => Panic o
    end.

Notation "'let*' x ':=' m 'in' k" := (bind m (fun x => k))
  (at level 10, x name, m at level 100, k at level 200).
Notation "m '>>' k" := (bind m (fun _ => k))
  (at level 100, k at level 200, right associativity).

Definition get : M Emulator := fun e => Ok e e [].
Definition modify (f : Emulator -> Emulator) : M unit := fun e => Ok tt (f e) [].
Definition panic {A : Type} : M A := fun _ => Panic [].
Definition os_Exit {A : Type} (code : Z) : M A := fun _ => Exit code [].
Definition Printf (fmt : string) (args : list Z) : M unit :=
  fun e => Ok tt e [(fmt, args)].

Definition load {A : Type} (o : option A) : M A :=
  match o with Some a => ret a | None => panic end.

(** [for i = 0; i < n; i++ { acc = body i acc }] with a [uint32] counter. *)
Fixpoint for_range {A : Type} (i : Z) (n : nat) (body : Z -> A -> M A) (acc : A) : M A :=
  match n with
  | O => ret acc
  | S n' => let* acc' := body i acc in for_range (u32 (i + 1)) n' body acc'
  end.

(** [e.Eip += n] and [e.Eip -= n]. *)
Definition add_Eip (n : Z) : M unit := modify (set_Eip (fun p => u32 (p + n))).
Definition sub_Eip (n : Z) : M unit := modify (set_Eip (fun p => u32 (p - n))).

(** ** Byte and field reader *)

Definition GetCode8 (index_ : Z) : M Z :=
  let* e := get in
  load (index (Memory e) (u32 (Eip e + index_))).

Definition GetSignCode8 (index_ : Z) : M Z :=
  let* e := get in
  let* val := load (index (Memory e) (u32 (Eip e + index_))) in
  let sign := Z.shiftr val 7 in
  if sign =? 0 then ret (i32 val)
  else ret (i32 (- i32 (u8 (u8 (Z.lnot val) + 1)))).

Definition GetCode32 (index_ : Z) : M Z :=
  for_range 0 4
    (fun i r => let* c := GetCode8 (u32 (index_ + i)) in
                ret (Z.lor r (u32 (Z.shiftl c (u32 (i * 8))))))
    0.

Definition GetSignCode32 (index_ : Z) : M Z :=
  let* val := GetCode32 index_ in
  let sign := Z.shiftr val 31 in
  if sign =? 0 then ret (i32 val)
  else ret (i32 (- i32 (u32 (u32 (Z.lnot val) + 1)))).

(** ** Registers and memory *)

(** [e.Registers[i]] read and written, with the array's bounds check. *)
Definition Registers_at (i : Z) : M Z :=
  let* e := get in
  if in_range 0 RegistersCount i then load (Registers e !! Z.to_nat i) else panic.

Definition Registers_put (i : Z) (value : Z) : M unit :=
  if in_range 0 RegistersCount i
  then modify (set_Registers (fun r => <[Z.to_nat i := value]> r))
  else panic.

Definition setRegister32 (index_ : Z) (value : Z) : M unit := Registers_put index_ value.
Definition getRegister32 (index_ : Z) : M Z := Registers_at index_.

Definition setMemory8 (address : Z) (value : Z) : M unit :=
  let* e := get in
  if in_range 0 (Z.of_nat (length (Memory e))) address
  then modify (set_Memory (fun m => <[Z.to_nat address := u8 (Z.land value 0xFF)]> m))
  else panic.

Definition getMemory8 (address : Z) : M Z :=
  let* e := get in load (index (Memory e) address).

Definition setMemory32 (address : Z) (value : Z) : M unit :=
  for_range 0 4
    (fun i _ => setMemory8 (u32 (address + i))
                  (Z.land (Z.shiftr value (u32 (i * 8))) 0xFF))
    tt.

Definition getMemory32 (address : Z) : M Z :=
  for_range 0 4
    (fun i r => let* b := getMemory8 (u32 (address + i)) in
                ret (Z.lor r (u32 (Z.shiftl b (u32 (i * 8))))))
    0.

Definition getRegister8 (index_ : Z) : M Z :=
  if index_ <? 4 then
    let* r := Registers_at index_ in ret (u8 (Z.land r 0xFF))
  else
    let* r := Registers_at (u8 (index_ - 4)) in
    ret (u8 (Z.land (Z.shiftr r 8) 0xFF)).

Definition setRegister8 (index_ : Z) (value : Z) : M unit :=
  if index_ <? 4 then
    let* r := Registers_at index_ in
    let v := Z.land r 0xFFFFFF00 in
    Registers_put index_ (Z.lor v value)
  else
    let* r := Registers_at (u8 (index_ - 4)) in
    let v := Z.land r 0xFFFF00FF in
    Registers_put (u8 (index_ - 4)) (Z.lor v (u32 (Z.shiftl value 8))).

(** ** Addressing-mode decoder *)

(** Modelled from the spec: the declaration of the [ModRM] struct is not
    in emulator.go.  The fields and their types are the ones the
    conversions in [ParseModrm] assign to: [Mod], [Reg], [Rm] and [Sib]
    are [uint8], [Disp8] is [int8] and [Disp32] is [uint32]; the spec's
    addressing descriptor lists the same six fields. *)
Record ModRM := mkModRM {
  Mod : Z; Reg : Z; Rm : Z; Sib : Z; Disp8 : Z; Disp32 : Z
}.

Definition ParseModrm : M ModRM :=
  let* code := GetCode8 0 in
  let mod_ := u8 (Z.shiftr (Z.land code 0xc0) 6) in
  let reg := u8 (Z.shiftr (Z.land code 0x38) 3) in
  let rm := u8 (Z.land code 0x07) in
  add_Eip 1 >>
  let* sib :=
    (if negb (mod_ =? 3) && (rm =? 4)
     then let* s := GetCode8 0 in add_Eip 1 >> ret (u8 s)
     else ret 0) in
  if ((mod_ =? 0) && (rm =? 5)) || (mod_ =? 2) then
    let* d := GetSignCode32 0 in
    add_Eip 4 >> ret (mkModRM mod_ reg rm sib 0 (u32 d))
  else if mod_ =? 1 then
    let* d := GetSignCode8 0 in
    add_Eip 1 >> ret (mkModRM mod_ reg rm sib (i8 d) 0)
  else ret (mkModRM mod_ reg rm sib 0 0).

Definition calcMemoryAddress (m : ModRM) : M Z :=
  if Mod m =? 0 then
    if Rm m =? 4 then
      Printf "Not implemented ModRM mod = 0, rm = 4\n" [] >> os_Exit 0
    else if Rm m =? 5 then ret (Disp32 m)
    else getRegister32 (Rm m)
  else if Mod m =? 1 then
    if Rm m =? 4 then
      Printf "Not implemented ModRM mod = 1, rm = 4\n" [] >> os_Exit 0
    else if 0 <? Disp8 m then
      let* r := getRegister32 (Rm m) in ret (u32 (r + u32 (Disp8 m)))
    else
      let* r := getRegister32 (Rm m) in ret (u32 (r - u32 (i8 (- Disp8 m))))
  else if Mod m =? 2 then
    if Rm m =? 4 then
      Printf "Not implemented ModRM mod = 0, rm = 4\n" [] >> os_Exit 0
    else
      let* r := getRegister32 (Rm m) in ret (u32 (r + Disp32 m))
  else
    Printf "Not implemented ModRM rm = 3\n" [] >> os_Exit 0.

Definition getR32 (m : ModRM) : M Z := getRegister32 (Reg m).
Definition setR32 (m : ModRM) (value : Z) : M unit := setRegister32 (Reg m) value.

Definition getRm32 (m : ModRM) : M Z :=
  if Mod m =? 3 then getRegister32 (Rm m)
  else let* address := calcMemoryAddress m in getMemory32 address.

Definition setRm32 (m : ModRM) (value : Z) : M unit :=
  if Mod m =? 3 then setRegister32 (Rm m) value
  else let* address := calcMemoryAddress m in setMemory32 address value.

Definition getRm8 (m : ModRM) : M Z :=
  if Mod m =? 3 then getRegister8 (Rm m)
  else let* address := calcMemoryAddress m in getMemory8 address.

Definition setRm8 (m : ModRM) (value : Z) : M unit :=
  if Mod m =? 3 then setRegister8 (Rm m) value
  else let* address := calcMemoryAddress m in setMemory8 address value.

Definition setR8 (m : ModRM) (value : Z) : M unit := setRegister8 (Reg m) value.
Definition getR8 (m : ModRM) : M Z := getRegister8 (Reg m).

(** ** Flag engine *)

Definition setFlag (mask : Z) (b : bool) : M unit :=
  if b then modify (set_Eflags (fun f => Z.lor f mask))
  else modify (set_Eflags (fun f => Z.land f (u32 (Z.lnot mask)))).

Definition setCarry (b : bool) : M unit := setFlag CarryFlag b.
Definition setZero (b : bool) : M unit := setFlag ZeroFlag b.
Definition setSign (b : bool) : M unit := setFlag SignFlag b.
Definition setOverFlow (b : bool) : M unit := setFlag OverFlowFlag b.

Definition testFlag (mask : Z) (e : Emulator) : bool :=
  negb (Z.land (Eflags e) mask =? 0).

Definition isCarry : M bool := let* e := get in ret (testFlag CarryFlag e).
Definition isZero : M bool := let* e := get in ret (testFlag ZeroFlag e).
Definition isSign : M bool := let* e := get in ret (testFlag SignFlag e).
Definition isOverFlow : M bool := let* e := get in ret (testFlag OverFlowFlag e).

(** [v1], [v2] are [uint32]; [result] is the [uint64] difference. *)
Definition updateEflagsSub (v1 v2 result : Z) : M unit :=
  let sign1 := Z.shiftr v1 31 in
  let sign2 := Z.shiftr v2 31 in
  let signr := Z.land (Z.shiftr result 31) 0x01 in
  setCarry (negb (Z.shiftr result 32 =? 0)) >>
  setZero (result =? 0) >>
  setSign (signr =? 1) >>
  setOverFlow (negb (sign1 =? sign2) && negb (sign1 =? u32 signr)).

(** ** Instruction handlers *)

Definition MovR32Imm32 : M unit :=
  let* c := GetCode8 0 in
  let reg := u32 (c - 0xB8) in
  let* value := GetCode32 1 in
  Registers_put reg value >>
  add_Eip 5.

(** The tail shared by every jump and by the call: [len] is the length
    of the instruction.
    [if diff > 0 { e.Eip += uint32(diff) + len }
     else { e.Eip -= uint32(-diff); e.Eip += len }] *)
Definition jump_by (diff : Z) (len : Z) : M unit :=
  if 0 <? diff then add_Eip (u32 (u32 diff + len))
  else sub_Eip (u32 (i32 (- diff))) >> add_Eip len.

Definition ShortJump : M unit :=
  let* diff := GetSignCode8 1 in jump_by diff 2.

Definition NearJump : M unit :=
  let* diff := GetSignCode32 1 in jump_by diff 5.

Definition MovRm32Imm32 : M unit :=
  add_Eip 1 >>
  let* modRM := ParseModrm in
  let* value := GetCode32 0 in
  add_Eip 4 >>
  setRm32 modRM value.

Definition MovRm32R32 : M unit :=
  add_Eip 1 >>
  let* modRM := ParseModrm in
  let* r32 := getR32 modRM in
  setRm32 modRM r32.

Definition MovR32Rm32 : M unit :=
  add_Eip 1 >>
  let* modRM := ParseModrm in
  let* rm32 := getRm32 modRM in
  setR32 modRM rm32.

Definition AddRm32R32 : M unit :=
  add_Eip 1 >>
  let* modRM := ParseModrm in
  let* r32 := getR32 modRM in
  let* rm32 := getRm32 modRM in
  setRm32 modRM (u32 (r32 + rm32)).

Definition AddRm32Imm8 (m : ModRM) : M unit :=
  let* rm32 := getRm32 m in
  let* imm8 := GetSignCode8 0 in
  add_Eip 1 >>
  setRm32 m (u32 (rm32 + u32 imm8)).

Definition CmpRm32Imm8 (m : ModRM) : M unit :=
  let* rm32 := getRm32 m in
  let* s := GetSignCode8 0 in
  let imm8 := u32 s in
  add_Eip 1 >>
  let result := u64 (rm32 - imm8) in
  updateEflagsSub rm32 imm8 result.

(** Here [imm8] stays an [int32], so [uint64(imm8)] extends its sign
    to 64 bits. *)
Definition SubRm32Imm8 (m : ModRM) : M unit :=
  let* rm32 := getRm32 m in
  let* imm8 := GetSignCode8 0 in
  add_Eip 1 >>
  let result := u64 (rm32 - u64 imm8) in
  setRm32 m (u32 result) >>
  updateEflagsSub rm32 (u32 imm8) result.

Definition Code83 : M unit :=
  add_Eip 1 >>
  let* modRM := ParseModrm in
  match Reg modRM with
  | 0 => AddRm32Imm8 modRM
  | 5 => SubRm32Imm8 modRM
  | 7 => CmpRm32Imm8 modRM
  | _ => Printf "Not implemented: 83 %d\n" [Reg modRM] >> os_Exit 1
  end.

Definition IncRm32 (m : ModRM) : M unit :=
  let* value := getRm32 m in
  setRm32 m (u32 (value + 1)).

Definition CodeFF : M unit :=
  add_Eip 1 >>
  let* modRM := ParseModrm in
  match Reg modRM with
  | 0 => IncRm32 modRM
  | _ => Printf "Not implemented: FF %d\n" [Reg modRM] >> os_Exit 1
  end.

Definition push32 (value : Z) : M unit :=
  let* sp := getRegister32 CEsp in
  let address := u32 (sp - 0x4) in
  setRegister32 CEsp address >>
  setMemory32 address value.

Definition PushR32 : M unit :=
  let* c := GetCode8 0 in
  let reg := u32 (c - 0x50) in
  let* v := getRegister32 (u8 reg) in
  push32 v >>
  add_Eip 1.

Definition pop32 : M Z :=
  let* address := getRegister32 CEsp in
  let* r := getMemory32 address in
  setRegister32 CEsp (u32 (address + 0x4)) >>
  ret r.

Definition popR32 : M unit :=
  let* c := GetCode8 0 in
  let reg := u32 (c - 0x58) in
  let* v := pop32 in
  setRegister32 (u8 reg) v >>
  add_Eip 1.

Definition CallRel32 : M unit :=
  let* diff := GetSignCode32 1 in
  let* e := get in
  push32 (u32 (Eip e + 5)) >>
  jump_by diff 5.

Definition Ret : M unit :=
  let* a := pop32 in modify (set_Eip (fun _ => a)).

Definition Leave : M unit :=
  let* ebp := getRegister32 CEbp in
  setRegister32 CEsp ebp >>
  let* v := pop32 in
  setRegister32 CEbp v >>
  add_Eip 1.

Definition PushImm32 : M unit :=
  let* value := GetCode32 1 in
  push32 value >>
  add_Eip 5.

Definition PushImm8 : M unit :=
  let* value := GetCode8 1 in
  push32 value >>
  add_Eip 2.

Definition CmpR32Rm32 : M unit :=
  add_Eip 1 >>
  let* modRM := ParseModrm in
  let* r32 := getR32 modRM in
  let* rm32 := getRm32 modRM in
  let result := u64 (r32 - rm32) in
  updateEflagsSub r32 rm32 result.

(** The ten conditional jumps: the displacement is read only when the
    condition holds, otherwise [diff = 0]. *)
Definition jump_if (cond : M bool) : M unit :=
  let* c := cond in
  let* diff := (if c then GetSignCode8 1 else ret 0) in
  jump_by diff 2.

Definition notM (c : M bool) : M bool := let* b := c in ret (negb b).

Definition Js : M unit := jump_if isSign.
Definition Jns : M unit := jump_if (notM isSign).
Definition Jc : M unit := jump_if isCarry.
Definition Jnc : M unit := jump_if (notM isCarry).
Definition Jz : M unit := jump_if isZero.
Definition Jnz : M unit := jump_if (notM isZero).
Definition Jo : M unit := jump_if isOverFlow.
Definition Jno : M unit := jump_if (notM isOverFlow).
Definition Jl : M unit :=
  jump_if (let* s := isSign in let* o := isOverFlow in ret (negb (Bool.eqb s o))).
Definition Jle : M unit :=
  jump_if (let* z := isZero in
           if z then ret true
           else let* s := isSign in let* o := isOverFlow in ret (negb (Bool.eqb s o))).

(** ** Port output and the BIOS video service *)

Definition IoOut8 (address : Z) (value : Z) : M unit :=
  match address with
  | 0x03F8 => Printf "%c\n" [value]
  | _ => ret tt
  end.

Definition OutDxAl : M unit :=
  let* dx := getRegister32 CEdx in
  let address := Z.land dx 0xFFFF in
  let* value := getRegister8 CAl in
  IoOut8 (address mod 2^16) value >>
  add_Eip 1.

Definition MovR8Imm8 : M unit :=
  add_Eip 1 >>
  let* modRM := ParseModrm in
  let* rm8 := getRm8 modRM in
  setR8 modRM rm8.

Definition MovRm8R8 : M unit :=
  add_Eip 1 >>
  let* modRM := ParseModrm in
  let* r8 := getR8 modRM in
  setRm8 modRM r8.

Definition MovR8Rm8 : M unit :=
  add_Eip 1 >>
  let* modRM := ParseModrm in
  let* rm8 := getRm8 modRM in
  setR8 modRM rm8.

Definition CmpAlImm8 : M unit :=
  let* value := GetCode8 1 in
  let* al := getRegister8 CAl in
  let result := u64 (al - value) in
  updateEflagsSub al value result >>
  add_Eip 2.

Definition CmpEaxImm32 : M unit :=
  let* value := GetCode32 1 in
  let* eax := getRegister32 CEax in
  let result := u64 (eax - value) in
  updateEflagsSub eax value result >>
  add_Eip 5.

Definition IncR32 : M unit :=
  let* c := GetCode8 0 in
  let reg := u32 (c - 0x40) in
  let* v := getRegister32 (u8 reg) in
  setRegister32 (u8 reg) (u32 (v + 1)) >>
  add_Eip 1.

(** Go strings are byte sequences. *)
Definition bytes (s : string) : list Z :=
  map (fun c => Z.of_N (N_of_ascii c)) (list_ascii_of_string s).

(** The verb [%d] on an integer: its decimal digits. *)
Definition fmt_d (n : Z) : list Z := bytes (NilZero.string_of_int (Z.to_int n)).

(** The verb [%c] on a [uint8]: the UTF-8 encoding of that code point. *)
Definition fmt_c (c : Z) : list Z :=
  if c <? 0x80 then [c]
  else [Z.lor 0xC0 (Z.shiftr c 6); Z.lor 0x80 (Z.land c 0x3F)].

Definition biosToTerminal : list Z := [30; 34; 32; 36; 31; 35; 33; 37].

(** [fmt.Sprintf("\x1b[%d;%dm%c\x1b[0m]", bright, terminalColor, char)] *)
Definition teletype_string (bright terminalColor char : Z) : list Z :=
  [0x1b] ++ bytes "[" ++ fmt_d bright ++ bytes ";" ++ fmt_d terminalColor
  ++ bytes "m" ++ fmt_c char ++ [0x1b] ++ bytes "[0m]".

Fixpoint putString (s : list Z) : M unit :=
  match s with
  | [] => ret tt
  | b :: s' => IoOut8 0x03F8 b >> putString s'
  end.

Definition biosVideoTeletype : M unit :=
  let* bl := getRegister8 CBl in
  let color := Z.land bl 0x0F in
  let* char := getRegister8 CAl in
  let* terminalColor := load (index biosToTerminal (Z.land color 0x07)) in
  let bright := Z.shiftr (Z.land color 0x08) 3 in
  let str := teletype_string bright terminalColor char in
  putString str.

Definition biosVideo : M unit :=
  let* funcIndex := getRegister8 CAh in
  match funcIndex with
  | 0x0e => biosVideoTeletype
  | _ => Printf "Not implemented BIOS video function: 0x%02x\n" [funcIndex]
  end.

Definition Swi : M unit :=
  let* intIndex := GetCode8 1 in
  add_Eip 2 >>
  match intIndex with
  | 0x10 => biosVideo
  | _ => Printf "Unknown interrupt: 0x%02x\n" [intIndex]
  end.

(** ** Dispatch and the run loop *)

Definition executeOpCode (opCode : Z) : M unit :=
  match opCode with
  | 0x01 => AddRm32R32
  | 0x3B => CmpR32Rm32
  | 0x3C => CmpAlImm8
  | 0x3D => CmpEaxImm32
  | 0x40 | 0x41 | 0x42 | 0x43 | 0x44 | 0x45 | 0x46 | 0x47 => IncR32
  | 0x50 | 0x51 | 0x52 | 0x53 | 0x54 | 0x55 | 0x56 | 0x57 => PushR32
  | 0x58 | 0x59 | 0x5A | 0x5B | 0x5C | 0x5D | 0x5E | 0x5F => popR32
  | 0x68 => PushImm32
  | 0x6A => PushImm8
  | 0x70 => Jo
  | 0x71 => Jno
  | 0x72 => Jc
  | 0x73 => Jnc
  | 0x74 => Jz
  | 0x75 => Jnz
  | 0x78 => Js
  | 0x79 => Jns
  | 0x7C => Jl
  | 0x7E => Jle
  | 0x83 => Code83
  | 0x88 => MovRm8R8
  | 0x89 => MovRm32R32
  | 0x8A => MovRm32R32
  | 0x8B => MovR32Rm32
  | 0xB0 | 0xB1 | 0xB2 | 0xB3 | 0xB4 | 0xB5 | 0xB6 | 0xB7 => MovR8Imm8
  | 0xB8 | 0xB9 | 0xBA | 0xBB | 0xBC | 0xBD | 0xBE | 0xBF => MovR32Imm32
  | 0xC3 => Ret
  | 0xC7 => MovRm32Imm32
  | 0xC9 => Leave
  | 0xCD => Swi
  | 0xE8 => CallRel32
  | 0xE9 => NearJump
  | 0xEB => ShortJump
  | 0xEE => OutDxAl
  | 0xFF => CodeFF
  | _ =>
      Printf "\nNot Implemented: %x" [opCode] >>
      modify (set_Eip (fun _ => 0))
  end.

(** One turn of the loop of [Run], after the test on the memory bound:
    fetch, trace, execute. *)
Definition step (quiet : bool) : M unit :=
  let* code := GetCode8 0 in
  (if quiet then ret tt
   else let* e := get in Printf "EIP = %x, Code = %02x\n" [Eip e; code]) >>
  executeOpCode code.

Inductive run_end : Type :=
| Halted        (* the loop reached a [break] *)
| OutOfFuel.    (* the loop was still running when the fuel ran out *)

Fixpoint Run (fuel : nat) (quiet : bool) : M run_end :=
  match fuel with
  | O => ret OutOfFuel
  | S fuel' =>
      let* e := get in
      if MaxMemorySize e <=? Eip e then ret Halted
      else
        step quiet >>
        let* e' := get in
        if Eip e' =? 0x0
        then Printf "\nend of program.\n\n" [] >> ret Halted
        else Run fuel' quiet
  end.

(** * Specification side *)

(** Two's-complement reading of an 8-bit and of a 32-bit field. *)
Definition signed8 (b : Z) : Z := if b <? 2^7 then b else b - 2^8.
Definition signed32 (w : Z) : Z := if w <? 2^31 then w else w - 2^32.

(** The 32-bit word assembled from four bytes, lowest address first, as
    the loops of [GetCode32] and [getMemory32] build it. *)
Definition le32 (b0 b1 b2 b3 : Z) : Z :=
  Z.lor (Z.lor (Z.lor (Z.lor 0 (u32 (Z.shiftl b0 0))) (u32 (Z.shiftl b1 8)))
               (u32 (Z.shiftl b2 16)))
        (u32 (Z.shiftl b3 24)).

(** The byte that [setMemory32] hands to [setMemory8] at offset [k / 8],
    after the mask and the conversion in [setMemory8]. *)
Definition byte_at (k : Z) (v : Z) : Z :=
  u8 (Z.land (Z.land (Z.shiftr v k) 0xFF) 0xFF).

(** Memory after [setMemory32 a v]: the four bytes of [v] from address
    [a] on, least significant first. *)
Definition store32 (a v : Z) (m : list Z) : list Z :=
  <[Z.to_nat (a + 3) := byte_at 24 v]>
    (<[Z.to_nat (a + 2) := byte_at 16 v]>
       (<[Z.to_nat (a + 1) := byte_at 8 v]>
          (<[Z.to_nat (a + 0) := byte_at 0 v]> m))).

(** The 32-bit register of index [i]. *)
Definition register (e : Emulator) (i : Z) : option Z := Registers e !! Z.to_nat i.

(** The state after [push32 v] when the stack pointer was [s]. *)
Definition after_push (s v : Z) (e : Emulator) : Emulator :=
  set_Memory (store32 (s - 4) v)
    (set_Registers (fun r => <[Z.to_nat CEsp := s - 4]> r) e).

(** The opcode bytes that have a case in the switch of [executeOpCode]. *)
Definition dispatch_table : list Z :=
  [0x01; 0x3B; 0x3C; 0x3D;
   0x40; 0x41; 0x42; 0x43; 0x44; 0x45; 0x46; 0x47;
   0x50; 0x51; 0x52; 0x53; 0x54; 0x55; 0x56; 0x57;
   0x58; 0x59; 0x5A; 0x5B; 0x5C; 0x5D; 0x5E; 0x5F;
   0x68; 0x6A;
   0x70; 0x71; 0x72; 0x73; 0x74; 0x75; 0x78; 0x79; 0x7C; 0x7E;
   0x83; 0x88; 0x89; 0x8A; 0x8B;
   0xB0; 0xB1; 0xB2; 0xB3; 0xB4; 0xB5; 0xB6; 0xB7;
   0xB8; 0xB9; 0xBA; 0xBB; 0xBC; 0xBD; 0xBE; 0xBF;
   0xC3; 0xC7; 0xC9; 0xCD; 0xE8; 0xE9; 0xEB; 0xEE; 0xFF].

(** [op] is one of them. *)
Definition recognized (op : Z) : bool := existsb (Z.eqb op) dispatch_table.

(** The bytes [code] lie in [m] from address [a] on. *)
Fixpoint code_at (m : list Z) (a : Z) (code : list Z) : Prop :=
  match code with
  | [] => True
  | b :: rest => index m a = Some b /\ code_at m (a + 1) rest
  end.

(** The line [Run] prints before an instruction unless it is quiet. *)
Definition trace (quiet : bool) (e : Emulator) (c : Z) : stdout :=
  if quiet then [] else [("EIP = %x, Code = %02x\n"%string, [Eip e; c])].

(** The sub-opcode of the groups 0x83 and 0xFF: the register-operand
    field of the byte after the opcode. *)
Definition sub_opcode (e : Emulator) : option Z :=
  match index (Memory e) (u32 (Eip e + 1)) with
  | Some code => Some (u8 (Z.shiftr (Z.land code 0x38) 3))
  | None => None
  end.

(** The handlers that call [updateEflagsSub]: the three compares, and
    the subtract and compare sub-operations of group 0x83. *)
Definition compare_or_subtract (e : Emulator) (op : Z) : bool :=
  match op with
  | 0x3B | 0x3C | 0x3D => true
  | 0x83 => match sub_opcode e with
            | Some 5 | Some 7 => true
            | _ => false
            end
  | _ => false
  end.

(** The flags word after [setFlag mask b]. *)
Definition put_flag (mask : Z) (b : bool) (f : Z) : Z :=
  if b then Z.lor f mask else Z.land f (u32 (Z.lnot mask)).

(** The rule the spec gives for the flags of a subtraction [a - b]:
    carry iff [a < b] unsigned, zero iff [a = b], sign iff bit 31 of the
    32-bit difference is set, overflow iff the top bits of [a] and [b]
    differ and the top bit of the difference differs from that of [a]. *)
Definition sub_flags (a b : Z) (e : Emulator) : Prop :=
  testFlag CarryFlag e = (a <? b)
  /\ testFlag ZeroFlag e = (a =? b)
  /\ testFlag SignFlag e = Z.testbit (u32 (a - b)) 31
  /\ testFlag OverFlowFlag e
     = negb (Bool.eqb (Z.testbit a 31) (Z.testbit b 31))
       && negb (Bool.eqb (Z.testbit a 31) (Z.testbit (u32 (a - b)) 31)).

(** What the display sink receives for a string: one [IoOut8] on port
    0x3F8 per byte. *)
Definition sink (str : list Z) : stdout := map (fun b => ("%c\n"%string, [b])) str.

(** ANSI foreground code of red, entry 4 of [biosToTerminal]. *)
Definition ansi_red : Z := 31.

(** The state a computation returns with, if it returns. *)
Definition result_state {A : Type} (r : outcome A) : option Emulator :=
  match r with
  | Ok _ e _ => Some e
  | _ => None
  end.

(** * Concrete machines *)

(** A machine as [main] sets one up: the program at [org], the program
    counter on its first byte, zeroed memory below it for the stack. *)
Definition boot (org : Z) (regs code : list Z) : Emulator :=
  let mem := replicate (Z.to_nat org) 0 ++ code ++ replicate 8 0 in
  mkEmulator regs 0 mem org (Z.of_nat (length mem)).

(** [sub eax, -1] with EAX = 5. *)
Definition sub_minus_one : Emulator :=
  boot 16 [5; 0; 0; 0; 16; 0; 0; 0] [0x83; 0xE8; 0xFF].

(** [cmp eax, -1] with EAX = 5. *)
Definition cmp_minus_one : Emulator :=
  boot 16 [5; 0; 0; 0; 16; 0; 0; 0] [0x83; 0xF8; 0xFF].

(** The addressing bytes of [[eax - 128]] with EAX = 1000. *)
Definition disp8_minus_128 : Emulator :=
  boot 16 [1000; 0; 0; 0; 16; 0; 0; 0] [0x40; 0x80].

(** [mov al, cl] with EAX = 0x11223344 and ECX = 0x55667788. *)
Definition mov_al_cl : Emulator :=
  boot 16 [0x11223344; 0x55667788; 0; 0; 16; 0; 0; 0] [0x8A; 0xC1].

(** [mov cl, al] on the same registers. *)
Definition mov_cl_al : Emulator :=
  boot 16 [0x11223344; 0x55667788; 0; 0; 16; 0; 0; 0] [0x88; 0xC1].

(** [push 0x2A; pop esp] with the stack pointer at 16. *)
Definition push_pop_esp : Emulator :=
  boot 16 [0; 0; 0; 0; 16; 0; 0; 0] [0x6A; 0x2A; 0x5C].

(** [push 0x2A; pop eax] with the stack pointer at 16. *)
Definition push_pop_eax : Emulator :=
  boot 16 [0; 0; 0; 0; 16; 0; 0; 0] [0x6A; 0x2A; 0x58].

(** [jmp short +5] at the boot address. *)
Definition jmp_short_5 : Emulator :=
  boot 0x7c00 [0; 0; 0; 0; 0x7c00; 0; 0; 0] [0xEB; 0x05].

(** The byte 0x80 followed by the word 0x80000000. *)
Definition extreme_fields : Emulator :=
  boot 16 [0; 0; 0; 0; 16; 0; 0; 0] [0x80; 0x00; 0x00; 0x00; 0x80].

(** [mov eax, 0x12345678] followed by the unassigned opcode 0xF4. *)
Definition mov_then_unknown : Emulator :=
  boot 0x7c00 [0; 0; 0; 0; 0x7c00; 0; 0; 0] [0xB8; 0x78; 0x56; 0x34; 0x12; 0xF4].

(** [inc eax] with the four modelled flags set. *)
Definition inc_eax_flags_set : Emulator :=
  set_Eflags (fun _ => 0x8C1) (boot 16 [7; 0; 0; 0; 16; 0; 0; 0] [0x40]).

(** [int 0x10] with AH = 0x0E, AL = 'A', BL = 0x0C. *)
Definition teletype_A : Emulator :=
  boot 16 [0x0E41; 0; 0; 0x0C; 16; 0; 0; 0] [0xCD; 0x10].

(** [push esp] with the stack pointer at 16. *)
Definition push_esp : Emulator :=
  boot 16 [0; 0; 0; 0; 16; 0; 0; 0] [0x54].

(** * Observations and measures for the further properties *)

(** The bit offset of the byte register [i] inside its 32-bit register:
    indices 0..3 are the low bytes, 4..7 the bytes above them. *)
Definition byte_offset (i : Z) : Z := if i <? 4 then 0 else 8.

(** The condition each conditional-jump opcode tests on the flags. *)
Definition jcc_condition (op : Z) (e : Emulator) : option bool :=
  let flag_c := testFlag CarryFlag e in
  let flag_z := testFlag ZeroFlag e in
  let flag_s := testFlag SignFlag e in
  let flag_o := testFlag OverFlowFlag e in
  match op with
  | 0x70 => Some flag_o
  | 0x71 => Some (negb flag_o)
  | 0x72 => Some flag_c
  | 0x73 => Some (negb flag_c)
  | 0x74 => Some flag_z
  | 0x75 => Some (negb flag_z)
  | 0x78 => Some flag_s
  | 0x79 => Some (negb flag_s)
  | 0x7C => Some (negb (Bool.eqb flag_s flag_o))
  | 0x7E => Some (flag_z || negb (Bool.eqb flag_s flag_o))
  | _ => None
  end.

(** Values of type [uint8] and [uint32]. *)
Definition is_byte (b : Z) : Prop := 0 <= b < 2^8.
Definition is_word (w : Z) : Prop := 0 <= w < 2^32.

(** A well-formed state whose memory has [n] bytes and whose bound is [k]. *)
Definition good (n : nat) (k : Z) (e : Emulator) : Prop :=
  wf e /\ length (Memory e) = n /\ MaxMemorySize e = k.

(** From a good state the computation returns only with a good state of
    the same memory size and bound, and with a value that satisfies [R]. *)
Definition safe {A : Type} (m : M A) (R : A -> Prop) : Prop :=
  forall n k e a e' o, good n k e -> m e = Ok a e' o -> good n k e' /\ R a.

(** A state that is good for some size and bound. *)
Definition is_good (e : Emulator) : Prop := exists n k, good n k e.

(** The bytes the addressing decoder consumes for mode [mod_] and base
    field [rm]: one for a SIB byte, then one or four for a displacement,
    after the ModRM byte itself. *)
Definition sib_length (mod_ rm : Z) : Z :=
  if negb (mod_ =? 3) && (rm =? 4) then 1 else 0.

Definition disp_length (mod_ rm : Z) : Z :=
  if ((mod_ =? 0) && (rm =? 5)) || (mod_ =? 2) then 4
  else if mod_ =? 1 then 1 else 0.

Definition modrm_length (mod_ rm : Z) : Z :=
  1 + sib_length mod_ rm + disp_length mod_ rm.

(** The state with the program counter moved forward by [k] bytes. *)
Definition advance (k : Z) (e : Emulator) : Emulator :=
  set_Eip (fun p => u32 (p + k)) e.

(** The opcodes whose handler reads the byte after the opcode before it
    changes anything but the program counter. *)
Definition reads_operand_first : list Z :=
  [0x01; 0x3B; 0x3C; 0x3D; 0x68; 0x6A; 0x83; 0x88; 0x89; 0x8A; 0x8B;
   0xB0; 0xB1; 0xB2; 0xB3; 0xB4; 0xB5; 0xB6; 0xB7;
   0xB8; 0xB9; 0xBA; 0xBB; 0xBC; 0xBD; 0xBE; 0xBF;
   0xC7; 0xCD; 0xE8; 0xE9; 0xEB; 0xFF].

(** An outcome without what was printed. *)
Definition forget_output {A : Type} (r : outcome A) : outcome A :=
  match r with
  | Ok a e _ => Ok a e []
  | Exit c _ => Exit c []
  | Panic _ => Panic []
  end.

(** * Further machines *)

(** A store of four bytes at address 16 of a 32-byte memory. *)
Definition small_memory : Emulator :=
  boot 16 [0; 0; 0; 0; 16; 0; 0; 0] [0x11; 0x22; 0x33; 0x44].

(** [jmp near] with displacement 0x80000000. *)
Definition jmp_near_min : Emulator :=
  boot 16 [0; 0; 0; 0; 16; 0; 0; 0] [0xE9; 0x00; 0x00; 0x00; 0x80].

(** [jz +5] with the zero flag set, and with no byte after the opcode. *)
Definition jz_taken : Emulator :=
  set_Eflags (fun _ => ZeroFlag) (boot 16 [0; 0; 0; 0; 16; 0; 0; 0] [0x74; 0x05]).

(** [jl +5] on the flags that comparing 0xFFFFFFFF (that is, -1) with 1
    leaves: sign set, the others clear. *)
Definition jl_after_cmp : Emulator :=
  set_Eflags (fun _ => SignFlag)
    (boot 16 [0xFFFFFFFF; 0; 0; 0; 16; 0; 0; 0] [0x7C; 0x05]).

(** [call +3] with the stack pointer at 16. *)
Definition call_3 : Emulator :=
  boot 16 [0; 0; 0; 0; 16; 0; 0; 0] [0xE8; 0x03; 0x00; 0x00; 0x00].

(** [push ebx; pop ecx] with EBX = 0xDEADBEEF. *)
Definition push_ebx_pop_ecx : Emulator :=
  boot 16 [1; 2; 3; 0xDEADBEEF; 16; 5; 6; 7] [0x53; 0x59].

(** [push 0x2A] with the stack pointer at 2: the slot wraps below 0. *)
Definition push_no_room : Emulator :=
  boot 16 [0; 0; 0; 0; 2; 0; 0; 0] [0x6A; 0x2A].

(** The unassigned opcode 0xF4 alone. *)
Definition unknown_only : Emulator :=
  boot 16 [0; 0; 0; 0; 16; 0; 0; 0] [0xF4].

(** [mov edx, 0xCAFEBABE]. *)
Definition mov_edx_imm : Emulator :=
  boot 16 [0; 0; 0; 0; 16; 0; 0; 0] [0xBA; 0xBE; 0xBA; 0xFE; 0xCA].

(** [adc eax, 1]: group 0x83 with sub-opcode 2. *)
Definition group83_adc : Emulator :=
  boot 16 [0; 0; 0; 0; 16; 0; 0; 0] [0x83; 0xD0; 0x01].

(** [int 0x21], a vector with no service. *)
Definition int_21 : Emulator :=
  boot 16 [0; 0; 0; 0; 16; 0; 0; 0] [0xCD; 0x21].

(** [out dx, al] with AL = 'A' and DX = 0x103F8. *)
Definition out_dx_al : Emulator :=
  boot 16 [0x41; 0; 0x103F8; 0; 16; 0; 0; 0] [0xEE].

(** [inc edi] with EDI = 0xFFFFFFFF. *)
Definition inc_edi_max : Emulator :=
  boot 16 [0; 0; 0; 0; 16; 0; 0; 0xFFFFFFFF] [0x47].

(** The operand bytes of [[esp - 4]]: ModRM byte 0x44 (mode 1, base
    field 4), SIB byte 0x24, displacement byte 0xFC, at the program
    counter. *)
Definition operand_esp_minus_4 : Emulator :=
  boot 16 [0; 0; 0; 0; 16; 0; 0; 0] [0x44; 0x24; 0xFC; 0; 0; 0].

(** [add ebx, -2] with EBX = 1, then [inc ebx]. *)
Definition add_ebx_minus_two : Emulator :=
  boot 16 [0; 0; 0; 1; 16; 0; 0; 0] [0x83; 0xC3; 0xFE; 0xFF; 0xC3].

(** [add ecx, ebx] with ECX = 0xFFFFFFFF and EBX = 2. *)
Definition add_ecx_ebx : Emulator :=
  boot 16 [0; 0xFFFFFFFF; 0; 2; 16; 0; 0; 0] [0x01; 0xD9].

(** [mov [ebp-4], eax] with EAX = 0x11223344 and EBP = 12. *)
Definition mov_to_frame : Emulator :=
  boot 16 [0x11223344; 0; 0; 0; 16; 12; 0; 0] [0x89; 0x45; 0xFC].

(** The bytes B1 0xC3, which an assembler emits for [mov cl, 0xC3], with
    EAX = 0x11223344 and EBX = 0x55667788. *)
Definition mov_cl_imm : Emulator :=
  boot 16 [0x11223344; 0; 0; 0x55667788; 16; 0; 0; 0] [0xB1; 0xC3].

(** [leave] with EBP = 8 and the word 0x0C at address 8. *)
Definition leave_frame : Emulator :=
  set_Memory (fun m => <[8%nat := 0x0C]> m)
    (boot 16 [0; 0; 0; 0; 4; 8; 0; 0] [0xC9]).

(** [jmp short] as the last byte of memory. *)
Definition jmp_at_the_end : Emulator :=
  mkEmulator [0; 0; 0; 0; 16; 0; 0; 0] 0 (replicate 16 0 ++ [0xEB]) 16 17.

(** [push 0x00010203] with the stack pointer at 16. *)
Definition push_imm32 : Emulator :=
  boot 16 [0; 0; 0; 0; 16; 0; 0; 0] [0x68; 0x03; 0x02; 0x01; 0x00].

(** [cmp ecx, edx] with ECX = 3 and EDX = 7. *)
Definition cmp_ecx_edx : Emulator :=
  boot 16 [0; 3; 7; 0; 16; 0; 0; 0] [0x3B; 0xCA].

(** * Predicates on computations *)

(** The computation returns only with the flags word it started with. *)
Definition keeps_flags {A : Type} (m : M A) : Prop :=
  forall e a e' o, m e = Ok a e' o -> Eflags e' = Eflags e.

(** Whatever the computation returns satisfies [P]. *)
Definition yields {A : Type} (P : A -> Prop) (m : M A) : Prop :=
  forall e a e' o, m e = Ok a e' o -> P a.

(** * Properties *)

(** ** Arithmetic of the fixed-width conversions *)

Section IntFacts.

Lemma u32_range z : 0 <= u32 z < 2^32.
Proof. unfold u32. apply Z.mod_pos_bound. lia. Qed.

Lemma u32_small z : 0 <= z < 2^32 -> u32 z = z.
Proof. unfold u32. intros. apply Z.mod_small. assumption. Qed.

Lemma u8_small z : 0 <= z < 2^8 -> u8 z = z.
Proof. unfold u8. intros. apply Z.mod_small. assumption. Qed.

Lemma i32_small z : - 2^31 <= z < 2^31 -> i32 z = z.
Proof. unfold i32. intros. rewrite Z.mod_small; lia. Qed.

Lemma shiftr7_byte b : 0 <= b < 2^8 -> (Z.shiftr b 7 =? 0) = (b <? 2^7).
Proof.
  intros Hb. rewrite Z.shiftr_div_pow2 by lia.
  destruct (Z.ltb_spec b (2^7)); destruct (Z.eqb_spec (b / 2^7) 0); try reflexivity;
    Z.div_mod_to_equations; lia.
Qed.

Lemma shiftr31_word w : 0 <= w < 2^32 -> (Z.shiftr w 31 =? 0) = (w <? 2^31).
Proof.
  intros Hw. rewrite Z.shiftr_div_pow2 by lia.
  destruct (Z.ltb_spec w (2^31)); destruct (Z.eqb_spec (w / 2^31) 0); try reflexivity;
    Z.div_mod_to_equations; lia.
Qed.

(** The NOT-plus-one negation of the source computes [signed8]. *)
Lemma negate8 b :
  2^7 <= b < 2^8 -> i32 (- i32 (u8 (u8 (Z.lnot b) + 1))) = b - 2^8.
Proof.
  intros Hb. unfold Z.lnot, Z.pred.
  assert (E : u8 (u8 (- b + -1) + 1) = 2^8 - b).
  { unfold u8. Z.div_mod_to_equations. lia. }
  rewrite E. rewrite (i32_small (2^8 - b)) by lia. rewrite i32_small; lia.
Qed.

(** At 32 bits the intermediate [int32] conversion wraps for
    [0x80000000], and the second negation wraps it back. *)
Lemma negate32 w :
  2^31 <= w < 2^32 -> i32 (- i32 (u32 (u32 (Z.lnot w) + 1))) = w - 2^32.
Proof.
  intros Hw. unfold Z.lnot, Z.pred.
  assert (E : u32 (u32 (- w + -1) + 1) = 2^32 - w).
  { unfold u32. Z.div_mod_to_equations. lia. }
  rewrite E. unfold i32. Z.div_mod_to_equations. lia.
Qed.

Lemma signed8_range b : 0 <= b < 2^8 -> - 2^7 <= signed8 b < 2^7.
Proof. unfold signed8. destruct (Z.ltb_spec b (2^7)); lia. Qed.

Lemma signed8_mod b : 0 <= b < 2^8 -> signed8 b mod 2^8 = b.
Proof.
  unfold signed8. intros. destruct (Z.ltb_spec b (2^7));
    Z.div_mod_to_equations; lia.
Qed.

Lemma signed32_range w : 0 <= w < 2^32 -> - 2^31 <= signed32 w < 2^31.
Proof. unfold signed32. destruct (Z.ltb_spec w (2^31)); lia. Qed.

Lemma signed32_mod w : 0 <= w < 2^32 -> signed32 w mod 2^32 = w.
Proof.
  unfold signed32. intros. destruct (Z.ltb_spec w (2^31));
    Z.div_mod_to_equations; lia.
Qed.

Lemma lor_u32_range a x : 0 <= a < 2^32 -> 0 <= Z.lor a (u32 x) < 2^32.
Proof.
  intros Ha. pose proof (u32_range x) as Hx. split.
  - apply Z.lor_nonneg. lia.
  - destruct (Z.eq_dec (Z.lor a (u32 x)) 0) as [->|Hne]; [lia|].
    assert (0 <= Z.lor a (u32 x)) by (apply Z.lor_nonneg; lia).
    apply Z.log2_lt_pow2; [lia|].
    rewrite Z.log2_lor by lia.
    assert (La : Z.log2 a < 32).
    { destruct (Z.eq_dec a 0) as [->|]; [reflexivity|]. apply Z.log2_lt_pow2; lia. }
    assert (Lx : Z.log2 (u32 x) < 32).
    { destruct (Z.eq_dec (u32 x) 0) as [->|]; [reflexivity|]. apply Z.log2_lt_pow2; lia. }
    lia.
Qed.

End IntFacts.

(** ** What well-formedness gives *)

Section WellFormed.

Lemma in_range_spec lo hi z : in_range lo hi z = true <-> lo <= z < hi.
Proof. unfold in_range. rewrite andb_true_iff, Z.leb_le, Z.ltb_lt. reflexivity. Qed.

Lemma forallb_lookup {A : Type} (p : A -> bool) (l : list A) (i : nat) (x : A) :
  forallb p l = true -> l !! i = Some x -> p x = true.
Proof.
  revert i. induction l as [|y l IH]; intros [|i] Hall Hl; simpl in *;
    try discriminate; apply andb_true_iff in Hall as [Hy Hrest].
  - congruence.
  - eapply IH; eassumption.
Qed.

Lemma index_Some {A : Type} (l : list A) (i : Z) (x : A) :
  index l i = Some x <-> 0 <= i /\ l !! Z.to_nat i = Some x.
Proof.
  unfold index. split.
  - destruct (Z.leb_spec 0 i); simpl; [|discriminate].
    destruct (Z.ltb_spec i (Z.of_nat (length l))); [auto|discriminate].
  - intros [Hi Hl]. pose proof (lookup_lt_Some _ _ _ Hl).
    destruct (Z.leb_spec 0 i); [|lia]. simpl.
    destruct (Z.ltb_spec i (Z.of_nat (length l))); [assumption|lia].
Qed.

Variable e : Emulator.
Hypothesis Hwf : wf e.

Lemma wf_parts :
  length (Registers e) = 8%nat
  /\ forallb (in_range 0 (2^32)) (Registers e) = true
  /\ forallb (in_range 0 (2^8)) (Memory e) = true
  /\ 0 <= Eflags e < 2^32 /\ 0 <= Eip e < 2^32 /\ 0 <= MaxMemorySize e < 2^32.
Proof.
  unfold wf, wfb in Hwf. rewrite !andb_true_iff in Hwf.
  destruct Hwf as [[[[[H1 H2] H3] H4] H5] H6].
  apply Z.eqb_eq in H1. unfold RegistersCount in H1.
  rewrite in_range_spec in H4, H5, H6. repeat split; try assumption; lia.
Qed.

Lemma wf_Eip : 0 <= Eip e < 2^32.
Proof. apply wf_parts. Qed.

Lemma wf_byte a b : index (Memory e) a = Some b -> 0 <= b < 2^8.
Proof.
  intros H. apply index_Some in H as [_ H]. apply in_range_spec.
  eapply forallb_lookup; [apply wf_parts | exact H].
Qed.

Lemma wf_register i r : Registers e !! i = Some r -> 0 <= r < 2^32.
Proof.
  intros H. apply in_range_spec.
  eapply forallb_lookup; [apply wf_parts | exact H].
Qed.

End WellFormed.

(** ** Running a computation *)

Lemma prepend_nil {A : Type} (r : outcome A) : prepend [] r = r.
Proof. destruct r; reflexivity. Qed.

Section MonadFacts.

Context {A B : Type}.

Lemma bind_Ok (m : M A) (f : A -> M B) e a e' o :
  m e = Ok a e' o -> bind m f e = prepend o (f a e').
Proof. unfold bind. intros ->. reflexivity. Qed.

Lemma bind_Ok_nil (m : M A) (f : A -> M B) e a e' :
  m e = Ok a e' [] -> bind m f e = f a e'.
Proof. intros H. rewrite (bind_Ok _ _ _ _ _ _ H). apply prepend_nil. Qed.

Lemma bind_inv (m : M A) (f : A -> M B) e b e2 o :
  bind m f e = Ok b e2 o ->
  exists a e1 o1 o2, m e = Ok a e1 o1 /\ f a e1 = Ok b e2 o2 /\ o = o1 ++ o2.
Proof.
  unfold bind. destruct (m e) as [a e1 o1| |]; try discriminate.
  destruct (f a e1) as [b' e2' o2| |] eqn:E; simpl; try discriminate.
  intros [= -> -> <-]. eauto 8.
Qed.

End MonadFacts.

Lemma le32_range b0 b1 b2 b3 : 0 <= le32 b0 b1 b2 b3 < 2^32.
Proof. unfold le32. repeat apply lor_u32_range. lia. Qed.

(** A loop whose body only reads the state only reads the state. *)
Lemma for_range_pure {A : Type} (P : A -> Prop) (body : Z -> A -> M A) :
  (forall i acc e a e' o, P acc -> body i acc e = Ok a e' o -> P a /\ e' = e /\ o = []) ->
  forall n i acc e a e' o,
    P acc -> for_range i n body acc e = Ok a e' o -> P a /\ e' = e /\ o = [].
Proof.
  intros Hbody n. induction n as [|n IH]; intros i acc e a e' o Hacc H; simpl in H.
  - injection H as <- <- <-. auto.
  - apply bind_inv in H as (a1 & e1 & o1 & o2 & H1 & H2 & ->).
    destruct (Hbody _ _ _ _ _ _ Hacc H1) as (Ha1 & -> & ->).
    destruct (IH _ _ _ _ _ _ Ha1 H2) as (Ha & -> & ->). auto.
Qed.

Lemma GetCode8_inv_any i e b e' o :
  GetCode8 i e = Ok b e' o -> e' = e /\ o = [].
Proof.
  unfold GetCode8, bind, get.
  destruct (index (Memory e) (u32 (Eip e + i))); simpl; [|discriminate].
  intros [= -> -> <-]. auto.
Qed.

Section Reader.

Variable e : Emulator.

Lemma GetCode8_spec i b :
  index (Memory e) (u32 (Eip e + i)) = Some b -> GetCode8 i e = Ok b e [].
Proof. intros H. unfold GetCode8, bind, get. rewrite H. reflexivity. Qed.

Lemma GetCode8_inv i b e' o :
  GetCode8 i e = Ok b e' o ->
  index (Memory e) (u32 (Eip e + i)) = Some b /\ e' = e /\ o = [].
Proof.
  unfold GetCode8, bind, get.
  destruct (index (Memory e) (u32 (Eip e + i))); simpl; [|discriminate].
  intros [= -> -> <-]. auto.
Qed.

Lemma GetCode32_spec i b0 b1 b2 b3 :
  index (Memory e) (u32 (Eip e + u32 (i + 0))) = Some b0 ->
  index (Memory e) (u32 (Eip e + u32 (i + 1))) = Some b1 ->
  index (Memory e) (u32 (Eip e + u32 (i + 2))) = Some b2 ->
  index (Memory e) (u32 (Eip e + u32 (i + 3))) = Some b3 ->
  GetCode32 i e = Ok (le32 b0 b1 b2 b3) e [].
Proof.
  intros H0 H1 H2 H3.
  change (GetCode32 i e) with
    (bind (bind (GetCode8 (u32 (i + 0))) (fun c => ret (Z.lor 0 (u32 (Z.shiftl c 0)))))
       (fun r0 => bind (bind (GetCode8 (u32 (i + 1)))
                          (fun c => ret (Z.lor r0 (u32 (Z.shiftl c 8)))))
       (fun r1 => bind (bind (GetCode8 (u32 (i + 2)))
                          (fun c => ret (Z.lor r1 (u32 (Z.shiftl c 16)))))
       (fun r2 => bind (bind (GetCode8 (u32 (i + 3)))
                          (fun c => ret (Z.lor r2 (u32 (Z.shiftl c 24)))))
       (fun r3 => ret r3)))) e).
  unfold bind at 1 2. rewrite (GetCode8_spec _ _ H0). simpl.
  unfold bind at 1 2. rewrite (GetCode8_spec _ _ H1). simpl.
  unfold bind at 1 2. rewrite (GetCode8_spec _ _ H2). simpl.
  unfold bind at 1 2. rewrite (GetCode8_spec _ _ H3). reflexivity.
Qed.

Lemma GetCode32_inv i w e' o :
  GetCode32 i e = Ok w e' o -> 0 <= w < 2^32 /\ e' = e /\ o = [].
Proof.
  unfold GetCode32. apply (for_range_pure (fun r => 0 <= r < 2^32)); [|lia].
  intros j acc e0 a e1 o1 Hacc H.
  apply bind_inv in H as (c & e2 & o2 & o3 & Hc & Hr & ->).
  apply GetCode8_inv_any in Hc as (-> & ->).
  injection Hr as <- <- <-. split; [|auto]. apply lor_u32_range. assumption.
Qed.

Hypothesis Hwf : wf e.

Lemma GetSignCode8_spec i b :
  index (Memory e) (u32 (Eip e + i)) = Some b ->
  GetSignCode8 i e = Ok (signed8 b) e [].
Proof.
  intros H. pose proof (wf_byte e Hwf _ _ H) as Hb.
  unfold GetSignCode8, bind, get. rewrite H. simpl.
  rewrite shiftr7_byte by assumption. unfold signed8.
  destruct (Z.ltb_spec b (2^7)); unfold ret; rewrite !prepend_nil; f_equal.
  - apply i32_small. lia.
  - apply negate8. lia.
Qed.

Lemma GetSignCode32_spec i w e' o :
  GetCode32 i e = Ok w e' o -> GetSignCode32 i e = Ok (signed32 w) e' o.
Proof.
  intros H. destruct (GetCode32_inv _ _ _ _ H) as (Hw & -> & ->).
  unfold GetSignCode32. rewrite (bind_Ok_nil _ _ _ _ _ H).
  rewrite shiftr31_word by assumption. unfold signed32.
  destruct (Z.ltb_spec w (2^31)); unfold ret; f_equal.
  - apply i32_small. lia.
  - apply negate32. lia.
Qed.

End Reader.

(** ** Sign-extended reads *)

Lemma signed8_unique b z :
  0 <= b < 2^8 -> - 2^7 <= z < 2^7 -> z mod 2^8 = b -> z = signed8 b.
Proof.
  intros Hb Hz Hm. unfold signed8. destruct (Z.ltb_spec b (2^7));
    Z.div_mod_to_equations; lia.
Qed.

Lemma signed32_unique w z :
  0 <= w < 2^32 -> - 2^31 <= z < 2^31 -> z mod 2^32 = w -> z = signed32 w.
Proof.
  intros Hw Hz Hm. unfold signed32. destruct (Z.ltb_spec w (2^31));
    Z.div_mod_to_equations; lia.
Qed.

(** C5: for every byte [b] found at the field, [GetSignCode8] returns the
    one integer of [-128, 127] congruent to [b] modulo 256, and for every
    word [w] that [GetCode32] assembles at the field, [GetSignCode32]
    returns the one integer of [-2^31, 2^31 - 1] congruent to [w] modulo
    2^32; neither read changes the state. *)
Theorem sign_extended_reads (e : Emulator) (i j b w : Z) :
  wf e ->
  index (Memory e) (u32 (Eip e + i)) = Some b ->
  GetCode32 j e = Ok w e [] ->
  (exists z, GetSignCode8 i e = Ok z e []
             /\ - 2^7 <= z < 2^7 /\ z mod 2^8 = b
             /\ forall z', - 2^7 <= z' < 2^7 -> z' mod 2^8 = b -> z' = z)
  /\ (exists z, GetSignCode32 j e = Ok z e []
              /\ - 2^31 <= z < 2^31 /\ z mod 2^32 = w
              /\ forall z', - 2^31 <= z' < 2^31 -> z' mod 2^32 = w -> z' = z).
Proof.
  intros Hwf Hb Hw. split.
  - pose proof (wf_byte e Hwf _ _ Hb) as Rb.
    exists (signed8 b). split; [apply GetSignCode8_spec; assumption|].
    split; [apply signed8_range; assumption|].
    split; [apply signed8_mod; assumption|].
    intros z' Hz' Hm. apply signed8_unique; assumption.
  - destruct (GetCode32_inv _ _ _ _ _ Hw) as (Rw & _ & _).
    exists (signed32 w). split; [apply GetSignCode32_spec; assumption|].
    split; [apply signed32_range; assumption|].
    split; [apply signed32_mod; assumption|].
    intros z' Hz' Hm. apply signed32_unique; assumption.
Qed.

(** ** Jumps *)

Lemma set_Eip_ext (f g : Z -> Z) (e : Emulator) :
  f (Eip e) = g (Eip e) -> set_Eip f e = set_Eip g e.
Proof. unfold set_Eip. intros ->. reflexivity. Qed.

Lemma jump_by_spec (e : Emulator) (diff len : Z) :
  - 2^31 < diff < 2^31 ->
  jump_by diff len e = Ok tt (set_Eip (fun p => u32 (p + diff + len)) e) [].
Proof.
  intros Hd. unfold jump_by.
  destruct (Z.ltb_spec 0 diff).
  - unfold add_Eip, modify. f_equal. apply set_Eip_ext.
    unfold u32. Z.div_mod_to_equations. lia.
  - unfold sub_Eip, add_Eip, bind, modify. simpl. f_equal.
    unfold set_Eip. simpl. f_equal.
    rewrite (i32_small (- diff)) by lia.
    unfold u32. Z.div_mod_to_equations. lia.
Qed.

(** C4: the short jump moves the program counter to
    [(p + signext d + 2) mod 2^32] for every displacement byte [d] and
    every counter [p]; displacement 0x05 at 0x7c00 gives 0x7c07 and
    displacement 0xFE at 0x7c00 gives 0x7c00. *)
Theorem short_jump_target (e : Emulator) (d : Z) :
  wf e ->
  index (Memory e) (u32 (Eip e + 1)) = Some d ->
  executeOpCode 0xEB e
    = Ok tt (set_Eip (fun p => u32 (p + signed8 d + 2)) e) []
  /\ (Eip e = 0x7c00 -> d = 0x05 ->
      executeOpCode 0xEB e = Ok tt (set_Eip (fun _ => 0x7c07) e) [])
  /\ (Eip e = 0x7c00 -> d = 0xFE ->
      executeOpCode 0xEB e = Ok tt (set_Eip (fun _ => 0x7c00) e) []).
Proof.
  intros Hwf Hd.
  assert (Hgen : executeOpCode 0xEB e
                 = Ok tt (set_Eip (fun p => u32 (p + signed8 d + 2)) e) []).
  { change (executeOpCode 0xEB) with ShortJump. unfold ShortJump.
    rewrite (bind_Ok_nil _ _ _ _ _ (GetSignCode8_spec e Hwf _ _ Hd)).
    apply jump_by_spec.
    pose proof (signed8_range d (wf_byte e Hwf _ _ Hd)). lia. }
  split; [exact Hgen|].
  split; intros Hp ->; rewrite Hgen; f_equal; apply set_Eip_ext; rewrite Hp;
    reflexivity.
Qed.

(** ** Registers *)

Section RegisterFacts.

Variable e : Emulator.

Lemma Registers_at_spec i r :
  0 <= i < 8 -> Registers e !! Z.to_nat i = Some r -> Registers_at i e = Ok r e [].
Proof.
  intros Hi Hr. unfold Registers_at, bind, get.
  replace (in_range 0 RegistersCount i) with true
    by (symmetry; apply in_range_spec; unfold RegistersCount; lia).
  rewrite Hr. reflexivity.
Qed.

Lemma Registers_put_spec i v :
  0 <= i < 8 ->
  Registers_put i v e = Ok tt (set_Registers (fun r => <[Z.to_nat i := v]> r) e) [].
Proof.
  intros Hi. unfold Registers_put.
  replace (in_range 0 RegistersCount i) with true
    by (symmetry; apply in_range_spec; unfold RegistersCount; lia).
  reflexivity.
Qed.

End RegisterFacts.

(** ** Memory: a 32-bit store followed by a 32-bit load *)

Section MemoryFacts.

Lemma testbit_255 n : 0 <= n -> Z.testbit 0xFF n = (n <? 8).
Proof.
  intros Hn. change 0xFF with (Z.ones 8).
  rewrite Z.testbit_ones_nonneg by lia. reflexivity.
Qed.

Lemma byte_at_bits k v n :
  0 <= k -> 0 <= n ->
  Z.testbit (Z.shiftl (byte_at k v) k) n
  = (k <=? n) && (n <? k + 8) && Z.testbit v n.
Proof.
  intros Hk Hn. rewrite Z.shiftl_spec by assumption.
  destruct (Z.leb_spec k n) as [Hkn|Hkn]; simpl.
  - unfold byte_at, u8. rewrite Z.testbit_mod_pow2 by lia.
    rewrite !Z.land_spec, testbit_255, Z.shiftr_spec by lia.
    replace (n - k + k) with n by lia.
    destruct (Z.ltb_spec (n - k) 8); destruct (Z.ltb_spec n (k + 8)); try lia;
      simpl; rewrite ?andb_true_r, ?andb_false_r; reflexivity.
  - apply Z.testbit_neg_r. lia.
Qed.

Lemma u32_bits x n : Z.testbit (u32 x) n = (n <? 32) && Z.testbit x n.
Proof. unfold u32. apply Z.testbit_mod_pow2. lia. Qed.

Lemma le32_bytes v :
  0 <= v < 2^32 ->
  le32 (byte_at 0 v) (byte_at 8 v) (byte_at 16 v) (byte_at 24 v) = v.
Proof.
  intros Hv. apply Z.bits_inj'. intros n Hn. unfold le32.
  rewrite !Z.lor_spec, !u32_bits, !byte_at_bits, Z.bits_0 by lia.
  destruct (Z.ltb_spec n 32) as [Hlt|Hge].
  - destruct (Z.leb_spec 0 n); destruct (Z.leb_spec 8 n);
      destruct (Z.leb_spec 16 n); destruct (Z.leb_spec 24 n);
      destruct (Z.ltb_spec n (0 + 8)); destruct (Z.ltb_spec n (8 + 8));
      destruct (Z.ltb_spec n (16 + 8)); destruct (Z.ltb_spec n (24 + 8));
      try lia; simpl; rewrite ?orb_false_r; reflexivity.
  - simpl. symmetry. rewrite <- (Z.mod_small v (2^32)) by assumption.
    apply Z.mod_pow2_bits_high. lia.
Qed.

Lemma le32_byte (v : Z) : 0 <= v < 2^8 -> le32 v 0 0 0 = v.
Proof.
  intros Hv. unfold le32. rewrite Z.shiftl_0_r. change (u32 (Z.shiftl 0 _)) with 0.
  rewrite !Z.lor_0_r, Z.lor_0_l. apply u32_small. lia.
Qed.

Variable e : Emulator.

Lemma setMemory8_spec a v :
  0 <= a < Z.of_nat (length (Memory e)) ->
  setMemory8 a v e
  = Ok tt (set_Memory (fun m => <[Z.to_nat a := u8 (Z.land v 0xFF)]> m) e) [].
Proof.
  intros Ha. unfold setMemory8, bind, get.
  replace (in_range 0 (Z.of_nat (length (Memory e))) a) with true
    by (symmetry; apply in_range_spec; lia).
  reflexivity.
Qed.

Lemma getMemory8_spec a b :
  index (Memory e) a = Some b -> getMemory8 a e = Ok b e [].
Proof. intros H. unfold getMemory8, bind, get. rewrite H. reflexivity. Qed.

Lemma getMemory32_spec a b0 b1 b2 b3 :
  index (Memory e) (u32 (a + 0)) = Some b0 ->
  index (Memory e) (u32 (a + 1)) = Some b1 ->
  index (Memory e) (u32 (a + 2)) = Some b2 ->
  index (Memory e) (u32 (a + 3)) = Some b3 ->
  getMemory32 a e = Ok (le32 b0 b1 b2 b3) e [].
Proof.
  intros H0 H1 H2 H3.
  change (getMemory32 a e) with
    (bind (bind (getMemory8 (u32 (a + 0))) (fun c => ret (Z.lor 0 (u32 (Z.shiftl c 0)))))
       (fun r0 => bind (bind (getMemory8 (u32 (a + 1)))
                          (fun c => ret (Z.lor r0 (u32 (Z.shiftl c 8)))))
       (fun r1 => bind (bind (getMemory8 (u32 (a + 2)))
                          (fun c => ret (Z.lor r1 (u32 (Z.shiftl c 16)))))
       (fun r2 => bind (bind (getMemory8 (u32 (a + 3)))
                          (fun c => ret (Z.lor r2 (u32 (Z.shiftl c 24)))))
       (fun r3 => ret r3)))) e).
  unfold bind at 1 2. rewrite (getMemory8_spec _ _ H0). simpl.
  unfold bind at 1 2. rewrite (getMemory8_spec _ _ H1). simpl.
  unfold bind at 1 2. rewrite (getMemory8_spec _ _ H2). simpl.
  unfold bind at 1 2. rewrite (getMemory8_spec _ _ H3). reflexivity.
Qed.

End MemoryFacts.

Lemma setMemory32_spec (e : Emulator) (a v : Z) :
  0 <= a -> a + 3 < Z.of_nat (length (Memory e)) -> a + 3 < 2^32 ->
  setMemory32 a v e = Ok tt (set_Memory (store32 a v) e) [].
Proof.
  intros Ha Hlen Hmax.
  change (setMemory32 a v e) with
    (bind (setMemory8 (u32 (a + 0)) (Z.land (Z.shiftr v 0) 0xFF))
       (fun _ => bind (setMemory8 (u32 (a + 1)) (Z.land (Z.shiftr v 8) 0xFF))
       (fun _ => bind (setMemory8 (u32 (a + 2)) (Z.land (Z.shiftr v 16) 0xFF))
       (fun _ => bind (setMemory8 (u32 (a + 3)) (Z.land (Z.shiftr v 24) 0xFF))
       (fun r => ret r)))) e).
  rewrite !u32_small by lia.
  unfold bind at 1. rewrite setMemory8_spec by lia. simpl.
  unfold bind at 1. rewrite setMemory8_spec
    by (simpl; rewrite length_insert; lia). simpl.
  unfold bind at 1. rewrite setMemory8_spec
    by (simpl; rewrite !length_insert; lia). simpl.
  unfold bind at 1. rewrite setMemory8_spec
    by (simpl; rewrite !length_insert; lia). simpl.
  reflexivity.
Qed.

Section StoreFacts.

Variable e : Emulator.

Lemma index_store32 a v k :
  0 <= a -> a + 3 < Z.of_nat (length (Memory e)) -> 0 <= k < 4 ->
  index (store32 a v (Memory e)) (a + k) = Some (byte_at (8 * k) v).
Proof.
  intros Ha Hlen Hk. apply index_Some. split; [lia|].
  unfold store32.
  assert (k = 0 \/ k = 1 \/ k = 2 \/ k = 3) as [-> | [-> | [-> | ->]]] by lia.
  - rewrite !list_lookup_insert_ne by lia.
    apply list_lookup_insert_eq. lia.
  - rewrite !list_lookup_insert_ne by lia.
    apply list_lookup_insert_eq. rewrite !length_insert. lia.
  - rewrite !list_lookup_insert_ne by lia.
    apply list_lookup_insert_eq. rewrite !length_insert. lia.
  - apply list_lookup_insert_eq. rewrite !length_insert. lia.
Qed.

Lemma index_store32_other a v j :
  0 <= a -> ~ (a <= j < a + 4) ->
  index (store32 a v (Memory e)) j = index (Memory e) j.
Proof.
  intros Ha Hj. unfold index, store32. rewrite !length_insert.
  destruct ((0 <=? j) && (j <? Z.of_nat (length (Memory e)))) eqn:E; [|reflexivity].
  apply andb_true_iff in E as [E1 E2]. apply Z.leb_le in E1.
  rewrite !list_lookup_insert_ne by lia. reflexivity.
Qed.

End StoreFacts.

Lemma load_after_store (e e' : Emulator) (a v : Z) :
  0 <= a -> a + 3 < Z.of_nat (length (Memory e)) -> a + 3 < 2^32 ->
  0 <= v < 2^32 ->
  Memory e' = store32 a v (Memory e) ->
  getMemory32 a e' = Ok v e' [].
Proof.
  intros Ha Hlen Hmax Hv Hmem.
  assert (E : getMemory32 a e'
              = Ok (le32 (byte_at (8 * 0) v) (byte_at (8 * 1) v)
                         (byte_at (8 * 2) v) (byte_at (8 * 3) v)) e' []).
  { apply getMemory32_spec; rewrite u32_small by lia; rewrite Hmem;
      apply (index_store32 e); lia. }
  change (8 * 0) with 0 in E. change (8 * 1) with 8 in E.
  change (8 * 2) with 16 in E. change (8 * 3) with 24 in E.
  rewrite (le32_bytes v Hv) in E. exact E.
Qed.

(** ** Fetching *)

Lemma fetch_at (e : Emulator) (c : Z) :
  0 <= Eip e < 2^32 -> index (Memory e) (Eip e) = Some c -> GetCode8 0 e = Ok c e [].
Proof.
  intros Hp H. apply GetCode8_spec. rewrite Z.add_0_r, u32_small; assumption.
Qed.

Lemma fetch_spec (e : Emulator) (c : Z) :
  wf e -> index (Memory e) (Eip e) = Some c -> GetCode8 0 e = Ok c e [].
Proof. intros Hwf. apply fetch_at. apply wf_Eip. assumption. Qed.

Lemma step_quiet_at (e : Emulator) (c : Z) :
  0 <= Eip e < 2^32 -> index (Memory e) (Eip e) = Some c ->
  step true e = executeOpCode c e.
Proof.
  intros Hp H. unfold step.
  rewrite (bind_Ok_nil _ _ _ _ _ (fetch_at e c Hp H)).
  unfold bind at 1. simpl. apply prepend_nil.
Qed.

Lemma step_quiet (e : Emulator) (c : Z) :
  wf e -> index (Memory e) (Eip e) = Some c -> step true e = executeOpCode c e.
Proof. intros Hwf. apply step_quiet_at. apply wf_Eip. assumption. Qed.

(** ** The stack *)

Section Stack.

Variable e : Emulator.
Hypothesis Hwf : wf e.
Variable s : Z.
Hypothesis Hsp : register e CEsp = Some s.
Hypothesis Hslot : 4 <= s <= Z.of_nat (length (Memory e)).

Lemma sp_range : 0 <= s < 2^32.
Proof. eapply wf_register; eassumption. Qed.

Lemma push32_spec v : push32 v e = Ok tt (after_push s v e) [].
Proof.
  pose proof sp_range as Hs. unfold push32, getRegister32, setRegister32.
  rewrite (bind_Ok_nil _ _ _ _ _
             (Registers_at_spec e CEsp s ltac:(unfold CEsp; lia) Hsp)).
  rewrite (u32_small (s - 4)) by lia.
  rewrite (bind_Ok_nil _ _ _ _ _
             (Registers_put_spec e CEsp (s - 4) ltac:(unfold CEsp; lia))).
  apply setMemory32_spec; simpl; lia.
Qed.

Lemma after_push_sp v : register (after_push s v e) CEsp = Some (s - 4).
Proof.
  unfold register, after_push. simpl. apply list_lookup_insert_eq.
  destruct (wf_parts e Hwf) as (Hlen & _). rewrite Hlen. unfold CEsp. simpl. lia.
Qed.

End Stack.

Lemma pop32_spec (e : Emulator) (s w : Z) :
  register e CEsp = Some s ->
  getMemory32 s e = Ok w e [] ->
  pop32 e = Ok w (set_Registers (fun r => <[Z.to_nat CEsp := u32 (s + 4)]> r) e) [].
Proof.
  intros Hsp Hload. unfold pop32, getRegister32, setRegister32.
  rewrite (bind_Ok_nil _ _ _ _ _
             (Registers_at_spec e CEsp s ltac:(unfold CEsp; lia) Hsp)).
  rewrite (bind_Ok_nil _ _ _ _ _ Hload).
  rewrite (bind_Ok_nil _ _ _ _ _
             (Registers_put_spec e CEsp _ ltac:(unfold CEsp; lia))).
  reflexivity.
Qed.

(** C10: pushing the stack-pointer register itself stores the value the
    stack pointer had before the decrement at (old stack pointer - 4),
    and leaves the stack pointer at the old value minus 4. *)
Theorem push_esp_stores_old_value (e : Emulator) (s : Z) :
  wf e ->
  index (Memory e) (Eip e) = Some (0x50 + CEsp) ->
  register e CEsp = Some s ->
  4 <= s <= Z.of_nat (length (Memory e)) ->
  exists e',
    executeOpCode (0x50 + CEsp) e = Ok tt e' []
    /\ getMemory32 (s - 4) e' = Ok s e' []
    /\ register e' CEsp = Some (s - 4)
    /\ Eip e' = u32 (Eip e + 1).
Proof.
  intros Hwf Hop Hsp Hslot.
  pose proof (sp_range e Hwf s Hsp) as Hs.
  exists (set_Eip (fun p => u32 (p + 1)) (after_push s s e)).
  split; [|split; [|split]].
  - change (executeOpCode (0x50 + CEsp)) with PushR32. unfold PushR32.
    rewrite (bind_Ok_nil _ _ _ _ _ (fetch_spec e _ Hwf Hop)).
    change (u8 (u32 (0x50 + CEsp - 0x50))) with CEsp. unfold getRegister32.
    rewrite (bind_Ok_nil _ _ _ _ _
               (Registers_at_spec e CEsp s ltac:(unfold CEsp; lia) Hsp)).
    rewrite (bind_Ok_nil _ _ _ _ _ (push32_spec e Hwf s Hsp Hslot s)).
    reflexivity.
  - apply (load_after_store e); try lia. reflexivity.
  - apply after_push_sp; assumption.
  - reflexivity.
Qed.

Lemma PushImm8_spec (e : Emulator) (v s : Z) :
  wf e ->
  index (Memory e) (u32 (Eip e + 1)) = Some v ->
  register e CEsp = Some s ->
  4 <= s <= Z.of_nat (length (Memory e)) ->
  PushImm8 e = Ok tt (set_Eip (fun p => u32 (p + 2)) (after_push s v e)) [].
Proof.
  intros Hwf Hv Hsp Hslot. unfold PushImm8.
  rewrite (bind_Ok_nil _ _ _ _ _ (GetCode8_spec e _ _ Hv)).
  rewrite (bind_Ok_nil _ _ _ _ _ (push32_spec e Hwf s Hsp Hslot v)).
  reflexivity.
Qed.

Lemma popR32_spec (e : Emulator) (r s w : Z) :
  0 <= Eip e < 2^32 ->
  index (Memory e) (Eip e) = Some (0x58 + r) ->
  0 <= r < 8 ->
  register e CEsp = Some s ->
  getMemory32 s e = Ok w e [] ->
  popR32 e
  = Ok tt (set_Eip (fun p => u32 (p + 1))
             (set_Registers
                (fun rs => <[Z.to_nat r := w]> (<[Z.to_nat CEsp := u32 (s + 4)]> rs)) e))
       [].
Proof.
  intros Hp Hop Hr Hsp Hload. unfold popR32.
  rewrite (bind_Ok_nil _ _ _ _ _ (fetch_at e _ Hp Hop)).
  replace (u8 (u32 (0x58 + r - 0x58))) with r
    by (replace (0x58 + r - 0x58) with r by lia;
        rewrite u32_small, u8_small; lia).
  rewrite (bind_Ok_nil _ _ _ _ _ (pop32_spec e s w Hsp Hload)).
  unfold setRegister32.
  rewrite (bind_Ok_nil _ _ _ _ _ (Registers_put_spec _ r w Hr)).
  reflexivity.
Qed.

(** C7, amended: for every 8-bit immediate [v], every stack pointer [s]
    whose four bytes at [s - 4] lie inside memory and every destination
    register other than the stack pointer, push-immediate-8-bit followed
    by pop-into-register leaves the destination register equal to [v]
    zero-extended and the stack pointer back at [s]. *)
Theorem push_imm8_then_pop (e : Emulator) (v s r : Z) :
  wf e ->
  index (Memory e) (Eip e) = Some 0x6A ->
  index (Memory e) (u32 (Eip e + 1)) = Some v ->
  register e CEsp = Some s ->
  4 <= s <= Z.of_nat (length (Memory e)) ->
  0 <= r < 8 -> r <> CEsp ->
  exists e1,
    step true e = Ok tt e1 []
    /\ (index (Memory e1) (Eip e1) = Some (0x58 + r) ->
        exists e2,
          step true e1 = Ok tt e2 []
          /\ register e2 r = Some v
          /\ register e2 CEsp = Some s).
Proof.
  intros Hwf Hop Hv Hsp Hslot Hr Hne.
  pose proof (sp_range e Hwf s Hsp) as Hs.
  pose proof (wf_byte e Hwf _ _ Hv) as Rv.
  destruct (wf_parts e Hwf) as (Hlen & _).
  set (e1 := set_Eip (fun p => u32 (p + 2)) (after_push s v e)).
  exists e1. split.
  - rewrite (step_quiet e _ Hwf Hop). apply PushImm8_spec; assumption.
  - intros Hop1.
    assert (Hp1 : 0 <= Eip e1 < 2^32) by apply u32_range.
    assert (Hsp1 : register e1 CEsp = Some (s - 4))
      by (apply (after_push_sp e Hwf s v)).
    assert (Hload : getMemory32 (s - 4) e1 = Ok v e1 []).
    { apply (load_after_store e); try lia. reflexivity. }
    eexists. split.
    + rewrite (step_quiet_at e1 _ Hp1 Hop1).
      replace (executeOpCode (0x58 + r)) with popR32.
      * apply (popR32_spec e1 r (s - 4) v); assumption.
      * assert (r = 0 \/ r = 1 \/ r = 2 \/ r = 3 \/ r = 4 \/ r = 5 \/ r = 6 \/ r = 7)
          as [-> | [-> | [-> | [-> | [-> | [-> | [-> | ->]]]]]]] by lia; reflexivity.
    + unfold register; simpl. split.
      * apply list_lookup_insert_eq. rewrite !length_insert, Hlen. lia.
      * unfold CEsp in *. rewrite list_lookup_insert_ne by lia.
        rewrite list_lookup_insert_eq by (rewrite length_insert, Hlen; simpl; lia).
        f_equal. replace (s - 4 + 4) with s by lia. apply u32_small. lia.
Qed.

(** ** Unrecognized opcodes *)

Lemma unrecognized_default (op : Z) (e : Emulator) :
  recognized op = false ->
  executeOpCode op e
  = Ok tt (set_Eip (fun _ => 0) e) [("\nNot Implemented: %x"%string, [op])].
Proof.
  intros H. destruct op as [|p|p]; [reflexivity| |reflexivity].
  do 9 (try destruct p as [p|p|]);
    first [ reflexivity | vm_compute in H; discriminate H ].
Qed.

Lemma step_spec (e : Emulator) (c : Z) (quiet : bool) :
  0 <= Eip e < 2^32 -> index (Memory e) (Eip e) = Some c ->
  step quiet e = prepend (trace quiet e c) (executeOpCode c e).
Proof.
  intros Hp H. unfold step.
  rewrite (bind_Ok_nil _ _ _ _ _ (fetch_at e c Hp H)).
  unfold bind at 1, trace. destruct quiet; reflexivity.
Qed.

Lemma Run_unrecognized (e : Emulator) (op : Z) (quiet : bool) (fuel : nat) :
  0 <= Eip e < 2^32 ->
  recognized op = false ->
  index (Memory e) (Eip e) = Some op ->
  Eip e < MaxMemorySize e ->
  Run (S fuel) quiet e
  = Ok Halted (set_Eip (fun _ => 0) e)
      (trace quiet e op ++ [("\nNot Implemented: %x"%string, [op]);
                            ("\nend of program.\n\n"%string, [])]).
Proof.
  intros Hp Hop Hfetch Hbound. simpl. unfold bind at 1. simpl.
  destruct (Z.leb_spec (MaxMemorySize e) (Eip e)); [lia|].
  unfold bind at 1. rewrite (step_spec e op quiet Hp Hfetch).
  rewrite (unrecognized_default op e Hop). simpl.
  rewrite <- app_assoc. reflexivity.
Qed.

Lemma Run_step (fuel : nat) (quiet : bool) (e e' : Emulator) (out : stdout) :
  Eip e < MaxMemorySize e ->
  step quiet e = Ok tt e' out ->
  Eip e' <> 0 ->
  Run (S fuel) quiet e = prepend out (Run fuel quiet e').
Proof.
  intros Hbound Hstep Hne. simpl. unfold bind at 1. simpl.
  destruct (Z.leb_spec (MaxMemorySize e) (Eip e)); [lia|].
  unfold bind at 1. rewrite Hstep. unfold bind at 1. simpl.
  destruct (Z.eqb_spec (Eip e') 0); [contradiction|].
  rewrite !prepend_nil. reflexivity.
Qed.

Lemma MovR32Imm32_spec (e : Emulator) (r b0 b1 b2 b3 : Z) :
  0 <= Eip e -> Eip e + 4 < 2^32 ->
  0 <= r < 8 ->
  code_at (Memory e) (Eip e) [0xB8 + r; b0; b1; b2; b3] ->
  MovR32Imm32 e
  = Ok tt (set_Eip (fun p => u32 (p + 5))
             (set_Registers (fun rs => <[Z.to_nat r := le32 b0 b1 b2 b3]> rs) e)) [].
Proof.
  intros Hp Hmax Hr (Hop & H0 & H1 & H2 & H3 & _). unfold MovR32Imm32.
  rewrite (bind_Ok_nil _ _ _ _ _ (fetch_at e _ ltac:(lia) Hop)).
  replace (u32 (0xB8 + r - 0xB8)) with r
    by (replace (0xB8 + r - 0xB8) with r by lia; rewrite u32_small; lia).
  assert (G : GetCode32 1 e = Ok (le32 b0 b1 b2 b3) e []).
  { apply GetCode32_spec.
    - change (u32 (1 + 0)) with 1. rewrite u32_small by lia. exact H0.
    - change (u32 (1 + 1)) with 2. rewrite u32_small by lia.
      replace (Eip e + 2) with (Eip e + 1 + 1) by lia. exact H1.
    - change (u32 (1 + 2)) with 3. rewrite u32_small by lia.
      replace (Eip e + 3) with (Eip e + 1 + 1 + 1) by lia. exact H2.
    - change (u32 (1 + 3)) with 4. rewrite u32_small by lia.
      replace (Eip e + 4) with (Eip e + 1 + 1 + 1 + 1) by lia. exact H3. }
  rewrite (bind_Ok_nil _ _ _ _ _ G).
  rewrite (bind_Ok_nil _ _ _ _ _ (Registers_put_spec _ r _ Hr)). reflexivity.
Qed.

(** C6: an opcode byte without a case in the dispatch sets the program
    counter to 0 and leaves registers, flags and memory as they were;
    the run loop then stops at its [break], with no [os.Exit] and no
    panic.  Running [mov eax, 0x12345678] followed by such an opcode
    ends with register 0 = 0x12345678 and program counter 0. *)
Theorem unrecognized_opcode_halts (e : Emulator) (op : Z) (quiet : bool) (fuel : nat) :
  wf e ->
  recognized op = false ->
  (exists out,
      executeOpCode op e = Ok tt (set_Eip (fun _ => 0) e) out)
  /\ (index (Memory e) (Eip e) = Some op -> Eip e < MaxMemorySize e ->
      exists out,
        Run (S fuel) quiet e = Ok Halted (set_Eip (fun _ => 0) e) out)
  /\ (code_at (Memory e) (Eip e) [0xB8; 0x78; 0x56; 0x34; 0x12; op] ->
      Eip e + 5 < MaxMemorySize e ->
      exists e' out,
        Run (S (S fuel)) quiet e = Ok Halted e' out
        /\ register e' CEax = Some 0x12345678
        /\ Eip e' = 0
        /\ Eflags e' = Eflags e
        /\ Memory e' = Memory e).
Proof.
  intros Hwf Hop. pose proof (wf_Eip e Hwf) as Hp.
  destruct (wf_parts e Hwf) as (Hlen & _ & _ & _ & _ & Hmax).
  split; [|split].
  - eexists. apply unrecognized_default. assumption.
  - intros Hfetch Hbound. eexists. apply (Run_unrecognized e op quiet fuel); assumption.
  - intros Hcode Hbound.
    set (e1 := set_Eip (fun p => u32 (p + 5))
                 (set_Registers (fun rs => <[Z.to_nat 0 := 0x12345678]> rs) e)).
    assert (Hmov : executeOpCode 0xB8 e = Ok tt e1 []).
    { change (executeOpCode 0xB8) with MovR32Imm32.
      apply (MovR32Imm32_spec e 0 0x78 0x56 0x34 0x12); try lia.
      simpl in Hcode |- *. tauto. }
    assert (Hp1 : Eip e1 = Eip e + 5) by (simpl; apply u32_small; lia).
    assert (Hfetch1 : index (Memory e1) (Eip e1) = Some op).
    { rewrite Hp1. simpl in Hcode |- *.
      replace (Eip e + 5) with (Eip e + 1 + 1 + 1 + 1 + 1) by lia. tauto. }
    exists (set_Eip (fun _ => 0) e1). eexists. split; [|split; [|split; [|split]]].
    + rewrite (Run_step (S fuel) quiet e e1 (trace quiet e 0xB8)).
      * rewrite (Run_unrecognized e1 op quiet fuel) by (simpl in *; lia || assumption).
        reflexivity.
      * lia.
      * rewrite (step_spec e 0xB8 quiet Hp ltac:(simpl in Hcode; tauto)).
        rewrite Hmov. simpl. rewrite app_nil_r. reflexivity.
      * lia.
    + unfold register. simpl. apply list_lookup_insert_eq. rewrite Hlen. simpl. lia.
    + reflexivity.
    + reflexivity.
    + reflexivity.
Qed.

(** ** Frame: which handlers leave the flags word alone *)

Section KeepsFlags.

Context {A B : Type}.

Lemma keeps_ret (a : A) : keeps_flags (ret a).
Proof. intros e a' e' o [= _ <- _]. reflexivity. Qed.

Lemma keeps_bind (m : M A) (f : A -> M B) :
  keeps_flags m -> (forall a, keeps_flags (f a)) -> keeps_flags (bind m f).
Proof.
  intros Hm Hf e b e2 o H.
  apply bind_inv in H as (a & e1 & o1 & o2 & H1 & H2 & _).
  rewrite (Hf _ _ _ _ _ H2). exact (Hm _ _ _ _ H1).
Qed.

Lemma keeps_panic : keeps_flags (@panic A).
Proof. intros e a e' o H. discriminate H. Qed.

Lemma keeps_os_Exit c : keeps_flags (@os_Exit A c).
Proof. intros e a e' o H. discriminate H. Qed.

Lemma keeps_load (x : option A) : keeps_flags (load x).
Proof. destruct x; [apply keeps_ret | apply keeps_panic]. Qed.

End KeepsFlags.

Lemma keeps_for_range {A : Type} (body : Z -> A -> M A) :
  (forall i acc, keeps_flags (body i acc)) ->
  forall n i acc, keeps_flags (for_range i n body acc).
Proof.
  intros Hbody n. induction n as [|n IH]; intros i acc; simpl.
  - apply keeps_ret.
  - apply keeps_bind; [apply Hbody | intros a; apply IH].
Qed.

Lemma keeps_get : keeps_flags get.
Proof. intros e a e' o [= _ <- _]. reflexivity. Qed.

Lemma keeps_Printf fmt args : keeps_flags (Printf fmt args).
Proof. intros e a e' o [= _ <- _]. reflexivity. Qed.

Lemma keeps_modify (f : Emulator -> Emulator) :
  (forall e, Eflags (f e) = Eflags e) -> keeps_flags (modify f).
Proof. intros Hf e a e' o [= _ <- _]. apply Hf. Qed.

Lemma keeps_set_Eip f : keeps_flags (modify (set_Eip f)).
Proof. apply keeps_modify. reflexivity. Qed.

Lemma keeps_set_Registers f : keeps_flags (modify (set_Registers f)).
Proof. apply keeps_modify. reflexivity. Qed.

Lemma keeps_set_Memory f : keeps_flags (modify (set_Memory f)).
Proof. apply keeps_modify. reflexivity. Qed.

Create HintDb keeps.

#[local] Hint Resolve keeps_get keeps_Printf keeps_set_Eip keeps_set_Registers
  keeps_set_Memory : keeps.

(** One step of a frame proof: a computation already known to keep the
    flags, or one of the monad's constructors, or a case split. *)
Ltac keeps_step :=
  first
    [ solve [auto with keeps]
    | apply keeps_ret
    | apply keeps_panic
    | apply keeps_os_Exit
    | apply keeps_load
    | apply keeps_for_range; intros
    | apply keeps_bind; [|intros]
    | match goal with
      | |- keeps_flags (if ?b then _ else _) => destruct b
      | |- keeps_flags (match ?x with _ => _ end) => destruct x
      end ].

Ltac keeps := repeat keeps_step.

Lemma keeps_add_Eip n : keeps_flags (add_Eip n).
Proof. unfold add_Eip. keeps. Qed.

Lemma keeps_sub_Eip n : keeps_flags (sub_Eip n).
Proof. unfold sub_Eip. keeps. Qed.

Lemma keeps_GetCode8 i : keeps_flags (GetCode8 i).
Proof. unfold GetCode8. keeps. Qed.

Lemma keeps_GetSignCode8 i : keeps_flags (GetSignCode8 i).
Proof. unfold GetSignCode8. keeps. Qed.

#[local] Hint Resolve keeps_add_Eip keeps_sub_Eip keeps_GetCode8 keeps_GetSignCode8 : keeps.

Lemma keeps_GetCode32 i : keeps_flags (GetCode32 i).
Proof. unfold GetCode32. keeps. Qed.

#[local] Hint Resolve keeps_GetCode32 : keeps.

Lemma keeps_GetSignCode32 i : keeps_flags (GetSignCode32 i).
Proof. unfold GetSignCode32. keeps. Qed.

Lemma keeps_Registers_at i : keeps_flags (Registers_at i).
Proof. unfold Registers_at. keeps. Qed.

Lemma keeps_Registers_put i v : keeps_flags (Registers_put i v).
Proof. unfold Registers_put. keeps. Qed.

Lemma keeps_setMemory8 a v : keeps_flags (setMemory8 a v).
Proof. unfold setMemory8. keeps. Qed.

Lemma keeps_getMemory8 a : keeps_flags (getMemory8 a).
Proof. unfold getMemory8. keeps. Qed.

#[local] Hint Resolve keeps_GetSignCode32 keeps_Registers_at keeps_Registers_put
  keeps_setMemory8 keeps_getMemory8 : keeps.

Lemma keeps_setMemory32 a v : keeps_flags (setMemory32 a v).
Proof. unfold setMemory32. keeps. Qed.

Lemma keeps_getMemory32 a : keeps_flags (getMemory32 a).
Proof. unfold getMemory32. keeps. Qed.

Lemma keeps_getRegister8 i : keeps_flags (getRegister8 i).
Proof. unfold getRegister8. keeps. Qed.

Lemma keeps_setRegister8 i v : keeps_flags (setRegister8 i v).
Proof. unfold setRegister8. keeps. Qed.

Lemma keeps_ParseModrm : keeps_flags ParseModrm.
Proof. unfold ParseModrm. keeps. Qed.

Lemma keeps_calcMemoryAddress m : keeps_flags (calcMemoryAddress m).
Proof. unfold calcMemoryAddress, getRegister32. keeps. Qed.

#[local] Hint Resolve keeps_setMemory32 keeps_getMemory32 keeps_getRegister8
  keeps_setRegister8 keeps_ParseModrm keeps_calcMemoryAddress : keeps.

Lemma keeps_getRm32 m : keeps_flags (getRm32 m).
Proof. unfold getRm32, getRegister32. keeps. Qed.

Lemma keeps_setRm32 m v : keeps_flags (setRm32 m v).
Proof. unfold setRm32, setRegister32. keeps. Qed.

Lemma keeps_getRm8 m : keeps_flags (getRm8 m).
Proof. unfold getRm8. keeps. Qed.

Lemma keeps_setRm8 m v : keeps_flags (setRm8 m v).
Proof. unfold setRm8. keeps. Qed.

Lemma keeps_push32 v : keeps_flags (push32 v).
Proof. unfold push32, getRegister32, setRegister32. keeps. Qed.

Lemma keeps_pop32 : keeps_flags pop32.
Proof. unfold pop32, getRegister32, setRegister32. keeps. Qed.

Lemma keeps_jump_by diff len : keeps_flags (jump_by diff len).
Proof. unfold jump_by. keeps. Qed.

#[local] Hint Resolve keeps_getRm32 keeps_setRm32 keeps_getRm8 keeps_setRm8
  keeps_push32 keeps_pop32 keeps_jump_by : keeps.

Lemma keeps_jump_if c : keeps_flags c -> keeps_flags (jump_if c).
Proof. intros Hc. unfold jump_if. keeps. Qed.

Lemma keeps_isFlag mask : keeps_flags (let* e := get in ret (testFlag mask e)).
Proof. keeps. Qed.

#[local] Hint Resolve keeps_jump_if keeps_isFlag : keeps.

Section HandlersKeepFlags.

Lemma keeps_AddRm32R32 : keeps_flags AddRm32R32.
Proof. unfold AddRm32R32, getR32, getRegister32. keeps. Qed.

Lemma keeps_AddRm32Imm8 m : keeps_flags (AddRm32Imm8 m).
Proof. unfold AddRm32Imm8. keeps. Qed.

Lemma keeps_IncRm32 m : keeps_flags (IncRm32 m).
Proof. unfold IncRm32. keeps. Qed.

Lemma keeps_IncR32 : keeps_flags IncR32.
Proof. unfold IncR32, getRegister32, setRegister32. keeps. Qed.

Lemma keeps_CodeFF : keeps_flags CodeFF.
Proof. unfold CodeFF. pose proof keeps_IncRm32. keeps. Qed.

Lemma keeps_PushR32 : keeps_flags PushR32.
Proof. unfold PushR32, getRegister32. keeps. Qed.

Lemma keeps_popR32 : keeps_flags popR32.
Proof. unfold popR32, setRegister32. keeps. Qed.

Lemma keeps_PushImm32 : keeps_flags PushImm32.
Proof. unfold PushImm32. keeps. Qed.

Lemma keeps_PushImm8 : keeps_flags PushImm8.
Proof. unfold PushImm8. keeps. Qed.

Lemma keeps_conditional_jumps :
  keeps_flags Jo /\ keeps_flags Jno /\ keeps_flags Jc /\ keeps_flags Jnc
  /\ keeps_flags Jz /\ keeps_flags Jnz /\ keeps_flags Js /\ keeps_flags Jns
  /\ keeps_flags Jl /\ keeps_flags Jle.
Proof.
  unfold Jo, Jno, Jc, Jnc, Jz, Jnz, Js, Jns, Jl, Jle, notM,
    isOverFlow, isCarry, isZero, isSign.
  repeat split; apply keeps_jump_if; keeps.
Qed.

Lemma keeps_MovRm8R8 : keeps_flags MovRm8R8.
Proof. unfold MovRm8R8, getR8. keeps. Qed.

Lemma keeps_MovRm32R32 : keeps_flags MovRm32R32.
Proof. unfold MovRm32R32, getR32, getRegister32. keeps. Qed.

Lemma keeps_MovR32Rm32 : keeps_flags MovR32Rm32.
Proof. unfold MovR32Rm32, setR32, setRegister32. keeps. Qed.

Lemma keeps_MovR8Imm8 : keeps_flags MovR8Imm8.
Proof. unfold MovR8Imm8, setR8. keeps. Qed.

Lemma keeps_MovR32Imm32 : keeps_flags MovR32Imm32.
Proof. unfold MovR32Imm32. keeps. Qed.

Lemma keeps_Ret : keeps_flags Ret.
Proof. unfold Ret. keeps. Qed.

Lemma keeps_MovRm32Imm32 : keeps_flags MovRm32Imm32.
Proof. unfold MovRm32Imm32. keeps. Qed.

Lemma keeps_Leave : keeps_flags Leave.
Proof. unfold Leave, getRegister32, setRegister32. keeps. Qed.

Lemma keeps_IoOut8 a v : keeps_flags (IoOut8 a v).
Proof. unfold IoOut8. keeps. Qed.

Lemma keeps_putString str : keeps_flags (putString str).
Proof.
  induction str as [|b str IH]; simpl; [apply keeps_ret|].
  apply keeps_bind; [auto with keeps | intros _; exact IH].
Qed.

Lemma keeps_biosVideoTeletype : keeps_flags biosVideoTeletype.
Proof. unfold biosVideoTeletype. pose proof keeps_putString. keeps. Qed.

Lemma keeps_biosVideo : keeps_flags biosVideo.
Proof. unfold biosVideo. pose proof keeps_biosVideoTeletype. keeps. Qed.

Lemma keeps_Swi : keeps_flags Swi.
Proof. unfold Swi. pose proof keeps_biosVideo. keeps. Qed.

Lemma keeps_CallRel32 : keeps_flags CallRel32.
Proof. unfold CallRel32. keeps. Qed.

Lemma keeps_NearJump : keeps_flags NearJump.
Proof. unfold NearJump. keeps. Qed.

Lemma keeps_ShortJump : keeps_flags ShortJump.
Proof. unfold ShortJump. keeps. Qed.

Lemma keeps_OutDxAl : keeps_flags OutDxAl.
Proof. unfold OutDxAl, getRegister32. pose proof keeps_IoOut8. keeps. Qed.

Lemma keeps_unrecognized op :
  keeps_flags (Printf "\nNot Implemented: %x" [op] >> modify (set_Eip (fun _ => 0))).
Proof. keeps. Qed.

End HandlersKeepFlags.

Lemma yields_bind {A B : Type} (P : B -> Prop) (m : M A) (f : A -> M B) :
  (forall a, yields P (f a)) -> yields P (bind m f).
Proof.
  intros Hf e b e2 o H.
  apply bind_inv in H as (a & e1 & o1 & o2 & _ & H2 & _). exact (Hf _ _ _ _ _ H2).
Qed.

Lemma yields_ret {A : Type} (P : A -> Prop) (a : A) : P a -> yields P (ret a).
Proof. intros Ha e a' e' o [= <- _ _]. exact Ha. Qed.

Lemma ParseModrm_Reg (e : Emulator) (m : ModRM) (e' : Emulator) (o : stdout) :
  ParseModrm e = Ok m e' o ->
  exists code,
    index (Memory e) (u32 (Eip e + 0)) = Some code
    /\ Reg m = u8 (Z.shiftr (Z.land code 0x38) 3).
Proof.
  unfold ParseModrm. intros H.
  apply bind_inv in H as (code & e1 & o1 & o2 & H1 & H2 & _).
  apply GetCode8_inv in H1 as (Hcode & _ & _).
  exists code. split; [exact Hcode|].
  revert H2. generalize e1 m e' o2.
  change (yields (fun m0 => Reg m0 = u8 (Z.shiftr (Z.land code 0x38) 3))
            (add_Eip 1 >>
             let* sib :=
               (if negb (u8 (Z.shiftr (Z.land code 0xc0) 6) =? 3)
                   && (u8 (Z.land code 0x07) =? 4)
                then let* s := GetCode8 0 in add_Eip 1 >> ret (u8 s)
                else ret 0) in
             if ((u8 (Z.shiftr (Z.land code 0xc0) 6) =? 0) && (u8 (Z.land code 0x07) =? 5))
                || (u8 (Z.shiftr (Z.land code 0xc0) 6) =? 2)
             then
               let* d := GetSignCode32 0 in
               add_Eip 4 >>
               ret (mkModRM (u8 (Z.shiftr (Z.land code 0xc0) 6))
                      (u8 (Z.shiftr (Z.land code 0x38) 3)) (u8 (Z.land code 0x07))
                      sib 0 (u32 d))
             else if u8 (Z.shiftr (Z.land code 0xc0) 6) =? 1 then
               let* d := GetSignCode8 0 in
               add_Eip 1 >>
               ret (mkModRM (u8 (Z.shiftr (Z.land code 0xc0) 6))
                      (u8 (Z.shiftr (Z.land code 0x38) 3)) (u8 (Z.land code 0x07))
                      sib (i8 d) 0)
             else
               ret (mkModRM (u8 (Z.shiftr (Z.land code 0xc0) 6))
                      (u8 (Z.shiftr (Z.land code 0x38) 3)) (u8 (Z.land code 0x07))
                      sib 0 0))).
  apply yields_bind; intros _. apply yields_bind; intros sib.
  destruct (_ || _).
  - apply yields_bind; intros d. apply yields_bind; intros _.
    apply yields_ret. reflexivity.
  - destruct (_ =? 1).
    + apply yields_bind; intros d. apply yields_bind; intros _.
      apply yields_ret. reflexivity.
    + apply yields_ret. reflexivity.
Qed.

Lemma Code83_keeps_flags (e e' : Emulator) (out : stdout) :
  compare_or_subtract e 0x83 = false ->
  Code83 e = Ok tt e' out ->
  Eflags e' = Eflags e.
Proof.
  intros Hc H. unfold Code83 in H.
  apply bind_inv in H as ([] & e1 & o1 & o2 & H1 & H2 & _).
  injection H1 as <- _.
  apply bind_inv in H2 as (m & e2 & o3 & o4 & Hm & Hk & _).
  pose proof (keeps_ParseModrm _ _ _ _ Hm) as F2.
  change (Eflags e2 = Eflags e) in F2.
  destruct (ParseModrm_Reg _ _ _ _ Hm) as (code & Hcode & Hreg).
  change (index (Memory e) (u32 (u32 (Eip e + 1) + 0)) = Some code) in Hcode.
  rewrite Z.add_0_r in Hcode.
  replace (u32 (u32 (Eip e + 1))) with (u32 (Eip e + 1)) in Hcode
    by (unfold u32; rewrite Zmod_mod; reflexivity).
  change (compare_or_subtract e 0x83) with
    (match sub_opcode e with Some 5 | Some 7 => true | _ => false end) in Hc.
  unfold sub_opcode in Hc. rewrite Hcode, <- Hreg in Hc.
  destruct (Reg m) as [|p|p].
  - rewrite (keeps_AddRm32Imm8 _ _ _ _ _ Hk). exact F2.
  - do 3 (try destruct p as [p|p|]); solve [discriminate Hc | discriminate Hk].
  - discriminate Hk.
Qed.

(** C8: the 32-bit add, the add-immediate sub-operation of group 0x83,
    the increment-register instruction and the increment group leave the
    flags word exactly as it was, and so does every instruction other
    than the compare and subtract variants. *)
Theorem flags_frame (e e' : Emulator) (op : Z) (out : stdout) :
  executeOpCode op e = Ok tt e' out ->
  op = 0x01 \/ 0x40 <= op <= 0x47 \/ (op = 0x83 /\ sub_opcode e = Some 0)
  \/ op = 0xFF \/ compare_or_subtract e op = false ->
  Eflags e' = Eflags e.
Proof.
  intros H Hop.
  assert (Hc : compare_or_subtract e op = false).
  { destruct Hop as [-> | [Hr | [[-> Hs] | [-> | Hc]]]].
    - reflexivity.
    - assert (op = 0x40 \/ op = 0x41 \/ op = 0x42 \/ op = 0x43 \/ op = 0x44
              \/ op = 0x45 \/ op = 0x46 \/ op = 0x47)
        as [-> | [-> | [-> | [-> | [-> | [-> | [-> | ->]]]]]]] by lia; reflexivity.
    - change (compare_or_subtract e 0x83) with
        (match sub_opcode e with Some 5 | Some 7 => true | _ => false end).
      rewrite Hs. reflexivity.
    - reflexivity.
    - exact Hc. }
  clear Hop. revert H.
  destruct keeps_conditional_jumps as (? & ? & ? & ? & ? & ? & ? & ? & ? & ?).
  destruct op as [|p|p]; [apply keeps_unrecognized| |apply keeps_unrecognized].
  do 9 (try destruct p as [p|p|]);
    cbv beta iota delta [executeOpCode];
    first
      [ apply keeps_unrecognized
      | match goal with Hk : keeps_flags _ |- _ => apply Hk end
      | apply Code83_keeps_flags; exact Hc
      | cbv beta iota delta [compare_or_subtract] in Hc; discriminate Hc
      | apply keeps_AddRm32R32 | apply keeps_IncR32 | apply keeps_PushR32
      | apply keeps_popR32 | apply keeps_PushImm32 | apply keeps_PushImm8
      | apply keeps_MovRm8R8 | apply keeps_MovRm32R32 | apply keeps_MovR32Rm32
      | apply keeps_MovR8Imm8 | apply keeps_MovR32Imm32 | apply keeps_Ret
      | apply keeps_MovRm32Imm32 | apply keeps_Leave | apply keeps_Swi
      | apply keeps_CallRel32 | apply keeps_NearJump | apply keeps_ShortJump
      | apply keeps_OutDxAl | apply keeps_CodeFF ].
Qed.

(** ** The teletype service *)

Section Bytes.

Lemma forall_bytes (p : Z -> bool) :
  forallb p (map Z.of_nat (seq 0 256)) = true ->
  forall b, 0 <= b < 2^8 -> p b = true.
Proof.
  intros H b Hb. rewrite forallb_forall in H. apply H.
  apply in_map_iff. exists (Z.to_nat b). split; [lia|].
  apply in_seq. lia.
Qed.

Lemma low_byte r : u8 (Z.land r 0xFF) = r mod 2^8.
Proof.
  change 0xFF with (Z.ones 8). rewrite Z.land_ones by lia.
  unfold u8. apply Zmod_mod.
Qed.

Lemma high_byte r : u8 (Z.land (Z.shiftr r 8) 0xFF) = (r / 2^8) mod 2^8.
Proof. rewrite low_byte, Z.shiftr_div_pow2 by lia. reflexivity. Qed.

(** The colour arithmetic of [biosVideoTeletype] on a byte [bl]. *)
Lemma color_bits bl :
  0 <= bl < 2^8 ->
  Z.land (Z.land bl 0x0F) 0x07 = bl mod 8
  /\ Z.shiftr (Z.land (Z.land bl 0x0F) 0x08) 3 = Z.b2z (Z.testbit bl 3).
Proof.
  intros Hb.
  pose proof (forall_bytes
    (fun b => (Z.land (Z.land b 0x0F) 0x07 =? b mod 8)
              && (Z.shiftr (Z.land (Z.land b 0x0F) 0x08) 3 =? Z.b2z (Z.testbit b 3)))
    ltac:(vm_compute; reflexivity) bl Hb) as H.
  apply andb_true_iff in H as [H1 H2].
  apply Z.eqb_eq in H1, H2. auto.
Qed.

End Bytes.

Lemma putString_spec (str : list Z) (e : Emulator) :
  putString str e = Ok tt e (sink str).
Proof.
  induction str as [|b str IH]; [reflexivity|].
  change (putString (b :: str) e) with (bind (IoOut8 0x03F8 b) (fun _ => putString str) e).
  rewrite (bind_Ok _ _ e tt e [("%c\n"%string, [b])] eq_refl).
  rewrite IH. reflexivity.
Qed.

Section ByteRegisters.

Variable e : Emulator.

Lemma getRegister8_low i r :
  0 <= i < 4 -> register e i = Some r ->
  getRegister8 i e = Ok (r mod 2^8) e [].
Proof.
  intros Hi Hr. unfold getRegister8.
  destruct (Z.ltb_spec i 4); [|lia].
  rewrite (bind_Ok_nil _ _ _ _ _ (Registers_at_spec e i r ltac:(lia) Hr)).
  rewrite low_byte. reflexivity.
Qed.

Lemma getRegister8_high i r :
  4 <= i < 8 -> register e (i - 4) = Some r ->
  getRegister8 i e = Ok ((r / 2^8) mod 2^8) e [].
Proof.
  intros Hi Hr. unfold getRegister8.
  destruct (Z.ltb_spec i 4); [lia|].
  rewrite (u8_small (i - 4)) by lia.
  rewrite (bind_Ok_nil _ _ _ _ _ (Registers_at_spec e (i - 4) r ltac:(lia) Hr)).
  rewrite high_byte. reflexivity.
Qed.

End ByteRegisters.

Lemma biosVideoTeletype_spec (e : Emulator) (eax ebx : Z) :
  register e CEax = Some eax ->
  register e CEbx = Some ebx ->
  exists color,
    biosToTerminal !! Z.to_nat ((ebx mod 2^8) mod 8) = Some color
    /\ biosVideoTeletype e
       = Ok tt e (sink (teletype_string (Z.b2z (Z.testbit (ebx mod 2^8) 3)) color
                                        (eax mod 2^8))).
Proof.
  intros Ha Hb.
  assert (Rb : 0 <= ebx mod 2^8 < 2^8) by (apply Z.mod_pos_bound; lia).
  destruct (color_bits _ Rb) as [Hidx Hbright].
  assert (Rk : 0 <= (ebx mod 2^8) mod 8 < 8) by (apply Z.mod_pos_bound; lia).
  assert (Hcol : exists color,
             biosToTerminal !! Z.to_nat ((ebx mod 2^8) mod 8) = Some color).
  { apply lookup_lt_is_Some. simpl. lia. }
  destruct Hcol as [color Hcol]. exists color. split; [exact Hcol|].
  unfold biosVideoTeletype.
  rewrite (bind_Ok_nil _ _ _ _ _ (getRegister8_low e CBl ebx ltac:(unfold CBl, CEbx; lia) Hb)).
  rewrite (bind_Ok_nil _ _ _ _ _ (getRegister8_low e CAl eax ltac:(unfold CAl, CEax; lia) Ha)).
  rewrite Hidx, Hbright.
  assert (Hload : index biosToTerminal ((ebx mod 2^8) mod 8) = Some color)
    by (apply index_Some; split; [lia | exact Hcol]).
  unfold bind at 1. rewrite Hload. simpl load. unfold ret at 1. rewrite prepend_nil.
  apply putString_spec.
Qed.

(** C9: interrupt 0x10 with AH = 0x0E hands the display sink the
    character in AL, drawn with the colour that the low three bits of BL
    select in the table and with bit 3 of BL as brightness; for
    AL = 0x41 and BL = 0x0C that is the character 'A', red, bright. *)
Theorem teletype_sink (e : Emulator) (eax ebx : Z) :
  wf e ->
  index (Memory e) (u32 (Eip e + 1)) = Some 0x10 ->
  register e CEax = Some eax ->
  register e CEbx = Some ebx ->
  (eax / 2^8) mod 2^8 = 0x0e ->
  exists color,
    biosToTerminal !! Z.to_nat ((ebx mod 2^8) mod 8) = Some color
    /\ executeOpCode 0xCD e
       = Ok tt (set_Eip (fun p => u32 (p + 2)) e)
           (sink (teletype_string (Z.b2z (Z.testbit (ebx mod 2^8) 3)) color
                                  (eax mod 2^8)))
    /\ (eax mod 2^8 = 0x41 -> ebx mod 2^8 = 0x0C ->
        color = ansi_red
        /\ Z.b2z (Z.testbit (ebx mod 2^8) 3) = 1
        /\ executeOpCode 0xCD e
           = Ok tt (set_Eip (fun p => u32 (p + 2)) e)
               (sink ([0x1b] ++ bytes "[1;31mA" ++ [0x1b] ++ bytes "[0m]"))).
Proof.
  intros Hwf Hvec Ha Hb Hah.
  set (e1 := set_Eip (fun p => u32 (p + 2)) e).
  destruct (biosVideoTeletype_spec e1 eax ebx Ha Hb) as (color & Hcol & Htty).
  assert (Hswi : executeOpCode 0xCD e
                 = Ok tt e1 (sink (teletype_string (Z.b2z (Z.testbit (ebx mod 2^8) 3))
                                     color (eax mod 2^8)))).
  { change (executeOpCode 0xCD) with Swi. unfold Swi.
    rewrite (bind_Ok_nil _ _ _ _ _ (GetCode8_spec e _ _ Hvec)).
    rewrite (bind_Ok_nil (add_Eip 2) _ e tt e1 eq_refl).
    unfold biosVideo.
    rewrite (bind_Ok_nil _ _ _ _ _
               (getRegister8_high e1 CAh eax ltac:(unfold CAh, CEax; lia) Ha)).
    rewrite Hah. exact Htty. }
  exists color. split; [exact Hcol|]. split; [exact Hswi|].
  intros Hal Hbl. rewrite Hbl in Hcol. injection Hcol as <-.
  split; [reflexivity|]. split; [rewrite Hbl; reflexivity|].
  rewrite Hswi, Hal, Hbl. reflexivity.
Qed.


(** ** The flag engine *)

Section FlagBits.

Lemma test_mask_bit (f k : Z) :
  0 <= k -> negb (Z.land f (2^k) =? 0) = Z.testbit f k.
Proof.
  intros Hk. destruct (Z.testbit f k) eqn:E.
  - destruct (Z.eqb_spec (Z.land f (2^k)) 0) as [H0|]; [|reflexivity].
    assert (T : Z.testbit (Z.land f (2^k)) k = true)
      by (rewrite Z.land_spec, E, Z.pow2_bits_true by lia; reflexivity).
    rewrite H0, Z.bits_0 in T. discriminate T.
  - replace (Z.land f (2^k)) with 0; [reflexivity|].
    symmetry. apply Z.bits_inj'. intros n Hn.
    rewrite Z.land_spec, Z.bits_0, Z.pow2_bits_eqb by lia.
    destruct (Z.eqb_spec k n) as [<-|]; [rewrite E|]; auto using andb_false_r.
Qed.

Lemma put_flag_bits (k f n : Z) (v : bool) :
  0 <= k < 32 -> 0 <= n < 32 ->
  Z.testbit (put_flag (2^k) v f) n = if k =? n then v else Z.testbit f n.
Proof.
  intros Hk Hn. unfold put_flag. destruct v.
  - rewrite Z.lor_spec, Z.pow2_bits_eqb by lia.
    destruct (k =? n); auto using orb_true_r, orb_false_r.
  - rewrite Z.land_spec, u32_bits, Z.lnot_spec, Z.pow2_bits_eqb by lia.
    destruct (Z.ltb_spec n 32); [|lia].
    destruct (k =? n); simpl; auto using andb_true_r, andb_false_r.
Qed.

Lemma setFlag_spec (mask : Z) (v : bool) (e : Emulator) :
  setFlag mask v e = Ok tt (set_Eflags (put_flag mask v) e) [].
Proof. unfold setFlag, put_flag. destruct v; reflexivity. Qed.

Lemma b2z_eqb (x y : bool) : (Z.b2z x =? Z.b2z y) = Bool.eqb x y.
Proof. destruct x, y; reflexivity. Qed.

Lemma top_bit (a : Z) : 0 <= a < 2^32 -> Z.shiftr a 31 = Z.b2z (Z.testbit a 31).
Proof.
  intros Ha. rewrite Z.testbit_spec', Z.shiftr_div_pow2 by lia.
  Z.div_mod_to_equations. lia.
Qed.

Lemma result_bit (a b : Z) :
  Z.land (Z.shiftr (u64 (a - b)) 31) 0x01 = Z.b2z (Z.testbit (u32 (a - b)) 31).
Proof.
  rewrite Z.testbit_spec', Z.shiftr_div_pow2 by lia.
  change 0x01 with (Z.ones 1). rewrite Z.land_ones by lia.
  unfold u64, u32. change (2^1) with 2. Z.div_mod_to_equations. lia.
Qed.

Lemma borrow_bit (a b : Z) :
  0 <= a < 2^32 -> 0 <= b < 2^32 ->
  negb (Z.shiftr (u64 (a - b)) 32 =? 0) = (a <? b).
Proof.
  intros Ha Hb. rewrite Z.shiftr_div_pow2 by lia. unfold u64.
  destruct (Z.ltb_spec a b); destruct (Z.eqb_spec ((a - b) mod 2^64 / 2^32) 0);
    try reflexivity; exfalso; Z.div_mod_to_equations; lia.
Qed.

Lemma zero_result (a b : Z) :
  0 <= a < 2^32 -> 0 <= b < 2^32 -> (u64 (a - b) =? 0) = (a =? b).
Proof.
  intros Ha Hb. unfold u64.
  destruct (Z.eqb_spec a b); destruct (Z.eqb_spec ((a - b) mod 2^64) 0);
    try reflexivity; exfalso; Z.div_mod_to_equations; lia.
Qed.

End FlagBits.

(** [updateEflagsSub] follows the rule when it is handed the 64-bit
    difference of its two operands. *)
Lemma updateEflagsSub_rule (e : Emulator) (a b : Z) :
  0 <= a < 2^32 -> 0 <= b < 2^32 ->
  exists e',
    updateEflagsSub a b (u64 (a - b)) e = Ok tt e' []
    /\ Registers e' = Registers e /\ Memory e' = Memory e /\ Eip e' = Eip e
    /\ sub_flags a b e'.
Proof.
  intros Ha Hb. unfold updateEflagsSub, setCarry, setZero, setSign, setOverFlow.
  rewrite (bind_Ok_nil _ _ _ _ _ (setFlag_spec _ _ _)).
  rewrite (bind_Ok_nil _ _ _ _ _ (setFlag_spec _ _ _)).
  rewrite (bind_Ok_nil _ _ _ _ _ (setFlag_spec _ _ _)).
  rewrite setFlag_spec. unfold sub_flags.
  rewrite borrow_bit, zero_result, result_bit, !top_bit by assumption.
  generalize (Z.testbit (u32 (a - b)) 31) (Z.testbit a 31) (Z.testbit b 31).
  intros sr sa sb.
  rewrite (u32_small (Z.b2z sr)) by (destruct sr; simpl; lia).
  rewrite !b2z_eqb.
  replace (Z.b2z sr =? 1) with sr by (destruct sr; reflexivity).
  eexists. split; [reflexivity|]. split; [reflexivity|]. split; [reflexivity|].
  split; [reflexivity|].
  unfold testFlag.
  change CarryFlag with (2^0). change ZeroFlag with (2^6).
  change SignFlag with (2^7). change OverFlowFlag with (2^11).
  rewrite !test_mask_bit by lia.
  cbv beta iota delta [Eflags set_Eflags].
  rewrite !put_flag_bits by lia.
  cbv beta iota delta [Z.eqb Pos.eqb].
  auto.
Qed.

Lemma sub_flags_set_Eip (a b : Z) (f : Z -> Z) (e : Emulator) :
  sub_flags a b e -> sub_flags a b (set_Eip f e).
Proof. intros H. exact H. Qed.

(** The compare paths hand [updateEflagsSub] the difference of the
    operands they pass, so they follow the rule. *)
Lemma CmpEaxImm32_flags (e : Emulator) (a b : Z) :
  wf e ->
  register e CEax = Some a ->
  GetCode32 1 e = Ok b e [] ->
  exists e', CmpEaxImm32 e = Ok tt e' [] /\ sub_flags a b e'.
Proof.
  intros Hwf Ha Hb. unfold CmpEaxImm32, getRegister32.
  destruct (GetCode32_inv _ _ _ _ _ Hb) as (Rb & _ & _).
  pose proof (wf_register e Hwf _ _ Ha) as Ra.
  rewrite (bind_Ok_nil _ _ _ _ _ Hb).
  rewrite (bind_Ok_nil _ _ _ _ _
             (Registers_at_spec e CEax a ltac:(unfold CEax; lia) Ha)).
  destruct (updateEflagsSub_rule e a b Ra Rb) as (e1 & H1 & _ & _ & _ & F).
  rewrite (bind_Ok_nil _ _ _ _ _ H1).
  eexists. split; [reflexivity|]. apply sub_flags_set_Eip. exact F.
Qed.

Lemma CmpAlImm8_flags (e : Emulator) (eax b : Z) :
  wf e ->
  register e CEax = Some eax ->
  index (Memory e) (u32 (Eip e + 1)) = Some b ->
  exists e', CmpAlImm8 e = Ok tt e' [] /\ sub_flags (eax mod 2^8) b e'.
Proof.
  intros Hwf Ha Hb. unfold CmpAlImm8.
  pose proof (wf_byte e Hwf _ _ Hb) as Rb.
  assert (Ra : 0 <= eax mod 2^8 < 2^8) by (apply Z.mod_pos_bound; lia).
  rewrite (bind_Ok_nil _ _ _ _ _ (GetCode8_spec e _ _ Hb)).
  rewrite (bind_Ok_nil _ _ _ _ _
             (getRegister8_low e CAl eax ltac:(unfold CAl, CEax; lia) Ha)).
  destruct (updateEflagsSub_rule e (eax mod 2^8) b ltac:(lia) ltac:(lia))
    as (e1 & H1 & _ & _ & _ & F).
  rewrite (bind_Ok_nil _ _ _ _ _ H1).
  eexists. split; [reflexivity|]. apply sub_flags_set_Eip. exact F.
Qed.

Lemma CmpRm32Imm8_flags (e : Emulator) (m : ModRM) (a d : Z) :
  wf e ->
  getRm32 m e = Ok a e [] -> 0 <= a < 2^32 ->
  index (Memory e) (u32 (Eip e + 0)) = Some d ->
  exists e', CmpRm32Imm8 m e = Ok tt e' [] /\ sub_flags a (u32 (signed8 d)) e'.
Proof.
  intros Hwf Ha Ra Hd. unfold CmpRm32Imm8.
  rewrite (bind_Ok_nil _ _ _ _ _ Ha).
  rewrite (bind_Ok_nil _ _ _ _ _ (GetSignCode8_spec e Hwf _ _ Hd)).
  rewrite (bind_Ok_nil (add_Eip 1) _ e tt _ eq_refl).
  destruct (updateEflagsSub_rule (set_Eip (fun p => u32 (p + 1)) e) a (u32 (signed8 d))
              Ra (u32_range _)) as (e1 & H1 & _ & _ & _ & F).
  exists e1. split; assumption.
Qed.

(** The subtract path follows the rule for the immediates 0x00..0x7F,
    where sign extension to 64 bits changes nothing. *)
Lemma SubRm32Imm8_flags_nonneg (e e1 : Emulator) (m : ModRM) (a d : Z) :
  wf e ->
  getRm32 m e = Ok a e [] -> 0 <= a < 2^32 ->
  index (Memory e) (u32 (Eip e + 0)) = Some d -> d < 2^7 ->
  setRm32 m (u32 (a - d)) (set_Eip (fun p => u32 (p + 1)) e) = Ok tt e1 [] ->
  exists e', SubRm32Imm8 m e = Ok tt e' [] /\ sub_flags a d e'.
Proof.
  intros Hwf Ha Ra Hd Hpos Hset. unfold SubRm32Imm8.
  pose proof (wf_byte e Hwf _ _ Hd) as Rd.
  rewrite (bind_Ok_nil _ _ _ _ _ Ha).
  rewrite (bind_Ok_nil _ _ _ _ _ (GetSignCode8_spec e Hwf _ _ Hd)).
  rewrite (bind_Ok_nil (add_Eip 1) _ e tt _ eq_refl).
  assert (Es : signed8 d = d) by (unfold signed8; destruct (Z.ltb_spec d (2^7)); lia).
  rewrite Es. rewrite (u32_small d) by lia.
  replace (u64 d) with d by (unfold u64; rewrite Z.mod_small; lia).
  replace (u32 (u64 (a - d))) with (u32 (a - d))
    by (unfold u32, u64; Z.div_mod_to_equations; lia).
  rewrite (bind_Ok_nil _ _ _ _ _ Hset).
  destruct (updateEflagsSub_rule e1 a d Ra ltac:(lia)) as (e2 & H2 & _ & _ & _ & F).
  exists e2. split; assumption.
Qed.

Lemma CmpR32Rm32_flags (e e2 : Emulator) (m : ModRM) (a b : Z) :
  ParseModrm (set_Eip (fun p => u32 (p + 1)) e) = Ok m e2 [] ->
  getR32 m e2 = Ok a e2 [] -> 0 <= a < 2^32 ->
  getRm32 m e2 = Ok b e2 [] -> 0 <= b < 2^32 ->
  exists e', CmpR32Rm32 e = Ok tt e' [] /\ sub_flags a b e'.
Proof.
  intros Hm Ha Ra Hb Rb. unfold CmpR32Rm32.
  rewrite (bind_Ok_nil (add_Eip 1) _ e tt _ eq_refl).
  rewrite (bind_Ok_nil _ _ _ _ _ Hm).
  rewrite (bind_Ok_nil _ _ _ _ _ Ha).
  rewrite (bind_Ok_nil _ _ _ _ _ Hb).
  destruct (updateEflagsSub_rule e2 a b Ra Rb) as (e3 & H3 & _ & _ & _ & F).
  exists e3. split; assumption.
Qed.

(** ** Subtract with a negative immediate (C1) *)

(** C1 at a failing input: [sub eax, -1] with EAX = 5 subtracts
    b = 0xFFFFFFFF from a = 5.  a < b unsigned, yet the carry flag stays
    clear; [cmp eax, -1] on the same operands sets it.  With
    a = b = 0xFFFFFFFF the subtract leaves zero clear and sets carry. *)
Theorem sub_imm8_negative_flags :
  (exists e',
      executeOpCode 0x83 sub_minus_one = Ok tt e' []
      /\ register e' CEax = Some 6
      /\ testFlag CarryFlag e' = false
      /\ (5 <? u32 (signed8 0xFF)) = true
      /\ ~ sub_flags 5 (u32 (signed8 0xFF)) e')
  /\ (exists e',
        executeOpCode 0x83 cmp_minus_one = Ok tt e' []
        /\ testFlag CarryFlag e' = true)
  /\ (exists e',
        executeOpCode 0x83
          (boot 16 [0xFFFFFFFF; 0; 0; 0; 16; 0; 0; 0] [0x83; 0xE8; 0xFF])
        = Ok tt e' []
        /\ testFlag ZeroFlag e' = false
        /\ testFlag CarryFlag e' = true
        /\ (0xFFFFFFFF =? u32 (signed8 0xFF)) = true).
Proof.
  split; [|split].
  - eexists. split; [vm_compute; reflexivity|].
    split; [reflexivity|]. split; [reflexivity|]. split; [reflexivity|].
    intros (Hc & _). vm_compute in Hc. discriminate Hc.
  - eexists. split; vm_compute; reflexivity.
  - eexists. split; [vm_compute; reflexivity|]. repeat split.
Qed.

(** ** Displacement -128 (C2) *)

Lemma calcMemoryAddress_disp8 (e : Emulator) (m : ModRM) (r : Z) :
  Mod m = 1 -> Rm m <> 4 -> 0 <= Rm m < 8 ->
  register e (Rm m) = Some r ->
  - 2^7 <= Disp8 m < 2^7 ->
  calcMemoryAddress m e
  = Ok (if Disp8 m =? - 2^7 then u32 (r + 2^7) else u32 (r + Disp8 m)) e [].
Proof.
  intros Hmod Hrm Rrm Hr Hd. unfold calcMemoryAddress, getRegister32.
  rewrite Hmod. simpl (1 =? 0). simpl (1 =? 1). cbv iota.
  destruct (Z.eqb_spec (Rm m) 4); [contradiction|].
  destruct (Z.ltb_spec 0 (Disp8 m));
    rewrite (bind_Ok_nil _ _ _ _ _ (Registers_at_spec e (Rm m) r Rrm Hr)).
  - destruct (Z.eqb_spec (Disp8 m) (- 2^7)); [lia|].
    unfold ret. f_equal. unfold u32. Z.div_mod_to_equations. lia.
  - destruct (Z.eqb_spec (Disp8 m) (- 2^7)) as [E|E]; unfold ret; f_equal.
    + rewrite E. unfold u32, i8. Z.div_mod_to_equations. lia.
    + unfold u32, i8. Z.div_mod_to_equations. lia.
Qed.

(** C2 at the failing input: mode 1, base register EAX = 1000,
    displacement byte 0x80.  The spec gives 1000 - 128 = 872; the
    negation of the [int8] -128 wraps and the code returns 1128. *)
Theorem disp8_0x80_is_added :
  (let* m := ParseModrm in calcMemoryAddress m) disp8_minus_128
  = Ok 1128 (set_Eip (fun p => p + 2) disp8_minus_128) []
  /\ u32 (1000 + signed8 0x80) = 872.
Proof. split; vm_compute; reflexivity. Qed.

(** ** Opcode 0x8A (C3) *)

(** C3 at a failing input: [mov al, cl].  The dispatch sends 0x8A to the
    32-bit store of 0x89, so ECX receives all of EAX and AL keeps its
    value; [MovR8Rm8], which no opcode reaches, copies CL into AL.
    Opcode 0x88 does reach the byte store: [mov cl, al] changes only the
    low byte of ECX. *)
Theorem opcode_8A_runs_32bit_store :
  executeOpCode 0x8A = executeOpCode 0x89
  /\ (exists e',
        executeOpCode 0x8A mov_al_cl = Ok tt e' []
        /\ Registers e' = [0x11223344; 0x11223344; 0; 0; 16; 0; 0; 0])
  /\ (exists e',
        MovR8Rm8 mov_al_cl = Ok tt e' []
        /\ Registers e' = [0x11223388; 0x55667788; 0; 0; 16; 0; 0; 0])
  /\ executeOpCode 0x88 = MovRm8R8
  /\ (exists e',
        executeOpCode 0x88 mov_cl_al = Ok tt e' []
        /\ Registers e' = [0x11223344; 0x55667744; 0; 0; 16; 0; 0; 0]).
Proof.
  split; [reflexivity|].
  split; [eexists; split; vm_compute; reflexivity|].
  split; [eexists; split; vm_compute; reflexivity|].
  split; [reflexivity|].
  eexists; split; vm_compute; reflexivity.
Qed.

(** * Instances *)

Lemma sign_extended_reads_witness :
  wf extreme_fields
  /\ index (Memory extreme_fields) (u32 (Eip extreme_fields + 0)) = Some 0x80
  /\ GetCode32 1 extreme_fields = Ok 0x80000000 extreme_fields []
  /\ GetSignCode8 0 extreme_fields = Ok (- 128) extreme_fields []
  /\ GetSignCode32 1 extreme_fields = Ok (- 2147483648) extreme_fields [].
Proof.
  assert (Hwf : wf extreme_fields) by (vm_compute; reflexivity).
  assert (Hb : index (Memory extreme_fields) (u32 (Eip extreme_fields + 0)) = Some 0x80)
    by (vm_compute; reflexivity).
  assert (Hw : GetCode32 1 extreme_fields = Ok 0x80000000 extreme_fields [])
    by (vm_compute; reflexivity).
  destruct (sign_extended_reads extreme_fields 0 1 0x80 0x80000000 Hwf Hb Hw)
    as [(z8 & H8 & _ & _ & U8) (z32 & H32 & _ & _ & U32)].
  split; [exact Hwf|]. split; [exact Hb|]. split; [exact Hw|]. split.
  - rewrite (U8 (- 128)); [exact H8 | lia | reflexivity].
  - rewrite (U32 (- 2147483648)); [exact H32 | lia | reflexivity].
Defined.

Lemma short_jump_target_witness :
  wf jmp_short_5
  /\ index (Memory jmp_short_5) (u32 (Eip jmp_short_5 + 1)) = Some 0x05
  /\ executeOpCode 0xEB jmp_short_5 = Ok tt (set_Eip (fun _ => 0x7c07) jmp_short_5) [].
Proof.
  assert (Hwf : wf jmp_short_5) by (vm_compute; reflexivity).
  assert (Hd : index (Memory jmp_short_5) (u32 (Eip jmp_short_5 + 1)) = Some 0x05)
    by (vm_compute; reflexivity).
  split; [exact Hwf|]. split; [exact Hd|].
  destruct (short_jump_target jmp_short_5 0x05 Hwf Hd) as (_ & H5 & _).
  apply H5; reflexivity.
Defined.

(** The other figure of the jump example: displacement 0xFE is a jump to
    itself. *)
Example short_jump_to_self :
  Eip <$> result_state
            (step true (boot 0x7c00 [0; 0; 0; 0; 0x7c00; 0; 0; 0] [0xEB; 0xFE]))
  = Some 0x7c00.
Proof. vm_compute. reflexivity. Qed.

Lemma unrecognized_opcode_halts_witness :
  wf mov_then_unknown
  /\ recognized 0xF4 = false
  /\ exists e' out,
      Run 2 true mov_then_unknown = Ok Halted e' out
      /\ register e' CEax = Some 0x12345678
      /\ Eip e' = 0.
Proof.
  assert (Hwf : wf mov_then_unknown) by (vm_compute; reflexivity).
  assert (Hop : recognized 0xF4 = false) by reflexivity.
  split; [exact Hwf|]. split; [exact Hop|].
  destruct (unrecognized_opcode_halts mov_then_unknown 0xF4 true 0 Hwf Hop)
    as (_ & _ & Hrun).
  destruct Hrun as (e' & out & Hr & Hreg & Hip & _).
  - cbv [code_at].
    repeat (split; [vm_compute; reflexivity|]). exact I.
  - vm_compute. reflexivity.
  - exists e', out. auto.
Defined.

Lemma push_imm8_then_pop_witness :
  wf push_pop_eax
  /\ index (Memory push_pop_eax) (Eip push_pop_eax) = Some 0x6A
  /\ index (Memory push_pop_eax) (u32 (Eip push_pop_eax + 1)) = Some 0x2A
  /\ register push_pop_eax CEsp = Some 16
  /\ exists e1 e2,
      step true push_pop_eax = Ok tt e1 []
      /\ step true e1 = Ok tt e2 []
      /\ register e2 CEax = Some 0x2A
      /\ register e2 CEsp = Some 16.
Proof.
  assert (Hwf : wf push_pop_eax) by (vm_compute; reflexivity).
  assert (Hop : index (Memory push_pop_eax) (Eip push_pop_eax) = Some 0x6A)
    by (vm_compute; reflexivity).
  assert (Hv : index (Memory push_pop_eax) (u32 (Eip push_pop_eax + 1)) = Some 0x2A)
    by (vm_compute; reflexivity).
  assert (Hsp : register push_pop_eax CEsp = Some 16) by (vm_compute; reflexivity).
  assert (Hslot : 4 <= 16 <= Z.of_nat (length (Memory push_pop_eax)))
    by (vm_compute; split; discriminate).
  assert (Hr : 0 <= CEax < 8) by (vm_compute; split; [discriminate | reflexivity]).
  assert (Hne : CEax <> CEsp) by discriminate.
  repeat (split; [assumption|]).
  destruct (push_imm8_then_pop push_pop_eax 0x2A 16 CEax Hwf Hop Hv Hsp Hslot Hr Hne)
    as (e1 & H1 & H2).
  destruct H2 as (e2 & H2 & Hreg & Hsp2).
  - pose proof H1 as H1'. vm_compute in H1'. injection H1' as <-.
    vm_compute. reflexivity.
  - exists e1, e2. auto.
Defined.

(** C7 as stated fails when the destination is the stack pointer:
    after [push 0x2A; pop esp] the stack pointer holds the popped 0x2A,
    not its value 16 from before the push. *)
Lemma pop_into_esp_keeps_popped_value :
  wf push_pop_esp
  /\ index (Memory push_pop_esp) (Eip push_pop_esp) = Some 0x6A
  /\ index (Memory push_pop_esp) (u32 (Eip push_pop_esp + 1)) = Some 0x2A
  /\ register push_pop_esp CEsp = Some 16
  /\ 4 <= 16 <= Z.of_nat (length (Memory push_pop_esp))
  /\ exists e1 e2,
      step true push_pop_esp = Ok tt e1 []
      /\ index (Memory e1) (Eip e1) = Some (0x58 + CEsp)
      /\ step true e1 = Ok tt e2 []
      /\ register e2 CEsp = Some 0x2A
      /\ register e2 CEsp <> Some 16.
Proof.
  split; [vm_compute; reflexivity|].
  split; [vm_compute; reflexivity|].
  split; [vm_compute; reflexivity|].
  split; [vm_compute; reflexivity|].
  split; [vm_compute; split; discriminate|].
  do 2 eexists.
  split; [vm_compute; reflexivity|].
  split; [vm_compute; reflexivity|].
  split; [vm_compute; reflexivity|].
  split; [vm_compute; reflexivity|].
  vm_compute. discriminate.
Qed.

Lemma flags_frame_witness :
  exists e',
    executeOpCode 0x40 inc_eax_flags_set = Ok tt e' []
    /\ register e' CEax = Some 8
    /\ Eflags e' = 0x8C1.
Proof.
  set (e' := set_Eip (fun p => u32 (p + 1))
               (set_Registers (fun r => <[Z.to_nat CEax := 8]> r) inc_eax_flags_set)).
  assert (Hex : executeOpCode 0x40 inc_eax_flags_set = Ok tt e' [])
    by (vm_compute; reflexivity).
  exists e'. split; [exact Hex|]. split; [reflexivity|].
  assert (Hop : 0x40 = 0x01 \/ 0x40 <= 0x40 <= 0x47
                \/ (0x40 = 0x83 /\ sub_opcode inc_eax_flags_set = Some 0)
                \/ 0x40 = 0xFF \/ compare_or_subtract inc_eax_flags_set 0x40 = false)
    by (right; left; split; discriminate).
  rewrite (flags_frame inc_eax_flags_set e' 0x40 [] Hex Hop).
  reflexivity.
Defined.

Lemma teletype_sink_witness :
  wf teletype_A
  /\ index (Memory teletype_A) (u32 (Eip teletype_A + 1)) = Some 0x10
  /\ register teletype_A CEax = Some 0x0E41
  /\ register teletype_A CEbx = Some 0x0C
  /\ executeOpCode 0xCD teletype_A
     = Ok tt (set_Eip (fun p => u32 (p + 2)) teletype_A)
         (sink ([0x1b] ++ bytes "[1;31mA" ++ [0x1b] ++ bytes "[0m]")).
Proof.
  assert (Hwf : wf teletype_A) by (vm_compute; reflexivity).
  assert (Hvec : index (Memory teletype_A) (u32 (Eip teletype_A + 1)) = Some 0x10)
    by (vm_compute; reflexivity).
  assert (Ha : register teletype_A CEax = Some 0x0E41) by reflexivity.
  assert (Hb : register teletype_A CEbx = Some 0x0C) by reflexivity.
  repeat (split; [assumption|]).
  destruct (teletype_sink teletype_A 0x0E41 0x0C Hwf Hvec Ha Hb eq_refl)
    as (color & _ & _ & HA).
  apply HA; reflexivity.
Defined.

Lemma push_esp_stores_old_value_witness :
  wf push_esp
  /\ index (Memory push_esp) (Eip push_esp) = Some (0x50 + CEsp)
  /\ register push_esp CEsp = Some 16
  /\ exists e',
      executeOpCode (0x50 + CEsp) push_esp = Ok tt e' []
      /\ getMemory32 (16 - 4) e' = Ok 16 e' []
      /\ register e' CEsp = Some (16 - 4)
      /\ Eip e' = u32 (Eip push_esp + 1).
Proof.
  assert (Hwf : wf push_esp) by (vm_compute; reflexivity).
  assert (Hop : index (Memory push_esp) (Eip push_esp) = Some (0x50 + CEsp))
    by (vm_compute; reflexivity).
  assert (Hsp : register push_esp CEsp = Some 16) by reflexivity.
  assert (Hslot : 4 <= 16 <= Z.of_nat (length (Memory push_esp)))
    by (vm_compute; split; discriminate).
  repeat (split; [assumption|]).
  exact (push_esp_stores_old_value push_esp 16 Hwf Hop Hsp Hslot).
Defined.

(** The spec's end-to-end figure: [push 0x2A; pop eax] at the boot
    address 0x7c00. *)
Example push_pop_at_boot_address :
  (fun e' => (register e' CEax, register e' CEsp))
    <$> result_state
          (Run 2 true (boot 0x7c00 [0; 0; 0; 0; 0x7c00; 0; 0; 0] [0x6A; 0x2A; 0x58]))
  = Some (Some 0x2A, Some 0x7c00).
Proof. vm_compute. reflexivity. Qed.

(** * Further properties of the code *)

(** ** Memory layout *)

Lemma byte_at_div (k v : Z) :
  0 <= k -> byte_at k v = (v / 2^k) mod 2^8.
Proof.
  intros Hk. unfold byte_at, u8. change 0xFF with (Z.ones 8).
  rewrite !Z.land_ones, Z.shiftr_div_pow2 by lia.
  rewrite !Zmod_mod. reflexivity.
Qed.

(** X1: a 32-bit store followed by a 32-bit load at the same address
    returns the value; the store lays the value out least significant
    byte first, touches no other address and nothing but memory. *)
Theorem memory32_round_trip (e : Emulator) (a v : Z) :
  0 <= a -> a + 3 < Z.of_nat (length (Memory e)) -> a + 3 < 2^32 ->
  0 <= v < 2^32 ->
  exists e',
    setMemory32 a v e = Ok tt e' []
    /\ getMemory32 a e' = Ok v e' []
    /\ (forall k, 0 <= k < 4 ->
        index (Memory e') (a + k) = Some ((v / 2^(8 * k)) mod 2^8))
    /\ (forall j, ~ (a <= j < a + 4) -> index (Memory e') j = index (Memory e) j)
    /\ length (Memory e') = length (Memory e)
    /\ Registers e' = Registers e /\ Eflags e' = Eflags e /\ Eip e' = Eip e.
Proof.
  intros Ha Hlen Hmax Hv.
  exists (set_Memory (store32 a v) e).
  split; [apply setMemory32_spec; assumption|].
  split; [apply (load_after_store e); try assumption; reflexivity|].
  split.
  { intros k Hk. simpl. rewrite (index_store32 e a v k) by lia.
    rewrite byte_at_div by lia. reflexivity. }
  split; [intros j Hj; apply (index_store32_other e); assumption|].
  split; [simpl; unfold store32; rewrite !length_insert; reflexivity|].
  repeat split.
Qed.

Lemma memory32_round_trip_witness :
  exists e',
    setMemory32 16 0xCAFEBABE small_memory = Ok tt e' []
    /\ getMemory32 16 e' = Ok 0xCAFEBABE e' []
    /\ index (Memory e') 16 = Some 0xBE
    /\ index (Memory e') 19 = Some 0xCA.
Proof.
  assert (Hlen : 16 + 3 < Z.of_nat (length (Memory small_memory)))
    by (vm_compute; reflexivity).
  destruct (memory32_round_trip small_memory 16 0xCAFEBABE
              ltac:(discriminate) Hlen ltac:(reflexivity)
              ltac:(split; [discriminate | reflexivity]))
    as (e' & Hs & Hg & Hb & _).
  exists e'. split; [exact Hs|]. split; [exact Hg|]. split.
  - exact (Hb 0 ltac:(split; [discriminate | reflexivity])).
  - exact (Hb 3 ltac:(split; [discriminate | reflexivity])).
Defined.

(** ** Byte registers *)

Section ByteAliasing.

Lemma bits_above (x k n : Z) :
  0 <= x < 2^k -> 0 <= k <= n -> Z.testbit x n = false.
Proof.
  intros Hx Hk. rewrite <- (Z.mod_small x (2^k)) by assumption.
  apply Z.mod_pow2_bits_high. lia.
Qed.

Lemma bits_FFFFFF00 (n : Z) :
  0 <= n -> Z.testbit 0xFFFFFF00 n = (8 <=? n) && (n <? 32).
Proof.
  intros Hn. change 0xFFFFFF00 with (Z.shiftl (Z.ones 24) 8).
  rewrite Z.shiftl_spec by lia.
  destruct (Z.leb_spec 8 n); simpl.
  - rewrite Z.testbit_ones_nonneg by lia.
    destruct (Z.ltb_spec (n - 8) 24); destruct (Z.ltb_spec n 32); try lia; reflexivity.
  - apply Z.testbit_neg_r. lia.
Qed.

Lemma bits_FFFF00FF (n : Z) :
  0 <= n -> Z.testbit 0xFFFF00FF n = ((n <? 8) || (16 <=? n)) && (n <? 32).
Proof.
  intros Hn. change 0xFFFF00FF with (Z.lor (Z.ones 8) (Z.shiftl (Z.ones 16) 16)).
  rewrite Z.lor_spec, Z.shiftl_spec, Z.testbit_ones_nonneg by lia.
  destruct (Z.leb_spec 16 n).
  - rewrite Z.testbit_ones_nonneg by lia.
    destruct (Z.ltb_spec n 8); destruct (Z.ltb_spec (n - 16) 16);
      destruct (Z.ltb_spec n 32); try lia; reflexivity.
  - rewrite Z.testbit_neg_r by lia.
    destruct (Z.ltb_spec n 8); destruct (Z.ltb_spec n 32); try lia; reflexivity.
Qed.

(** The register after [setRegister8]: the byte [v] replaces eight bits
    of [r]. *)
Lemma merged_low_bits (r v n : Z) :
  0 <= r < 2^32 -> 0 <= v < 2^8 -> 0 <= n ->
  Z.testbit (Z.lor (Z.land r 0xFFFFFF00) v) n
  = if n <? 8 then Z.testbit v n else Z.testbit r n.
Proof.
  intros Hr Hv Hn. rewrite Z.lor_spec, Z.land_spec, bits_FFFFFF00 by lia.
  destruct (Z.ltb_spec n 8); destruct (Z.leb_spec 8 n); try lia; simpl.
  - rewrite andb_false_r. reflexivity.
  - rewrite (bits_above v 8 n) by lia. rewrite orb_false_r.
    destruct (Z.ltb_spec n 32); [apply andb_true_r|].
    rewrite (bits_above r 32 n) by lia. reflexivity.
Qed.

Lemma merged_high_bits (r v n : Z) :
  0 <= r < 2^32 -> 0 <= v < 2^8 -> 0 <= n ->
  Z.testbit (Z.lor (Z.land r 0xFFFF00FF) (u32 (Z.shiftl v 8))) n
  = if (8 <=? n) && (n <? 16) then Z.testbit v (n - 8) else Z.testbit r n.
Proof.
  intros Hr Hv Hn.
  rewrite Z.lor_spec, Z.land_spec, bits_FFFF00FF, u32_bits, Z.shiftl_spec by lia.
  destruct (Z.leb_spec 8 n); simpl.
  - destruct (Z.ltb_spec n 16); simpl.
    + destruct (Z.ltb_spec n 8); [lia|]. destruct (Z.leb_spec 16 n); [lia|].
      destruct (Z.ltb_spec n 32); [|lia]. simpl. rewrite andb_false_r. reflexivity.
    + rewrite (bits_above v 8 (n - 8)) by lia. rewrite andb_false_r, orb_false_r.
      destruct (Z.ltb_spec n 8); [lia|]. destruct (Z.leb_spec 16 n); [|lia]. simpl.
      destruct (Z.ltb_spec n 32); [apply andb_true_r|].
      rewrite (bits_above r 32 n) by lia. reflexivity.
  - rewrite Z.testbit_neg_r with (n := n - 8) by lia.
    rewrite andb_false_r, orb_false_r.
    destruct (Z.ltb_spec n 8); [|lia]. destruct (Z.ltb_spec n 32); [|lia].
    simpl. apply andb_true_r.
Qed.

(** Reading the byte back out of the merged register. *)
Lemma low_byte_of_merged (r v : Z) :
  0 <= r < 2^32 -> 0 <= v < 2^8 ->
  Z.lor (Z.land r 0xFFFFFF00) v mod 2^8 = v.
Proof.
  intros Hr Hv. apply Z.bits_inj'. intros n Hn.
  rewrite Z.testbit_mod_pow2, merged_low_bits by lia.
  destruct (Z.ltb_spec n 8); [reflexivity|].
  simpl. symmetry. apply (bits_above v 8 n); lia.
Qed.

Lemma high_byte_of_merged (r v : Z) :
  0 <= r < 2^32 -> 0 <= v < 2^8 ->
  (Z.lor (Z.land r 0xFFFF00FF) (u32 (Z.shiftl v 8)) / 2^8) mod 2^8 = v.
Proof.
  intros Hr Hv. apply Z.bits_inj'. intros n Hn.
  rewrite Z.testbit_mod_pow2, Z.div_pow2_bits, merged_high_bits by lia.
  destruct (Z.ltb_spec n 8).
  - destruct (Z.leb_spec 8 (n + 8)); [|lia]. destruct (Z.ltb_spec (n + 8) 16); [|lia].
    simpl. f_equal. lia.
  - simpl. symmetry. apply (bits_above v 8 n); lia.
Qed.

End ByteAliasing.

Lemma setRegister8_low (e : Emulator) (i r v : Z) :
  0 <= i < 4 -> register e i = Some r ->
  setRegister8 i v e
  = Ok tt (set_Registers
             (fun rs => <[Z.to_nat i := Z.lor (Z.land r 0xFFFFFF00) v]> rs) e) [].
Proof.
  intros Hi Hr. unfold setRegister8.
  destruct (Z.ltb_spec i 4); [|lia].
  rewrite (bind_Ok_nil _ _ _ _ _ (Registers_at_spec e i r ltac:(lia) Hr)).
  apply Registers_put_spec. lia.
Qed.

Lemma setRegister8_high (e : Emulator) (i r v : Z) :
  4 <= i < 8 -> register e (i - 4) = Some r ->
  setRegister8 i v e
  = Ok tt (set_Registers
             (fun rs => <[Z.to_nat (i - 4)
                          := Z.lor (Z.land r 0xFFFF00FF) (u32 (Z.shiftl v 8))]> rs) e) [].
Proof.
  intros Hi Hr. unfold setRegister8.
  destruct (Z.ltb_spec i 4); [lia|].
  rewrite (u8_small (i - 4)) by lia.
  rewrite (bind_Ok_nil _ _ _ _ _ (Registers_at_spec e (i - 4) r ltac:(lia) Hr)).
  apply Registers_put_spec. lia.
Qed.

(** What [setRegister8] does to the state. *)
Lemma setRegister8_effect (e : Emulator) (i r v : Z) :
  0 <= i < 8 ->
  register e (i mod 4) = Some r -> 0 <= r < 2^32 ->
  0 <= v < 2^8 ->
  exists e' r',
    setRegister8 i v e = Ok tt e' []
    /\ register e' (i mod 4) = Some r'
    /\ (forall n, 0 <= n ->
        Z.testbit r' n
        = if (byte_offset i <=? n) && (n <? byte_offset i + 8)
          then Z.testbit v (n - byte_offset i)
          else Z.testbit r n)
    /\ getRegister8 i e' = Ok v e' []
    /\ (forall j, 0 <= j -> j <> i mod 4 -> register e' j = register e j)
    /\ Memory e' = Memory e /\ Eflags e' = Eflags e /\ Eip e' = Eip e.
Proof.
  intros Hi Hr Rr Rv. pose proof (lookup_lt_Some _ _ _ Hr) as Hlen.
  unfold byte_offset. destruct (Z.ltb_spec i 4) as [Hlow|Hhigh].
  - rewrite (Z.mod_small i 4) in * by lia.
    eexists. exists (Z.lor (Z.land r 0xFFFFFF00) v).
    split; [apply (setRegister8_low e i r v); [lia | exact Hr]|].
    assert (Hr' : register
                    (set_Registers
                       (fun rs => <[Z.to_nat i := Z.lor (Z.land r 0xFFFFFF00) v]> rs) e)
                    i = Some (Z.lor (Z.land r 0xFFFFFF00) v))
      by (unfold register; simpl; apply list_lookup_insert_eq; exact Hlen).
    split; [exact Hr'|]. split.
    { intros n Hn. rewrite merged_low_bits by assumption.
      destruct (Z.leb_spec 0 n); [|lia]. change (0 + 8) with 8. simpl.
      rewrite Z.sub_0_r. reflexivity. }
    split.
    { rewrite (getRegister8_low _ i _ ltac:(lia) Hr').
      rewrite low_byte_of_merged by assumption. reflexivity. }
    split; [|repeat split].
    intros j Hj Hne. unfold register. simpl.
    apply list_lookup_insert_ne. lia.
  - assert (E : i mod 4 = i - 4) by (Z.div_mod_to_equations; lia).
    rewrite E in *.
    eexists. exists (Z.lor (Z.land r 0xFFFF00FF) (u32 (Z.shiftl v 8))).
    split; [apply (setRegister8_high e i r v); [lia | exact Hr]|].
    assert (Hr' : register
                    (set_Registers
                       (fun rs => <[Z.to_nat (i - 4)
                                    := Z.lor (Z.land r 0xFFFF00FF) (u32 (Z.shiftl v 8))]> rs)
                       e)
                    (i - 4) = Some (Z.lor (Z.land r 0xFFFF00FF) (u32 (Z.shiftl v 8))))
      by (unfold register; simpl; apply list_lookup_insert_eq; exact Hlen).
    split; [exact Hr'|]. split.
    { intros n Hn. rewrite merged_high_bits by assumption. reflexivity. }
    split.
    { rewrite (getRegister8_high _ i _ ltac:(lia) Hr').
      rewrite high_byte_of_merged by assumption. reflexivity. }
    split; [|repeat split].
    intros j Hj Hne. unfold register. simpl.
    apply list_lookup_insert_ne. lia.
Qed.

(** X2: writing a byte register changes exactly eight bits of the 32-bit
    register that owns it (bits 0..7 for indices 0..3, bits 8..15 for
    indices 4..7), reading the byte register back returns the byte, and
    no other register, no memory and no flag changes. *)
Theorem byte_register_aliasing (e : Emulator) (i r v : Z) :
  0 <= i < 8 ->
  register e (i mod 4) = Some r -> 0 <= r < 2^32 ->
  0 <= v < 2^8 ->
  exists e' r',
    setRegister8 i v e = Ok tt e' []
    /\ register e' (i mod 4) = Some r'
    /\ (forall n, 0 <= n ->
        Z.testbit r' n
        = if (byte_offset i <=? n) && (n <? byte_offset i + 8)
          then Z.testbit v (n - byte_offset i)
          else Z.testbit r n)
    /\ getRegister8 i e' = Ok v e' []
    /\ (forall j, 0 <= j -> j <> i mod 4 -> register e' j = register e j)
    /\ Memory e' = Memory e /\ Eflags e' = Eflags e /\ Eip e' = Eip e.
Proof. apply setRegister8_effect. Qed.

Lemma byte_register_aliasing_witness :
  exists e',
    setRegister8 CAh 0xAB mov_al_cl = Ok tt e' []
    /\ register e' CEax = Some 0x1122AB44
    /\ getRegister8 CAh e' = Ok 0xAB e' []
    /\ register e' CEcx = Some 0x55667788.
Proof.
  assert (Hr : register mov_al_cl (CAh mod 4) = Some 0x11223344) by reflexivity.
  destruct (byte_register_aliasing mov_al_cl CAh 0x11223344 0xAB
              ltac:(split; [discriminate | reflexivity]) Hr
              ltac:(split; [discriminate | reflexivity])
              ltac:(split; [discriminate | reflexivity]))
    as (e' & r' & Hs & Hr' & _ & Hg & Ho & _).
  exists e'. split; [exact Hs|].
  pose proof Hs as Hc. vm_compute in Hc. injection Hc as <-.
  split; [reflexivity|]. split; [exact Hg|].
  exact (Ho CEcx ltac:(discriminate) ltac:(discriminate)).
Defined.

(** ** Near jumps *)

Lemma jump_by_full (e : Emulator) (diff len : Z) :
  - 2^31 <= diff < 2^31 ->
  jump_by diff len e = Ok tt (set_Eip (fun p => u32 (p + diff + len)) e) [].
Proof.
  intros Hd. unfold jump_by.
  destruct (Z.ltb_spec 0 diff).
  - unfold add_Eip, modify. f_equal. apply set_Eip_ext.
    unfold u32. Z.div_mod_to_equations. lia.
  - unfold sub_Eip, add_Eip, bind, modify. simpl. f_equal.
    unfold set_Eip. simpl. f_equal.
    unfold u32, i32. Z.div_mod_to_equations. lia.
Qed.

(** X3: the near jump moves the program counter to
    (p + signext32 w + 5) mod 2^32 for every 32-bit displacement [w],
    the most negative one included. *)
Theorem near_jump_target (e : Emulator) (w : Z) :
  GetCode32 1 e = Ok w e [] ->
  executeOpCode 0xE9 e
  = Ok tt (set_Eip (fun p => u32 (p + signed32 w + 5)) e) [].
Proof.
  intros Hw. destruct (GetCode32_inv _ _ _ _ _ Hw) as (Rw & _ & _).
  change (executeOpCode 0xE9) with NearJump. unfold NearJump.
  rewrite (bind_Ok_nil _ _ _ _ _ (GetSignCode32_spec e 1 w e [] Hw)).
  apply jump_by_full. apply signed32_range. assumption.
Qed.

Lemma near_jump_target_witness :
  GetCode32 1 jmp_near_min = Ok 0x80000000 jmp_near_min []
  /\ executeOpCode 0xE9 jmp_near_min
     = Ok tt (set_Eip (fun _ => 0x80000015) jmp_near_min) [].
Proof.
  assert (Hw : GetCode32 1 jmp_near_min = Ok 0x80000000 jmp_near_min [])
    by (vm_compute; reflexivity).
  split; [exact Hw|].
  rewrite (near_jump_target jmp_near_min 0x80000000 Hw). reflexivity.
Defined.

(** ** Effective addresses *)

(** X4: mode 0 resolves to the base register, or to the 32-bit
    displacement when the base field is 5; mode 2 resolves to base
    register plus the 32-bit displacement modulo 2^32.  Resolution only
    reads the state. *)
Theorem effective_address_modes_0_2 (e : Emulator) (m : ModRM) (r : Z) :
  0 <= Rm m < 8 -> Rm m <> 4 ->
  register e (Rm m) = Some r ->
  (Mod m = 0 -> Rm m <> 5 -> calcMemoryAddress m e = Ok r e [])
  /\ (Mod m = 0 -> Rm m = 5 -> calcMemoryAddress m e = Ok (Disp32 m) e [])
  /\ (Mod m = 2 -> calcMemoryAddress m e = Ok (u32 (r + Disp32 m)) e []).
Proof.
  intros Rrm H4 Hr. unfold calcMemoryAddress, getRegister32.
  destruct (Z.eqb_spec (Rm m) 4); [contradiction|].
  split; [|split].
  - intros -> H5. simpl. destruct (Z.eqb_spec (Rm m) 5); [contradiction|].
    apply Registers_at_spec; assumption.
  - intros -> H5. simpl. destruct (Z.eqb_spec (Rm m) 5); [|contradiction].
    reflexivity.
  - intros ->. simpl.
    rewrite (bind_Ok_nil _ _ _ _ _ (Registers_at_spec e (Rm m) r Rrm Hr)).
    reflexivity.
Qed.

Lemma effective_address_modes_0_2_witness :
  calcMemoryAddress (mkModRM 2 0 0 0 0 0xFFFFFFFE) disp8_minus_128
  = Ok 998 disp8_minus_128 [].
Proof.
  destruct (effective_address_modes_0_2 disp8_minus_128
              (mkModRM 2 0 0 0 0 0xFFFFFFFE) 1000
              ltac:(split; [discriminate | reflexivity]) ltac:(discriminate)
              eq_refl) as (_ & _ & H2).
  rewrite (H2 eq_refl). reflexivity.
Defined.

(** X5: effective-address resolution ends the process with exit code 0
    and one diagnostic, before it reads anything, exactly when the mode
    is not 0, 1 or 2 or the base field is 4 (the SIB forms); in every
    other case it returns an address and leaves the state as it was. *)
Theorem unimplemented_addressing_exits (e : Emulator) (m : ModRM) :
  wf e -> 0 <= Rm m < 8 ->
  ((Mod m <> 0 /\ Mod m <> 1 /\ Mod m <> 2) \/ Rm m = 4 ->
   exists msg, calcMemoryAddress m e = Exit 0 [(msg, [])])
  /\ (~ ((Mod m <> 0 /\ Mod m <> 1 /\ Mod m <> 2) \/ Rm m = 4) ->
      exists a, calcMemoryAddress m e = Ok a e []).
Proof.
  intros Hwf Rrm.
  destruct (wf_parts e Hwf) as (Hlen & _).
  assert (Hreg : exists r, register e (Rm m) = Some r).
  { apply lookup_lt_is_Some. rewrite Hlen. lia. }
  destruct Hreg as [r Hr].
  pose proof (Registers_at_spec e (Rm m) r Rrm Hr) as Hat.
  unfold calcMemoryAddress, getRegister32. split.
  - intros Hc.
    destruct (Z.eqb_spec (Mod m) 0); [|destruct (Z.eqb_spec (Mod m) 1);
      [|destruct (Z.eqb_spec (Mod m) 2)]];
      destruct (Z.eqb_spec (Rm m) 4); try (eexists; reflexivity);
      exfalso; destruct Hc as [(? & ? & ?)|?]; contradiction.
  - intros Hc.
    destruct (Z.eqb_spec (Mod m) 0); [|destruct (Z.eqb_spec (Mod m) 1);
      [|destruct (Z.eqb_spec (Mod m) 2)]];
      destruct (Z.eqb_spec (Rm m) 4); try (exfalso; apply Hc; right; assumption);
      try (exfalso; apply Hc; left; repeat split; assumption).
    + destruct (Rm m =? 5); eexists; [reflexivity | exact Hat].
    + destruct (0 <? Disp8 m); rewrite (bind_Ok_nil _ _ _ _ _ Hat); eexists; reflexivity.
    + rewrite (bind_Ok_nil _ _ _ _ _ Hat). eexists. reflexivity.
Qed.

Lemma unimplemented_addressing_exits_witness :
  wf disp8_minus_128
  /\ exists msg,
      calcMemoryAddress (mkModRM 1 0 4 0 0 0) disp8_minus_128 = Exit 0 [(msg, [])].
Proof.
  assert (Hwf : wf disp8_minus_128) by (vm_compute; reflexivity).
  split; [exact Hwf|].
  destruct (unimplemented_addressing_exits disp8_minus_128 (mkModRM 1 0 4 0 0 0)
              Hwf ltac:(split; [discriminate | reflexivity])) as (Hx & _).
  exact (Hx (or_intror eq_refl)).
Defined.

(** ** Conditional jumps *)

Lemma jump_if_spec (cond : M bool) (e : Emulator) (c : bool) :
  cond e = Ok c e [] ->
  jump_if cond e
  = (if c then (let* diff := GetSignCode8 1 in jump_by diff 2) e else jump_by 0 2 e).
Proof.
  intros Hc. unfold jump_if. rewrite (bind_Ok_nil _ _ _ _ _ Hc).
  destruct c; [reflexivity|].
  rewrite (bind_Ok_nil (ret 0) _ e 0 e eq_refl). reflexivity.
Qed.

Lemma Jle_condition (e : Emulator) :
  (let* z := isZero in
   if z then ret true
   else let* s := isSign in let* o := isOverFlow in ret (negb (Bool.eqb s o))) e
  = Ok (testFlag ZeroFlag e
        || negb (Bool.eqb (testFlag SignFlag e) (testFlag OverFlowFlag e))) e [].
Proof.
  unfold isZero. unfold bind at 1 2. simpl.
  destruct (testFlag ZeroFlag e); reflexivity.
Qed.

Lemma jcc_handler (op : Z) (e : Emulator) (c : bool) :
  jcc_condition op e = Some c ->
  executeOpCode op e
  = (if c then (let* diff := GetSignCode8 1 in jump_by diff 2) e else jump_by 0 2 e).
Proof.
  intros H. destruct op as [|p|p]; try discriminate H.
  do 8 (try destruct p as [p|p|]); try discriminate H;
    cbv beta iota zeta delta [jcc_condition] in H; injection H as <-;
    cbv beta iota delta [executeOpCode Jo Jno Jc Jnc Jz Jnz Js Jns Jl Jle];
    apply jump_if_spec; first [reflexivity | apply Jle_condition].
Qed.

Lemma jcc_spec (op : Z) (e : Emulator) (c : bool) (d : Z) :
  wf e ->
  jcc_condition op e = Some c ->
  (c = true -> index (Memory e) (u32 (Eip e + 1)) = Some d) ->
  executeOpCode op e
  = Ok tt (set_Eip (fun p => u32 (p + (if c then signed8 d else 0) + 2)) e) [].
Proof.
  intros Hwf Hc Hd. rewrite (jcc_handler op e c Hc). destruct c.
  - specialize (Hd eq_refl).
    rewrite (bind_Ok_nil _ _ _ _ _ (GetSignCode8_spec e Hwf _ _ Hd)).
    apply jump_by_full.
    pose proof (signed8_range d (wf_byte e Hwf _ _ Hd)). lia.
  - apply jump_by_full. lia.
Qed.

(** X6: each of the ten conditional jumps adds the sign-extended
    displacement byte plus 2 to the program counter when its flag
    condition holds and just 2 when it does not; in the second case the
    displacement byte is not read, so the jump succeeds even when that
    byte lies outside memory. *)
Theorem conditional_jump (op : Z) (e : Emulator) (c : bool) :
  wf e ->
  jcc_condition op e = Some c ->
  (c = false ->
   executeOpCode op e = Ok tt (set_Eip (fun p => u32 (p + 2)) e) [])
  /\ (c = true -> forall d,
      index (Memory e) (u32 (Eip e + 1)) = Some d ->
      executeOpCode op e
      = Ok tt (set_Eip (fun p => u32 (p + signed8 d + 2)) e) []).
Proof.
  intros Hwf Hc. split.
  - intros ->. rewrite (jcc_spec op e false 0 Hwf Hc) by discriminate.
    f_equal. apply set_Eip_ext. f_equal. lia.
  - intros -> d Hd. apply (jcc_spec op e true d Hwf Hc). intros _. exact Hd.
Qed.

Lemma conditional_jump_witness :
  wf jz_taken
  /\ jcc_condition 0x74 jz_taken = Some true
  /\ executeOpCode 0x74 jz_taken = Ok tt (set_Eip (fun _ => 23) jz_taken) [].
Proof.
  assert (Hwf : wf jz_taken) by (vm_compute; reflexivity).
  assert (Hc : jcc_condition 0x74 jz_taken = Some true) by reflexivity.
  split; [exact Hwf|]. split; [exact Hc|].
  destruct (conditional_jump 0x74 jz_taken true Hwf Hc) as (_ & Ht).
  rewrite (Ht eq_refl 0x05 ltac:(vm_compute; reflexivity)). reflexivity.
Defined.

(** ** Branching on a comparison *)

Lemma top_bit_ge (a : Z) : 0 <= a < 2^32 -> Z.testbit a 31 = (2^31 <=? a).
Proof.
  intros Ha. pose proof (top_bit a Ha) as H.
  rewrite Z.shiftr_div_pow2 in H by lia.
  destruct (Z.testbit a 31); destruct (Z.leb_spec (2^31) a); try reflexivity;
    exfalso; simpl in H; Z.div_mod_to_equations; lia.
Qed.

Lemma signed_less_flags (a b : Z) :
  0 <= a < 2^32 -> 0 <= b < 2^32 ->
  negb (Bool.eqb (Z.testbit (u32 (a - b)) 31)
          (negb (Bool.eqb (Z.testbit a 31) (Z.testbit b 31))
           && negb (Bool.eqb (Z.testbit a 31) (Z.testbit (u32 (a - b)) 31))))
  = (signed32 a <? signed32 b).
Proof.
  intros Ha Hb. rewrite !top_bit_ge by (assumption || apply u32_range).
  unfold signed32.
  destruct (Z.ltb_spec a (2^31)); destruct (Z.ltb_spec b (2^31));
    destruct (Z.leb_spec (2^31) a); destruct (Z.leb_spec (2^31) b); try lia;
    destruct (Z.leb_spec (2^31) (u32 (a - b)));
    match goal with |- _ = (?x <? ?y) => destruct (Z.ltb_spec x y) end;
    try reflexivity; exfalso; unfold u32 in *; Z.div_mod_to_equations; lia.
Qed.

(** X7: on flags left by a subtraction a - b, the jump-if-less opcode
    0x7C is taken exactly when a < b as signed 32-bit integers, 0x7E when
    a <= b signed, 0x72 when a < b unsigned and 0x74 when a = b. *)
Theorem branch_after_compare (e : Emulator) (a b d : Z) :
  wf e -> 0 <= a < 2^32 -> 0 <= b < 2^32 ->
  sub_flags a b e ->
  index (Memory e) (u32 (Eip e + 1)) = Some d ->
  let target (taken : bool) :=
    Ok tt (set_Eip (fun p => u32 (p + (if taken then signed8 d else 0) + 2)) e) [] in
  executeOpCode 0x7C e = target (signed32 a <? signed32 b)
  /\ executeOpCode 0x7E e = target (signed32 a <=? signed32 b)
  /\ executeOpCode 0x72 e = target (a <? b)
  /\ executeOpCode 0x74 e = target (a =? b).
Proof.
  intros Hwf Ha Hb (Hcf & Hzf & Hsf & Hof) Hd target.
  assert (Hl : negb (Bool.eqb (testFlag SignFlag e) (testFlag OverFlowFlag e))
               = (signed32 a <? signed32 b))
    by (rewrite Hsf, Hof; apply signed_less_flags; assumption).
  assert (Hle : testFlag ZeroFlag e
                || negb (Bool.eqb (testFlag SignFlag e) (testFlag OverFlowFlag e))
                = (signed32 a <=? signed32 b)).
  { rewrite Hl, Hzf. unfold signed32.
    destruct (Z.ltb_spec a (2^31)); destruct (Z.ltb_spec b (2^31));
      destruct (Z.eqb_spec a b);
      match goal with |- _ || (?x <? ?y) = (?x <=? ?y) =>
        destruct (Z.ltb_spec x y); destruct (Z.leb_spec x y) end;
      try reflexivity; lia. }
  unfold target. repeat split.
  - apply jcc_spec; [assumption | | auto].
    cbv beta iota zeta delta [jcc_condition]. rewrite Hl. reflexivity.
  - apply jcc_spec; [assumption | | auto].
    cbv beta iota zeta delta [jcc_condition]. rewrite Hle. reflexivity.
  - apply jcc_spec; [assumption | | auto].
    cbv beta iota zeta delta [jcc_condition]. rewrite Hcf. reflexivity.
  - apply jcc_spec; [assumption | | auto].
    cbv beta iota zeta delta [jcc_condition]. rewrite Hzf. reflexivity.
Qed.

Lemma branch_after_compare_witness :
  wf jl_after_cmp
  /\ sub_flags 0xFFFFFFFF 1 jl_after_cmp
  /\ executeOpCode 0x7C jl_after_cmp = Ok tt (set_Eip (fun _ => 23) jl_after_cmp) []
  /\ executeOpCode 0x72 jl_after_cmp = Ok tt (set_Eip (fun _ => 18) jl_after_cmp) [].
Proof.
  assert (Hwf : wf jl_after_cmp) by (vm_compute; reflexivity).
  assert (Hf : sub_flags 0xFFFFFFFF 1 jl_after_cmp).
  { unfold sub_flags. split; [vm_compute; reflexivity|].
    split; [vm_compute; reflexivity|]. split; vm_compute; reflexivity. }
  split; [exact Hwf|]. split; [exact Hf|].
  destruct (branch_after_compare jl_after_cmp 0xFFFFFFFF 1 0x05 Hwf
              ltac:(split; [discriminate | reflexivity])
              ltac:(split; [discriminate | reflexivity]) Hf
              ltac:(vm_compute; reflexivity)) as (Hl & _ & Hc & _).
  split; [rewrite Hl | rewrite Hc]; reflexivity.
Defined.

(** ** Call and return *)

Lemma insert_back (l : list Z) (i : nat) (x y : Z) :
  l !! i = Some x -> <[i := x]> (<[i := y]> l) = l.
Proof. intros H. rewrite list_insert_insert_eq. apply list_insert_id. exact H. Qed.

(** X8: a relative call pushes the address of the next instruction
    (p + 5) and jumps to p + signext32 w + 5; a return executed on the
    resulting state pops that address into the program counter and
    leaves every register, the stack pointer included, as it was before
    the call. *)
Theorem call_then_return (e : Emulator) (w s : Z) :
  wf e ->
  GetCode32 1 e = Ok w e [] ->
  register e CEsp = Some s ->
  4 <= s <= Z.of_nat (length (Memory e)) ->
  exists e1 e2,
    executeOpCode 0xE8 e = Ok tt e1 []
    /\ Eip e1 = u32 (Eip e + signed32 w + 5)
    /\ register e1 CEsp = Some (s - 4)
    /\ getMemory32 (s - 4) e1 = Ok (u32 (Eip e + 5)) e1 []
    /\ executeOpCode 0xC3 e1 = Ok tt e2 []
    /\ Eip e2 = u32 (Eip e + 5)
    /\ Registers e2 = Registers e.
Proof.
  intros Hwf Hw Hsp Hslot.
  pose proof (sp_range e Hwf s Hsp) as Rs.
  destruct (GetCode32_inv _ _ _ _ _ Hw) as (Rw & _ & _).
  set (ra := u32 (Eip e + 5)).
  set (e1 := set_Eip (fun p => u32 (p + signed32 w + 5)) (after_push s ra e)).
  assert (Hcall : executeOpCode 0xE8 e = Ok tt e1 []).
  { change (executeOpCode 0xE8) with CallRel32. unfold CallRel32.
    rewrite (bind_Ok_nil _ _ _ _ _ (GetSignCode32_spec e 1 w e [] Hw)).
    rewrite (bind_Ok_nil get _ e e e eq_refl).
    rewrite (bind_Ok_nil _ _ _ _ _ (push32_spec e Hwf s Hsp Hslot ra)).
    apply jump_by_full. apply signed32_range. assumption. }
  assert (Hsp1 : register e1 CEsp = Some (s - 4)) by (apply (after_push_sp e Hwf s ra)).
  assert (Hload : getMemory32 (s - 4) e1 = Ok ra e1 []).
  { apply (load_after_store e); try lia; [apply u32_range | reflexivity]. }
  eexists e1, _. split; [exact Hcall|]. split; [reflexivity|].
  split; [exact Hsp1|]. split; [exact Hload|].
  split.
  { change (executeOpCode 0xC3) with Ret. unfold Ret.
    rewrite (bind_Ok_nil _ _ _ _ _ (pop32_spec e1 (s - 4) ra Hsp1 Hload)).
    reflexivity. }
  split; [reflexivity|].
  simpl. replace (s - 4 + 4) with s by lia. rewrite u32_small by lia.
  apply insert_back. exact Hsp.
Qed.

Lemma call_then_return_witness :
  wf call_3
  /\ GetCode32 1 call_3 = Ok 3 call_3 []
  /\ register call_3 CEsp = Some 16
  /\ exists e1 e2,
      executeOpCode 0xE8 call_3 = Ok tt e1 []
      /\ Eip e1 = 24
      /\ executeOpCode 0xC3 e1 = Ok tt e2 []
      /\ Eip e2 = 21
      /\ Registers e2 = Registers call_3.
Proof.
  assert (Hwf : wf call_3) by (vm_compute; reflexivity).
  assert (Hw : GetCode32 1 call_3 = Ok 3 call_3 []) by (vm_compute; reflexivity).
  assert (Hsp : register call_3 CEsp = Some 16) by reflexivity.
  split; [exact Hwf|]. split; [exact Hw|]. split; [exact Hsp|].
  destruct (call_then_return call_3 3 16 Hwf Hw Hsp
              ltac:(vm_compute; split; discriminate))
    as (e1 & e2 & H1 & Hp1 & _ & _ & H2 & Hp2 & Hr).
  exists e1, e2. split; [exact H1|]. split; [rewrite Hp1; reflexivity|].
  split; [exact H2|]. split; [rewrite Hp2; reflexivity|]. exact Hr.
Defined.

(** ** Push and pop of registers *)

(** X9: push of register [r] followed by pop into register [r2] (other
    than the stack pointer) copies the 32-bit value of [r] into [r2],
    restores the stack pointer and changes no other register. *)
Theorem push_then_pop_copies (e : Emulator) (r r2 v s : Z) :
  wf e ->
  0 <= r < 8 -> 0 <= r2 < 8 -> r2 <> CEsp ->
  index (Memory e) (Eip e) = Some (0x50 + r) ->
  register e r = Some v ->
  register e CEsp = Some s ->
  4 <= s <= Z.of_nat (length (Memory e)) ->
  exists e1,
    step true e = Ok tt e1 []
    /\ (index (Memory e1) (Eip e1) = Some (0x58 + r2) ->
        exists e2,
          step true e1 = Ok tt e2 []
          /\ Registers e2 = <[Z.to_nat r2 := v]> (Registers e)
          /\ Eip e2 = u32 (u32 (Eip e + 1) + 1)).
Proof.
  intros Hwf Rr Rr2 Hne Hop Hv Hsp Hslot.
  pose proof (sp_range e Hwf s Hsp) as Rs.
  pose proof (wf_register e Hwf _ _ Hv) as Rv.
  set (e1 := set_Eip (fun p => u32 (p + 1)) (after_push s v e)).
  assert (Hpush : step true e = Ok tt e1 []).
  { rewrite (step_quiet e _ Hwf Hop).
    replace (executeOpCode (0x50 + r)) with PushR32
      by (assert (r = 0 \/ r = 1 \/ r = 2 \/ r = 3 \/ r = 4 \/ r = 5 \/ r = 6 \/ r = 7)
            as [-> | [-> | [-> | [-> | [-> | [-> | [-> | ->]]]]]]] by lia; reflexivity).
    unfold PushR32.
    rewrite (bind_Ok_nil _ _ _ _ _ (fetch_spec e _ Hwf Hop)).
    replace (u8 (u32 (0x50 + r - 0x50))) with r
      by (replace (0x50 + r - 0x50) with r by lia; rewrite u32_small, u8_small; lia).
    unfold getRegister32.
    rewrite (bind_Ok_nil _ _ _ _ _ (Registers_at_spec e r v Rr Hv)).
    rewrite (bind_Ok_nil _ _ _ _ _ (push32_spec e Hwf s Hsp Hslot v)).
    reflexivity. }
  exists e1. split; [exact Hpush|]. intros Hop1.
  assert (Hp1 : 0 <= Eip e1 < 2^32) by apply u32_range.
  assert (Hsp1 : register e1 CEsp = Some (s - 4)) by (apply (after_push_sp e Hwf s v)).
  assert (Hload : getMemory32 (s - 4) e1 = Ok v e1 []).
  { apply (load_after_store e); try lia. reflexivity. }
  eexists. split.
  - rewrite (step_quiet_at e1 _ Hp1 Hop1).
    replace (executeOpCode (0x58 + r2)) with popR32
      by (assert (r2 = 0 \/ r2 = 1 \/ r2 = 2 \/ r2 = 3 \/ r2 = 4 \/ r2 = 5
                  \/ r2 = 6 \/ r2 = 7)
            as [-> | [-> | [-> | [-> | [-> | [-> | [-> | ->]]]]]]] by lia; reflexivity).
    apply (popR32_spec e1 r2 (s - 4) v); assumption.
  - split; [|reflexivity]. simpl.
    replace (s - 4 + 4) with s by lia. rewrite (u32_small s) by lia.
    rewrite insert_back by exact Hsp. reflexivity.
Qed.

Lemma push_then_pop_copies_witness :
  wf push_ebx_pop_ecx
  /\ register push_ebx_pop_ecx CEbx = Some 0xDEADBEEF
  /\ exists e1 e2,
      step true push_ebx_pop_ecx = Ok tt e1 []
      /\ step true e1 = Ok tt e2 []
      /\ Registers e2 = [1; 0xDEADBEEF; 3; 0xDEADBEEF; 16; 5; 6; 7].
Proof.
  assert (Hwf : wf push_ebx_pop_ecx) by (vm_compute; reflexivity).
  assert (Hv : register push_ebx_pop_ecx CEbx = Some 0xDEADBEEF) by reflexivity.
  split; [exact Hwf|]. split; [exact Hv|].
  destruct (push_then_pop_copies push_ebx_pop_ecx CEbx CEcx 0xDEADBEEF 16 Hwf
              ltac:(split; [discriminate | reflexivity])
              ltac:(split; [discriminate | reflexivity])
              ltac:(discriminate)
              ltac:(vm_compute; reflexivity) Hv eq_refl
              ltac:(vm_compute; split; discriminate))
    as (e1 & H1 & H2).
  destruct H2 as (e2 & H2 & Hr & _).
  - pose proof H1 as Hc. vm_compute in Hc. injection Hc as <-.
    vm_compute. reflexivity.
  - exists e1, e2. split; [exact H1|]. split; [exact H2|]. rewrite Hr. reflexivity.
Defined.

(** X10: a push whose slot starts outside memory (the stack pointer is
    below 4, so the address wraps, or lies more than 4 past the end) ends
    in an index-out-of-range panic. *)
Theorem push_outside_memory_panics (e : Emulator) (v s : Z) :
  index (Memory e) (u32 (Eip e + 1)) = Some v ->
  register e CEsp = Some s ->
  Z.of_nat (length (Memory e)) <= u32 (s - 4) ->
  executeOpCode 0x6A e = Panic [].
Proof.
  intros Hv Hsp Hout.
  change (executeOpCode 0x6A) with PushImm8. unfold PushImm8.
  rewrite (bind_Ok_nil _ _ _ _ _ (GetCode8_spec e _ _ Hv)).
  unfold push32, getRegister32, setRegister32.
  unfold bind at 1.
  rewrite (bind_Ok_nil _ _ _ _ _
             (Registers_at_spec e CEsp s ltac:(unfold CEsp; lia) Hsp)).
  rewrite (bind_Ok_nil _ _ _ _ _
             (Registers_put_spec e CEsp _ ltac:(unfold CEsp; lia))).
  unfold setMemory32. simpl for_range. unfold bind at 1.
  unfold setMemory8 at 1. unfold bind at 1, get. simpl.
  replace (u32 (u32 (s - 4) + 0)) with (u32 (s - 4))
    by (rewrite Z.add_0_r; unfold u32; rewrite Zmod_mod; reflexivity).
  replace (in_range 0 (Z.of_nat (length (Memory e))) (u32 (s - 4))) with false;
    [reflexivity|].
  symmetry. unfold in_range.
  destruct (Z.ltb_spec (u32 (s - 4)) (Z.of_nat (length (Memory e)))); [lia|].
  apply andb_false_r.
Qed.

Lemma push_outside_memory_panics_witness :
  register push_no_room CEsp = Some 2
  /\ executeOpCode 0x6A push_no_room = Panic [].
Proof.
  assert (Hsp : register push_no_room CEsp = Some 2) by reflexivity.
  split; [exact Hsp|].
  apply (push_outside_memory_panics push_no_room 0x2A 2);
    [vm_compute; reflexivity | exact Hsp | vm_compute; discriminate].
Defined.

(** ** Well-formedness is an invariant of execution *)

Section GoodStates.

Lemma forallb_insert {A : Type} (p : A -> bool) (l : list A) (i : nat) (x : A) :
  forallb p l = true -> p x = true -> forallb p (<[i := x]> l) = true.
Proof.
  revert i. induction l as [|y l IH]; intros i Hall Hx; [reflexivity|].
  simpl in Hall. apply andb_true_iff in Hall as [Hy Hl].
  destruct i as [|i]; simpl; apply andb_true_iff; auto.
Qed.

Lemma wf_intro (e : Emulator) :
  length (Registers e) = 8%nat ->
  forallb (in_range 0 (2^32)) (Registers e) = true ->
  forallb (in_range 0 (2^8)) (Memory e) = true ->
  0 <= Eflags e < 2^32 -> 0 <= Eip e < 2^32 -> 0 <= MaxMemorySize e < 2^32 ->
  wf e.
Proof.
  intros H1 H2 H3 H4 H5 H6. unfold wf, wfb.
  rewrite H2, H3. rewrite H1.
  apply in_range_spec in H4, H5, H6. rewrite H4, H5, H6. reflexivity.
Qed.

Lemma good_set_Eip n k e f :
  good n k e -> is_word (f (Eip e)) -> good n k (set_Eip f e).
Proof.
  intros (Hwf & Hn & Hk) Hf. destruct (wf_parts e Hwf) as (H1 & H2 & H3 & H4 & H5 & H6).
  split; [|split; assumption]. apply wf_intro; assumption.
Qed.

Lemma good_set_Eflags n k e f :
  good n k e -> is_word (f (Eflags e)) -> good n k (set_Eflags f e).
Proof.
  intros (Hwf & Hn & Hk) Hf. destruct (wf_parts e Hwf) as (H1 & H2 & H3 & H4 & H5 & H6).
  split; [|split; assumption]. apply wf_intro; assumption.
Qed.

Lemma good_put_register n k e i v :
  good n k e -> is_word v ->
  good n k (set_Registers (fun r => <[i := v]> r) e).
Proof.
  intros (Hwf & Hn & Hk) Hv. destruct (wf_parts e Hwf) as (H1 & H2 & H3 & H4 & H5 & H6).
  split; [|split; assumption]. apply wf_intro; simpl; try assumption.
  - rewrite length_insert. assumption.
  - apply forallb_insert; [assumption|]. apply in_range_spec. exact Hv.
Qed.

Lemma good_put_memory n k e a b :
  good n k e -> is_byte b ->
  good n k (set_Memory (fun m => <[a := b]> m) e).
Proof.
  intros (Hwf & Hn & Hk) Hb. destruct (wf_parts e Hwf) as (H1 & H2 & H3 & H4 & H5 & H6).
  split; [|split; [simpl; rewrite length_insert|]; assumption].
  apply wf_intro; simpl; try assumption.
  apply forallb_insert; [assumption|]. apply in_range_spec. exact Hb.
Qed.

Lemma is_word_u32 z : is_word (u32 z).
Proof. apply u32_range. Qed.

Lemma is_byte_u8 z : is_byte (u8 z).
Proof. unfold is_byte, u8. apply Z.mod_pos_bound. lia. Qed.

Lemma is_byte_mod z : is_byte (z mod 2^8).
Proof. apply is_byte_u8. Qed.

Lemma is_word_byte b : is_byte b -> is_word b.
Proof. unfold is_byte, is_word. lia. Qed.

Lemma is_word_lor a b : is_word a -> is_word b -> is_word (Z.lor a b).
Proof.
  intros Ha Hb. rewrite <- (u32_small b Hb). apply lor_u32_range. exact Ha.
Qed.

Lemma is_word_land a b : is_word a -> is_word (Z.land a b).
Proof.
  intros Ha. unfold is_word.
  assert (N : 0 <= Z.land a b) by (apply Z.land_nonneg; left; apply Ha).
  replace (Z.land a b) with (u32 (Z.land a b)); [apply u32_range|].
  apply Z.bits_inj'. intros n Hn. rewrite u32_bits.
  destruct (Z.ltb_spec n 32); [reflexivity|].
  rewrite Z.land_spec, (bits_above a 32 n) by (assumption || lia). reflexivity.
Qed.

Lemma is_word_le32 b0 b1 b2 b3 : is_word (le32 b0 b1 b2 b3).
Proof. apply le32_range. Qed.

End GoodStates.

Create HintDb safe.

#[local] Hint Resolve is_word_u32 is_byte_u8 is_byte_mod is_word_byte is_word_lor
  is_word_land is_word_le32 : safe.

Section SafeRules.

Context {A B : Type}.

Lemma safe_ret (a : A) (R : A -> Prop) : R a -> safe (ret a) R.
Proof. intros Ha n k e a' e' o Hg [= <- <- _]. auto. Qed.

Lemma safe_bind (m : M A) (f : A -> M B) (R1 : A -> Prop) (R2 : B -> Prop) :
  safe m R1 -> (forall a, R1 a -> safe (f a) R2) -> safe (bind m f) R2.
Proof.
  intros Hm Hf n k e b e2 o Hg H.
  apply bind_inv in H as (a & e1 & o1 & o2 & H1 & H2 & _).
  destruct (Hm _ _ _ _ _ _ Hg H1) as (Hg1 & Ha).
  exact (Hf a Ha _ _ _ _ _ _ Hg1 H2).
Qed.

Lemma safe_weaken (m : M A) (R1 R2 : A -> Prop) :
  safe m R1 -> (forall a, R1 a -> R2 a) -> safe m R2.
Proof.
  intros Hm Hr n k e a e' o Hg H. destruct (Hm _ _ _ _ _ _ Hg H). auto.
Qed.

Lemma safe_panic (R : A -> Prop) : safe (@panic A) R.
Proof. intros n k e a e' o _ H. discriminate H. Qed.

Lemma safe_os_Exit c (R : A -> Prop) : safe (@os_Exit A c) R.
Proof. intros n k e a e' o _ H. discriminate H. Qed.

Lemma safe_load (x : option A) (R : A -> Prop) :
  (forall a, x = Some a -> R a) -> safe (load x) R.
Proof.
  intros Hx. destruct x as [a|]; [apply safe_ret; auto | apply safe_panic].
Qed.

End SafeRules.

Lemma safe_get (R : Emulator -> Prop) :
  (forall n k e, good n k e -> R e) -> safe get R.
Proof. intros HR n k e a e' o Hg [= <- <- _]. eauto. Qed.

Lemma safe_Printf fmt args (R : unit -> Prop) : R tt -> safe (Printf fmt args) R.
Proof. intros HR n k e [] e' o Hg [= <- _]. auto. Qed.

Lemma safe_modify (f : Emulator -> Emulator) (R : unit -> Prop) :
  (forall n k e, good n k e -> good n k (f e)) -> R tt -> safe (modify f) R.
Proof. intros Hf HR n k e [] e' o Hg [= <- _]. auto. Qed.

Lemma safe_for_range {A : Type} (I : A -> Prop) (body : Z -> A -> M A) :
  (forall i acc, I acc -> safe (body i acc) I) ->
  forall n i acc, I acc -> safe (for_range i n body acc) I.
Proof.
  intros Hbody n. induction n as [|n IH]; intros i acc Hacc; simpl.
  - apply safe_ret. exact Hacc.
  - eapply safe_bind; [apply Hbody; exact Hacc | intros a Ha; apply IH; exact Ha].
Qed.

Lemma safe_get_good : safe get is_good.
Proof. apply safe_get. intros n k e Hg. exists n, k. exact Hg. Qed.

Lemma good_byte (e : Emulator) (a b : Z) :
  is_good e -> index (Memory e) a = Some b -> is_byte b.
Proof. intros (n & k & Hwf & _) H. exact (wf_byte e Hwf a b H). Qed.

Lemma good_register (e : Emulator) (i : nat) (r : Z) :
  is_good e -> Registers e !! i = Some r -> is_word r.
Proof. intros (n & k & Hwf & _) H. exact (wf_register e Hwf i r H). Qed.

Lemma safe_add_Eip d : safe (add_Eip d) (fun _ => True).
Proof.
  apply safe_modify; [|exact I]. intros n k e Hg.
  apply good_set_Eip; [exact Hg | apply is_word_u32].
Qed.

Lemma safe_sub_Eip d : safe (sub_Eip d) (fun _ => True).
Proof.
  apply safe_modify; [|exact I]. intros n k e Hg.
  apply good_set_Eip; [exact Hg | apply is_word_u32].
Qed.

Lemma safe_GetCode8 i : safe (GetCode8 i) is_byte.
Proof.
  unfold GetCode8. eapply safe_bind; [apply safe_get_good|].
  intros e He. apply safe_load. intros b Hb. exact (good_byte e _ b He Hb).
Qed.

Lemma safe_GetSignCode8 i : safe (GetSignCode8 i) (fun z => - 2^7 <= z < 2^7).
Proof.
  unfold GetSignCode8. eapply safe_bind; [apply safe_get_good|].
  intros e He. eapply safe_bind.
  - apply safe_load with (R := is_byte). intros b Hb. exact (good_byte e _ b He Hb).
  - intros b Hb. rewrite shiftr7_byte by exact Hb.
    destruct (Z.ltb_spec b (2^7)); apply safe_ret.
    + rewrite i32_small; unfold is_byte in Hb; lia.
    + rewrite negate8; unfold is_byte in Hb; lia.
Qed.

Lemma safe_GetCode32 i : safe (GetCode32 i) is_word.
Proof.
  unfold GetCode32. apply safe_for_range; [|unfold is_word; lia].
  intros j acc Hacc. eapply safe_bind; [apply safe_GetCode8|].
  intros c _. apply safe_ret. apply is_word_lor; [exact Hacc | apply is_word_u32].
Qed.

Lemma safe_GetSignCode32 i : safe (GetSignCode32 i) (fun z => - 2^31 <= z < 2^31).
Proof.
  unfold GetSignCode32. eapply safe_bind; [apply safe_GetCode32|].
  intros w Hw. rewrite shiftr31_word by exact Hw.
  destruct (Z.ltb_spec w (2^31)); apply safe_ret.
  - rewrite i32_small; unfold is_word in Hw; lia.
  - rewrite negate32; unfold is_word in Hw; lia.
Qed.

Lemma safe_Registers_at i : safe (Registers_at i) is_word.
Proof.
  unfold Registers_at. eapply safe_bind; [apply safe_get_good|].
  intros e He. destruct (in_range 0 RegistersCount i); [|apply safe_panic].
  apply safe_load. intros r Hr. exact (good_register e _ r He Hr).
Qed.

Lemma safe_Registers_put i v : is_word v -> safe (Registers_put i v) (fun _ => True).
Proof.
  intros Hv. unfold Registers_put.
  destruct (in_range 0 RegistersCount i); [|apply safe_panic].
  apply safe_modify; [|exact I]. intros n k e Hg. apply good_put_register; assumption.
Qed.

Lemma safe_setMemory8 a v : safe (setMemory8 a v) (fun _ => True).
Proof.
  unfold setMemory8. eapply safe_bind; [apply safe_get_good|].
  intros e _. destruct (in_range _ _ _); [|apply safe_panic].
  apply safe_modify; [|exact I]. intros n k e0 Hg.
  apply good_put_memory; [exact Hg | apply is_byte_u8].
Qed.

Lemma safe_getMemory8 a : safe (getMemory8 a) is_byte.
Proof.
  unfold getMemory8. eapply safe_bind; [apply safe_get_good|].
  intros e He. apply safe_load. intros b Hb. exact (good_byte e _ b He Hb).
Qed.

Lemma safe_setMemory32 a v : safe (setMemory32 a v) (fun _ => True).
Proof.
  unfold setMemory32. apply safe_for_range; [|exact I].
  intros i acc _. apply safe_setMemory8.
Qed.

Lemma safe_getMemory32 a : safe (getMemory32 a) is_word.
Proof.
  unfold getMemory32. apply safe_for_range; [|unfold is_word; lia].
  intros j acc Hacc. eapply safe_bind; [apply safe_getMemory8|].
  intros c _. apply safe_ret. apply is_word_lor; [exact Hacc | apply is_word_u32].
Qed.

Lemma safe_getRegister8 i : safe (getRegister8 i) is_byte.
Proof.
  unfold getRegister8. destruct (i <? 4);
    (eapply safe_bind; [apply safe_Registers_at|]);
    intros r _; apply safe_ret; apply is_byte_u8.
Qed.

Lemma safe_setRegister8 i v : is_byte v -> safe (setRegister8 i v) (fun _ => True).
Proof.
  intros Hv. unfold setRegister8. destruct (i <? 4);
    (eapply safe_bind; [apply safe_Registers_at|]);
    intros r Hr; apply safe_Registers_put; apply is_word_lor;
    auto using is_word_land, is_word_byte, is_word_u32.
Qed.

Lemma safe_Printf_any fmt args : safe (Printf fmt args) (fun _ => True).
Proof. apply safe_Printf. exact I. Qed.

#[local] Hint Resolve safe_Printf_any safe_add_Eip safe_sub_Eip safe_GetCode8 safe_GetSignCode8
  safe_GetCode32 safe_GetSignCode32 safe_Registers_at safe_setMemory8
  safe_getMemory8 safe_setMemory32 safe_getMemory32 safe_getRegister8 : safe.

#[local] Hint Resolve safe_Registers_put safe_setRegister8 : safe.

(** One step of an invariance proof: a known computation, possibly with
    a weaker postcondition, or a constructor of the monad, or a case
    split. *)
Ltac safe_step :=
  first
    [ solve [eauto with safe]
    | solve [eapply safe_weaken; [solve [eauto with safe] | intros; solve [auto with safe]]]
    | apply safe_ret; solve [auto with safe]
    | apply safe_panic
    | apply safe_os_Exit
    | apply safe_Printf; solve [auto with safe]
    | apply safe_Registers_put; solve [auto with safe]
    | apply safe_setRegister8; solve [auto with safe]
    | eapply safe_bind; [solve [eauto with safe] | intros]
    | match goal with
      | |- safe (if ?b then _ else _) _ => destruct b
      | |- safe (match ?x with _ => _ end) _ => destruct x
      end ].

Ltac safe_tac := repeat safe_step.

Lemma safe_ParseModrm : safe ParseModrm (fun _ => True).
Proof.
  unfold ParseModrm. eapply safe_bind; [apply safe_GetCode8|]. intros code _.
  eapply safe_bind; [apply safe_add_Eip|]. intros _ _.
  eapply safe_bind with (R1 := fun _ => True).
  - destruct (_ && _); [|apply safe_ret; exact I].
    eapply safe_bind; [apply safe_GetCode8|]. intros s _.
    eapply safe_bind; [apply safe_add_Eip|]. intros _ _. apply safe_ret. exact I.
  - intros sib _. safe_tac.
Qed.

Lemma safe_calcMemoryAddress m : safe (calcMemoryAddress m) (fun _ => True).
Proof. unfold calcMemoryAddress, getRegister32. safe_tac. Qed.

#[local] Hint Resolve safe_ParseModrm safe_calcMemoryAddress : safe.

Lemma safe_getRm32 m : safe (getRm32 m) is_word.
Proof. unfold getRm32, getRegister32. safe_tac. Qed.

Lemma safe_setRm32 m v : is_word v -> safe (setRm32 m v) (fun _ => True).
Proof. intros Hv. unfold setRm32, setRegister32. safe_tac. Qed.

#[local] Hint Resolve safe_setRm32 : safe.

Lemma safe_getRm8 m : safe (getRm8 m) is_byte.
Proof. unfold getRm8. safe_tac. Qed.

Lemma safe_setRm8 m v : is_byte v -> safe (setRm8 m v) (fun _ => True).
Proof. intros Hv. unfold setRm8. safe_tac. Qed.

#[local] Hint Resolve safe_setRm8 : safe.

Lemma safe_setFlag k b : 0 <= k < 32 -> safe (setFlag (2^k) b) (fun _ => True).
Proof.
  intros Hk. unfold setFlag.
  assert (Hm : is_word (2^k))
    by (split; [lia | apply Z.pow_lt_mono_r; lia]).
  destruct b; (apply safe_modify; [|exact I]); intros n c e Hg;
    (apply good_set_Eflags; [exact Hg|]);
    destruct Hg as (Hwf & _); destruct (wf_parts e Hwf) as (_ & _ & _ & Hf & _).
  - apply is_word_lor; assumption.
  - apply is_word_land. exact Hf.
Qed.

Lemma safe_updateEflagsSub v1 v2 r : safe (updateEflagsSub v1 v2 r) (fun _ => True).
Proof.
  unfold updateEflagsSub, setCarry, setZero, setSign, setOverFlow.
  change CarryFlag with (2^0). change ZeroFlag with (2^6).
  change SignFlag with (2^7). change OverFlowFlag with (2^11).
  repeat (eapply safe_bind; [apply safe_setFlag; lia | intros _ _]).
  apply safe_setFlag. lia.
Qed.

Lemma safe_jump_by diff len : safe (jump_by diff len) (fun _ => True).
Proof. unfold jump_by. safe_tac. Qed.

Lemma safe_push32 v : safe (push32 v) (fun _ => True).
Proof. unfold push32, getRegister32, setRegister32. safe_tac. Qed.

Lemma safe_pop32 : safe pop32 is_word.
Proof. unfold pop32, getRegister32, setRegister32. safe_tac. Qed.

#[local] Hint Resolve safe_getRm32 safe_getRm8 safe_updateEflagsSub safe_jump_by
  safe_push32 safe_pop32 : safe.

Section HandlersAreSafe.

Lemma safe_flag_test mask : safe (let* e := get in ret (testFlag mask e)) (fun _ => True).
Proof. eapply safe_bind; [apply safe_get_good|]. intros e _. apply safe_ret. exact I. Qed.

Lemma safe_jump_if c : safe c (fun _ => True) -> safe (jump_if c) (fun _ => True).
Proof.
  intros Hc. unfold jump_if. eapply safe_bind; [exact Hc|]. intros b _.
  eapply safe_bind with (R1 := fun _ => True); [|intros; apply safe_jump_by].
  destruct b; safe_tac.
Qed.

Lemma safe_conditional_jumps :
  safe Jo (fun _ => True) /\ safe Jno (fun _ => True) /\ safe Jc (fun _ => True)
  /\ safe Jnc (fun _ => True) /\ safe Jz (fun _ => True) /\ safe Jnz (fun _ => True)
  /\ safe Js (fun _ => True) /\ safe Jns (fun _ => True) /\ safe Jl (fun _ => True)
  /\ safe Jle (fun _ => True).
Proof.
  pose proof safe_flag_test as F.
  unfold Jo, Jno, Jc, Jnc, Jz, Jnz, Js, Jns, Jl, Jle, notM,
    isOverFlow, isCarry, isZero, isSign.
  repeat apply conj; apply safe_jump_if; safe_tac.
Qed.

Lemma safe_MovR32Imm32 : safe MovR32Imm32 (fun _ => True).
Proof. unfold MovR32Imm32. safe_tac. Qed.

Lemma safe_ShortJump : safe ShortJump (fun _ => True).
Proof. unfold ShortJump. safe_tac. Qed.

Lemma safe_NearJump : safe NearJump (fun _ => True).
Proof. unfold NearJump. safe_tac. Qed.

Lemma safe_MovRm32Imm32 : safe MovRm32Imm32 (fun _ => True).
Proof. unfold MovRm32Imm32. safe_tac. Qed.

Lemma safe_MovRm32R32 : safe MovRm32R32 (fun _ => True).
Proof. unfold MovRm32R32, getR32, getRegister32. safe_tac. Qed.

Lemma safe_MovR32Rm32 : safe MovR32Rm32 (fun _ => True).
Proof. unfold MovR32Rm32, setR32, setRegister32. safe_tac. Qed.

Lemma safe_AddRm32R32 : safe AddRm32R32 (fun _ => True).
Proof. unfold AddRm32R32, getR32, getRegister32. safe_tac. Qed.

Lemma safe_AddRm32Imm8 m : safe (AddRm32Imm8 m) (fun _ => True).
Proof. unfold AddRm32Imm8. safe_tac. Qed.

Lemma safe_CmpRm32Imm8 m : safe (CmpRm32Imm8 m) (fun _ => True).
Proof. unfold CmpRm32Imm8. safe_tac. Qed.

Lemma safe_SubRm32Imm8 m : safe (SubRm32Imm8 m) (fun _ => True).
Proof. unfold SubRm32Imm8. safe_tac. Qed.

Lemma safe_Code83 : safe Code83 (fun _ => True).
Proof.
  unfold Code83. pose proof safe_AddRm32Imm8. pose proof safe_CmpRm32Imm8.
  pose proof safe_SubRm32Imm8. safe_tac.
Qed.

Lemma safe_IncRm32 m : safe (IncRm32 m) (fun _ => True).
Proof. unfold IncRm32. safe_tac. Qed.

Lemma safe_CodeFF : safe CodeFF (fun _ => True).
Proof. unfold CodeFF. pose proof safe_IncRm32. safe_tac. Qed.

Lemma safe_PushR32 : safe PushR32 (fun _ => True).
Proof. unfold PushR32, getRegister32. safe_tac. Qed.

Lemma safe_popR32 : safe popR32 (fun _ => True).
Proof. unfold popR32, setRegister32. safe_tac. Qed.

Lemma safe_CallRel32 : safe CallRel32 (fun _ => True).
Proof. unfold CallRel32. pose proof safe_get_good. safe_tac. Qed.

Lemma safe_Ret : safe Ret (fun _ => True).
Proof.
  unfold Ret. eapply safe_bind; [apply safe_pop32|]. intros a Ha.
  apply safe_modify; [|exact I]. intros n k e Hg. apply good_set_Eip; assumption.
Qed.

Lemma safe_Leave : safe Leave (fun _ => True).
Proof. unfold Leave, getRegister32, setRegister32. safe_tac. Qed.

Lemma safe_PushImm32 : safe PushImm32 (fun _ => True).
Proof. unfold PushImm32. safe_tac. Qed.

Lemma safe_PushImm8 : safe PushImm8 (fun _ => True).
Proof. unfold PushImm8. safe_tac. Qed.

Lemma safe_CmpR32Rm32 : safe CmpR32Rm32 (fun _ => True).
Proof. unfold CmpR32Rm32, getR32, getRegister32. safe_tac. Qed.

Lemma safe_CmpAlImm8 : safe CmpAlImm8 (fun _ => True).
Proof. unfold CmpAlImm8. safe_tac. Qed.

Lemma safe_CmpEaxImm32 : safe CmpEaxImm32 (fun _ => True).
Proof. unfold CmpEaxImm32, getRegister32. safe_tac. Qed.

Lemma safe_IncR32 : safe IncR32 (fun _ => True).
Proof. unfold IncR32, getRegister32, setRegister32. safe_tac. Qed.

Lemma safe_MovR8Imm8 : safe MovR8Imm8 (fun _ => True).
Proof. unfold MovR8Imm8, setR8. safe_tac. Qed.

Lemma safe_MovRm8R8 : safe MovRm8R8 (fun _ => True).
Proof. unfold MovRm8R8, getR8. safe_tac. Qed.

Lemma safe_IoOut8 a v : safe (IoOut8 a v) (fun _ => True).
Proof. unfold IoOut8. safe_tac. Qed.

Lemma safe_putString str : safe (putString str) (fun _ => True).
Proof.
  induction str as [|b str IH]; [apply safe_ret; exact I|].
  change (putString (b :: str)) with (IoOut8 0x03F8 b >> putString str).
  eapply safe_bind; [apply safe_IoOut8 | intros _ _; exact IH].
Qed.

Lemma safe_OutDxAl : safe OutDxAl (fun _ => True).
Proof. unfold OutDxAl, getRegister32. pose proof safe_IoOut8. safe_tac. Qed.

Lemma safe_biosVideoTeletype : safe biosVideoTeletype (fun _ => True).
Proof.
  unfold biosVideoTeletype. pose proof safe_putString.
  eapply safe_bind; [apply safe_getRegister8 | intros bl _].
  eapply safe_bind; [apply safe_getRegister8 | intros char _].
  eapply safe_bind with (R1 := fun _ => True);
    [apply safe_load; auto | intros; auto].
Qed.

Lemma safe_biosVideo : safe biosVideo (fun _ => True).
Proof. unfold biosVideo. pose proof safe_biosVideoTeletype. safe_tac. Qed.

Lemma safe_Swi : safe Swi (fun _ => True).
Proof. unfold Swi. pose proof safe_biosVideo. safe_tac. Qed.

Lemma safe_unrecognized op :
  safe (Printf "\nNot Implemented: %x" [op] >> modify (set_Eip (fun _ => 0)))
    (fun _ => True).
Proof.
  eapply safe_bind; [apply safe_Printf_any | intros _ _].
  apply safe_modify; [|exact I]. intros n k e Hg.
  apply good_set_Eip; [exact Hg | unfold is_word; lia].
Qed.

End HandlersAreSafe.

Lemma safe_executeOpCode (op : Z) : safe (executeOpCode op) (fun _ => True).
Proof.
  destruct safe_conditional_jumps as (? & ? & ? & ? & ? & ? & ? & ? & ? & ?).
  destruct op as [|p|p]; [apply safe_unrecognized| |apply safe_unrecognized].
  do 9 (try destruct p as [p|p|]);
    cbv beta iota delta [executeOpCode];
    first
      [ apply safe_unrecognized
      | assumption
      | apply safe_AddRm32R32 | apply safe_CmpR32Rm32 | apply safe_CmpAlImm8
      | apply safe_CmpEaxImm32 | apply safe_IncR32 | apply safe_PushR32
      | apply safe_popR32 | apply safe_PushImm32 | apply safe_PushImm8
      | apply safe_Code83 | apply safe_MovRm8R8 | apply safe_MovRm32R32
      | apply safe_MovR32Rm32 | apply safe_MovR8Imm8 | apply safe_MovR32Imm32
      | apply safe_Ret | apply safe_MovRm32Imm32 | apply safe_Leave
      | apply safe_Swi | apply safe_CallRel32 | apply safe_NearJump
      | apply safe_ShortJump | apply safe_OutDxAl | apply safe_CodeFF ].
Qed.

Lemma safe_step (quiet : bool) : safe (step quiet) (fun _ => True).
Proof.
  unfold step. eapply safe_bind; [apply safe_GetCode8 | intros code _].
  eapply safe_bind with (R1 := fun _ => True); [|intros; apply safe_executeOpCode].
  destruct quiet; [apply safe_ret; exact I|].
  eapply safe_bind; [apply safe_get_good | intros; apply safe_Printf_any].
Qed.

Lemma safe_Run (fuel : nat) (quiet : bool) : safe (Run fuel quiet) (fun _ => True).
Proof.
  induction fuel as [|fuel IH]; [apply safe_ret; exact I|].
  simpl. eapply safe_bind; [apply safe_get_good | intros e0 _].
  destruct (_ <=? _); [apply safe_ret; exact I|].
  eapply safe_bind; [apply safe_step | intros _ _].
  eapply safe_bind; [apply safe_get_good | intros e1 _].
  destruct (_ =? _); [|exact IH].
  eapply safe_bind; [apply safe_Printf_any | intros; apply safe_ret; exact I].
Qed.

(** X11: well-formedness is an invariant: whatever opcode is executed
    from a state whose registers, flags and program counter are 32-bit
    values and whose memory cells are bytes, a state it returns with is
    of the same kind, with memory of the same length and the same bound;
    so is the state the run loop ends with. *)
Theorem execution_preserves_wf (e e' : Emulator) (op : Z) (out : stdout)
    (fuel : nat) (quiet : bool) (e'' : Emulator) (r : run_end) (out' : stdout) :
  wf e ->
  (executeOpCode op e = Ok tt e' out ->
   wf e' /\ length (Memory e') = length (Memory e)
   /\ MaxMemorySize e' = MaxMemorySize e)
  /\ (Run fuel quiet e = Ok r e'' out' ->
      wf e'' /\ length (Memory e'') = length (Memory e)
      /\ MaxMemorySize e'' = MaxMemorySize e).
Proof.
  intros Hwf.
  assert (Hg : good (length (Memory e)) (MaxMemorySize e) e) by (repeat split; assumption).
  split; intros H.
  - exact (proj1 (safe_executeOpCode op _ _ _ _ _ _ Hg H)).
  - exact (proj1 (safe_Run fuel quiet _ _ _ _ _ _ Hg H)).
Qed.

Lemma execution_preserves_wf_witness :
  wf inc_eax_flags_set
  /\ exists e',
      executeOpCode 0x40 inc_eax_flags_set = Ok tt e' [] /\ wf e'.
Proof.
  assert (Hwf : wf inc_eax_flags_set) by (vm_compute; reflexivity).
  split; [exact Hwf|].
  set (e' := set_Eip (fun p => u32 (p + 1))
               (set_Registers (fun r => <[Z.to_nat CEax := 8]> r) inc_eax_flags_set)).
  assert (Hex : executeOpCode 0x40 inc_eax_flags_set = Ok tt e' [])
    by (vm_compute; reflexivity).
  exists e'. split; [exact Hex|].
  destruct (execution_preserves_wf inc_eax_flags_set e' 0x40 [] 0 true
              inc_eax_flags_set OutOfFuel [] Hwf) as (Hstep & _).
  exact (proj1 (Hstep Hex)).
Defined.

(** ** The run loop *)

(** X12: the run loop leaves through a [break] only on the halt signal:
    the program counter is 0 or has reached the memory bound. *)
Theorem run_halts_on_signal (fuel : nat) (quiet : bool) (e e' : Emulator)
    (out : stdout) :
  Run fuel quiet e = Ok Halted e' out ->
  Eip e' = 0 \/ MaxMemorySize e' <= Eip e'.
Proof.
  revert e out. induction fuel as [|fuel IH]; intros e out H; [discriminate H|].
  simpl in H. unfold bind at 1 in H. simpl in H.
  destruct (Z.leb_spec (MaxMemorySize e) (Eip e)) as [Hb|Hb].
  - injection H as <- _. right. exact Hb.
  - rewrite prepend_nil in H.
    apply bind_inv in H as ([] & e1 & o1 & o2 & _ & H & _).
    unfold bind at 1 in H. simpl in H. rewrite prepend_nil in H.
    destruct (Z.eqb_spec (Eip e1) 0) as [E|E].
    + injection H as <- _. left. exact E.
    + exact (IH _ _ H).
Qed.

Lemma run_halts_on_signal_witness :
  exists e' out,
    Run 1 true unknown_only = Ok Halted e' out /\ Eip e' = 0.
Proof.
  assert (H : Run 1 true unknown_only
              = Ok Halted (set_Eip (fun _ => 0) unknown_only)
                  [("\nNot Implemented: %x"%string, [0xF4]);
                   ("\nend of program.\n\n"%string, [])])
    by (vm_compute; reflexivity).
  eexists _, _. split; [exact H|].
  destruct (run_halts_on_signal 1 true unknown_only _ _ H) as [E|E];
    [exact E | vm_compute in E; contradiction E; reflexivity].
Defined.

(** ** Interrupts and port output *)

Lemma not_0x10 {A : Type} (v : Z) (a b : A) :
  v <> 0x10 -> match v with 0x10 => a | _ => b end = b.
Proof.
  intros H. destruct v as [|p|p]; try reflexivity.
  do 5 (try destruct p as [p|p|]); try reflexivity. contradiction H; reflexivity.
Qed.

Lemma not_0x0e {A : Type} (v : Z) (a b : A) :
  v <> 0x0e -> match v with 0x0e => a | _ => b end = b.
Proof.
  intros H. destruct v as [|p|p]; try reflexivity.
  do 4 (try destruct p as [p|p|]); try reflexivity. contradiction H; reflexivity.
Qed.

Lemma not_0x3F8 {A : Type} (v : Z) (a b : A) :
  v <> 0x03F8 -> match v with 0x03F8 => a | _ => b end = b.
Proof.
  intros H. destruct v as [|p|p]; try reflexivity.
  do 10 (try destruct p as [p|p|]); try reflexivity. contradiction H; reflexivity.
Qed.

(** X13: a software interrupt with a vector other than 0x10, or with
    vector 0x10 and a function (AH) other than 0x0E, is reported and
    execution continues after the two-byte instruction with registers,
    flags and memory untouched. *)
Theorem unhandled_interrupt_continues (e : Emulator) (v eax : Z) :
  index (Memory e) (u32 (Eip e + 1)) = Some v ->
  register e CEax = Some eax ->
  (v <> 0x10 ->
   executeOpCode 0xCD e
   = Ok tt (set_Eip (fun p => u32 (p + 2)) e)
       [("Unknown interrupt: 0x%02x\n"%string, [v])])
  /\ (v = 0x10 -> (eax / 2^8) mod 2^8 <> 0x0e ->
      executeOpCode 0xCD e
      = Ok tt (set_Eip (fun p => u32 (p + 2)) e)
          [("Not implemented BIOS video function: 0x%02x\n"%string,
            [(eax / 2^8) mod 2^8])]).
Proof.
  intros Hv Ha. change (executeOpCode 0xCD) with Swi. unfold Swi.
  rewrite (bind_Ok_nil _ _ _ _ _ (GetCode8_spec e _ _ Hv)).
  rewrite (bind_Ok_nil (add_Eip 2) _ e tt _ eq_refl).
  split.
  - intros Hne. rewrite not_0x10 by exact Hne. reflexivity.
  - intros -> Hah. unfold biosVideo.
    rewrite (bind_Ok_nil _ _ _ _ _
               (getRegister8_high (set_Eip (fun p => u32 (p + 2)) e) CAh eax
                  ltac:(unfold CAh, CEax; lia) Ha)).
    rewrite not_0x0e by exact Hah. reflexivity.
Qed.

Lemma unhandled_interrupt_continues_witness :
  index (Memory int_21) (u32 (Eip int_21 + 1)) = Some 0x21
  /\ executeOpCode 0xCD int_21
     = Ok tt (set_Eip (fun p => u32 (p + 2)) int_21)
         [("Unknown interrupt: 0x%02x\n"%string, [0x21])].
Proof.
  assert (Hv : index (Memory int_21) (u32 (Eip int_21 + 1)) = Some 0x21)
    by (vm_compute; reflexivity).
  split; [exact Hv|].
  destruct (unhandled_interrupt_continues int_21 0x21 0 Hv eq_refl) as (H & _).
  apply H. discriminate.
Defined.

(** X14: the port-output instruction writes the low byte of EAX to
    standard output when the low 16 bits of EDX are 0x03F8 and writes
    nothing for any other port; either way only the program counter
    changes, by 1. *)
Theorem port_output (e : Emulator) (eax edx : Z) :
  register e CEax = Some eax ->
  register e CEdx = Some edx ->
  executeOpCode 0xEE e
  = Ok tt (set_Eip (fun p => u32 (p + 1)) e)
      (if edx mod 2^16 =? 0x03F8 then [("%c\n"%string, [eax mod 2^8])] else []).
Proof.
  intros Ha Hd. change (executeOpCode 0xEE) with OutDxAl.
  unfold OutDxAl, getRegister32.
  rewrite (bind_Ok_nil _ _ _ _ _
             (Registers_at_spec e CEdx edx ltac:(unfold CEdx; lia) Hd)).
  rewrite (bind_Ok_nil _ _ _ _ _
             (getRegister8_low e CAl eax ltac:(unfold CAl, CEax; lia) Ha)).
  change 0xFFFF with (Z.ones 16). rewrite Z.land_ones by lia.
  rewrite Zmod_mod. unfold IoOut8.
  destruct (Z.eqb_spec (edx mod 2^16) 0x03F8) as [E|E].
  - rewrite E. reflexivity.
  - rewrite not_0x3F8 by exact E. reflexivity.
Qed.

Lemma port_output_witness :
  register out_dx_al CEdx = Some 0x103F8
  /\ executeOpCode 0xEE out_dx_al
     = Ok tt (set_Eip (fun p => u32 (p + 1)) out_dx_al) [("%c\n"%string, [0x41])].
Proof.
  split; [reflexivity|].
  rewrite (port_output out_dx_al 0x41 0x103F8 eq_refl eq_refl). reflexivity.
Defined.

(** ** Immediate loads and increments *)

Lemma le32_sum (b0 b1 b2 b3 : Z) :
  is_byte b0 -> is_byte b1 -> is_byte b2 -> is_byte b3 ->
  le32 b0 b1 b2 b3 = b0 + 2^8 * b1 + 2^16 * b2 + 2^24 * b3.
Proof.
  unfold is_byte. intros H0 H1 H2 H3.
  set (v := b0 + 2^8 * b1 + 2^16 * b2 + 2^24 * b3).
  assert (Hv : 0 <= v < 2^32) by (unfold v; lia).
  rewrite <- (le32_bytes v Hv). rewrite !byte_at_div by lia.
  f_equal; unfold v; Z.div_mod_to_equations; lia.
Qed.

Lemma opcode_in_row (base r : Z) (h : M unit) :
  0 <= r < 8 ->
  (forall k, In k [0; 1; 2; 3; 4; 5; 6; 7] -> executeOpCode (base + k) = h) ->
  executeOpCode (base + r) = h.
Proof.
  intros Hr H. apply H.
  assert (r = 0 \/ r = 1 \/ r = 2 \/ r = 3 \/ r = 4 \/ r = 5 \/ r = 6 \/ r = 7)
    as [-> | [-> | [-> | [-> | [-> | [-> | [-> | ->]]]]]]] by lia; simpl; tauto.
Qed.

(** X15: opcode 0xB8 + r loads the four bytes after it, least
    significant first, into register [r], leaves the other registers,
    flags and memory alone and advances the program counter by 5. *)
Theorem mov_register_immediate (e : Emulator) (r b0 b1 b2 b3 : Z) :
  wf e -> Eip e + 4 < 2^32 ->
  0 <= r < 8 ->
  code_at (Memory e) (Eip e) [0xB8 + r; b0; b1; b2; b3] ->
  executeOpCode (0xB8 + r) e
  = Ok tt (set_Eip (fun p => u32 (p + 5))
             (set_Registers
                (fun rs => <[Z.to_nat r := b0 + 2^8 * b1 + 2^16 * b2 + 2^24 * b3]> rs)
                e)) [].
Proof.
  intros Hwf Hmax Hr Hcode. pose proof (wf_Eip e Hwf) as Hp.
  rewrite (opcode_in_row 0xB8 r MovR32Imm32 Hr)
    by (intros k Hk; simpl in Hk;
        repeat (destruct Hk as [<-|Hk]; [reflexivity|]); contradiction).
  rewrite (MovR32Imm32_spec e r b0 b1 b2 b3) by (assumption || lia).
  destruct Hcode as (_ & H0 & H1 & H2 & H3 & _).
  rewrite le32_sum by (eapply wf_byte; eassumption). reflexivity.
Qed.

Lemma mov_register_immediate_witness :
  wf mov_edx_imm
  /\ exists e',
      executeOpCode 0xBA mov_edx_imm = Ok tt e' []
      /\ register e' CEdx = Some 0xCAFEBABE.
Proof.
  assert (Hwf : wf mov_edx_imm) by (vm_compute; reflexivity).
  split; [exact Hwf|]. eexists. split.
  - apply (mov_register_immediate mov_edx_imm 2 0xBE 0xBA 0xFE 0xCA Hwf);
      [reflexivity | split; [discriminate | reflexivity] |].
    cbv [code_at]. repeat (split; [vm_compute; reflexivity|]). exact I.
  - reflexivity.
Defined.

(** X16: opcode 0x40 + r adds 1 to register [r] modulo 2^32, so
    0xFFFFFFFF becomes 0, and changes nothing else but the program
    counter, which advances by 1. *)
Theorem inc_register_wraps (e : Emulator) (r v : Z) :
  wf e ->
  0 <= r < 8 ->
  index (Memory e) (Eip e) = Some (0x40 + r) ->
  register e r = Some v ->
  executeOpCode (0x40 + r) e
  = Ok tt (set_Eip (fun p => u32 (p + 1))
             (set_Registers (fun rs => <[Z.to_nat r := (v + 1) mod 2^32]> rs) e)) [].
Proof.
  intros Hwf Hr Hop Hv.
  rewrite (opcode_in_row 0x40 r IncR32 Hr)
    by (intros k Hk; simpl in Hk;
        repeat (destruct Hk as [<-|Hk]; [reflexivity|]); contradiction).
  unfold IncR32, getRegister32, setRegister32.
  rewrite (bind_Ok_nil _ _ _ _ _ (fetch_spec e _ Hwf Hop)).
  replace (u8 (u32 (0x40 + r - 0x40))) with r
    by (replace (0x40 + r - 0x40) with r by lia; rewrite u32_small, u8_small; lia).
  rewrite (bind_Ok_nil _ _ _ _ _ (Registers_at_spec e r v Hr Hv)).
  rewrite (bind_Ok_nil _ _ _ _ _ (Registers_put_spec e r _ Hr)).
  reflexivity.
Qed.

Lemma inc_register_wraps_witness :
  wf inc_edi_max
  /\ register inc_edi_max CEdi = Some 0xFFFFFFFF
  /\ exists e',
      executeOpCode 0x47 inc_edi_max = Ok tt e' []
      /\ register e' CEdi = Some 0
      /\ Eflags e' = 0.
Proof.
  assert (Hwf : wf inc_edi_max) by (vm_compute; reflexivity).
  split; [exact Hwf|]. split; [reflexivity|]. eexists. split.
  - apply (inc_register_wraps inc_edi_max 7 0xFFFFFFFF Hwf);
      [split; [discriminate | reflexivity] | vm_compute; reflexivity | reflexivity].
  - split; reflexivity.
Defined.

(** ** The addressing-mode decoder *)

Lemma modrm_fields (code : Z) :
  0 <= code < 2^8 ->
  u8 (Z.shiftr (Z.land code 0xc0) 6) = code / 64
  /\ u8 (Z.shiftr (Z.land code 0x38) 3) = (code / 8) mod 8
  /\ u8 (Z.land code 0x07) = code mod 8.
Proof.
  intros Hc.
  pose proof (forall_bytes
    (fun c => (u8 (Z.shiftr (Z.land c 0xc0) 6) =? c / 64)
              && (u8 (Z.shiftr (Z.land c 0x38) 3) =? (c / 8) mod 8)
              && (u8 (Z.land c 0x07) =? c mod 8))
    ltac:(vm_compute; reflexivity) code Hc) as H.
  cbv beta in H. rewrite !andb_true_iff, !Z.eqb_eq in H. tauto.
Qed.

Lemma byte_available (l : list Z) (a : Z) :
  0 <= a < Z.of_nat (length l) -> exists b, index l a = Some b.
Proof.
  intros Ha. destruct (lookup_lt_is_Some_2 l (Z.to_nat a) ltac:(lia)) as [b Hb].
  exists b. apply index_Some. split; [lia | exact Hb].
Qed.

Lemma set_Eip_twice (f g : Z -> Z) (e : Emulator) :
  set_Eip f (set_Eip g e) = set_Eip (fun p => f (g p)) e.
Proof. reflexivity. Qed.

Lemma u32_add_l (x y : Z) : u32 (u32 x + y) = u32 (x + y).
Proof. unfold u32. rewrite Zplus_mod_idemp_l. reflexivity. Qed.

Lemma signed32_u32 (w : Z) : 0 <= w < 2^32 -> u32 (signed32 w) = w.
Proof.
  intros Hw. unfold signed32, u32.
  destruct (Z.ltb_spec w (2^31)); Z.div_mod_to_equations; lia.
Qed.

Lemma signed8_i8 (b : Z) : 0 <= b < 2^8 -> i8 (signed8 b) = signed8 b.
Proof.
  intros Hb. unfold signed8, i8.
  destruct (Z.ltb_spec b (2^7)); Z.div_mod_to_equations; lia.
Qed.

(** The decoder on a register-direct operand byte. *)
Lemma ParseModrm_direct (e : Emulator) (code : Z) :
  0 <= Eip e < 2^32 ->
  index (Memory e) (Eip e) = Some code ->
  0xC0 <= code < 2^8 ->
  ParseModrm e
  = Ok (mkModRM 3 ((code / 8) mod 8) (code mod 8) 0 0 0)
      (set_Eip (fun p => u32 (p + 1)) e) [].
Proof.
  intros Hp Hc Hr. unfold ParseModrm.
  rewrite (bind_Ok_nil _ _ _ _ _ (fetch_at e code Hp Hc)). cbv zeta.
  destruct (modrm_fields code ltac:(lia)) as (-> & -> & ->).
  replace (code / 64) with 3 by (Z.div_mod_to_equations; lia).
  reflexivity.
Qed.

Section Fetching.

Variable e : Emulator.
Hypothesis Hwf : wf e.

Lemma advance_advance (k n : Z) : advance n (advance k e) = advance (k + n) e.
Proof.
  unfold advance. rewrite set_Eip_twice. apply set_Eip_ext.
  rewrite u32_add_l. f_equal. lia.
Qed.

Lemma wf_advance (k : Z) : wf (advance k e).
Proof.
  destruct (wf_parts e Hwf) as (H1 & H2 & H3 & H4 & H5 & H6).
  apply wf_intro; try assumption. apply u32_range.
Qed.

Lemma code8_at (i b : Z) :
  Eip e + i < 2^32 -> 0 <= i ->
  index (Memory e) (Eip e + i) = Some b ->
  GetCode8 i e = Ok b e [].
Proof.
  intros Hmax Hi H. pose proof (wf_Eip e Hwf). apply GetCode8_spec.
  rewrite u32_small by lia. exact H.
Qed.

Lemma sign8_at (i b : Z) :
  Eip e + i < 2^32 -> 0 <= i ->
  index (Memory e) (Eip e + i) = Some b ->
  GetSignCode8 i e = Ok (signed8 b) e [].
Proof.
  intros Hmax Hi H. pose proof (wf_Eip e Hwf). apply GetSignCode8_spec; [exact Hwf|].
  rewrite u32_small by lia. exact H.
Qed.

Lemma code32_at (i b0 b1 b2 b3 : Z) :
  Eip e + i + 3 < 2^32 -> 0 <= i ->
  code_at (Memory e) (Eip e + i) [b0; b1; b2; b3] ->
  GetCode32 i e = Ok (le32 b0 b1 b2 b3) e [].
Proof.
  intros Hmax Hi (H0 & H1 & H2 & H3 & _). pose proof (wf_Eip e Hwf).
  apply GetCode32_spec; rewrite (u32_small (i + _)), u32_small by lia.
  - rewrite Z.add_0_r. exact H0.
  - rewrite Z.add_assoc. exact H1.
  - replace (Eip e + (i + 2)) with (Eip e + i + 1 + 1) by lia. exact H2.
  - replace (Eip e + (i + 3)) with (Eip e + i + 1 + 1 + 1) by lia. exact H3.
Qed.

Lemma sign32_at (i b0 b1 b2 b3 : Z) :
  Eip e + i + 3 < 2^32 -> 0 <= i ->
  code_at (Memory e) (Eip e + i) [b0; b1; b2; b3] ->
  GetSignCode32 i e = Ok (signed32 (le32 b0 b1 b2 b3)) e [].
Proof.
  intros Hmax Hi H. apply GetSignCode32_spec. apply code32_at; assumption.
Qed.

End Fetching.

Section Decoding.

Variable e : Emulator.
Hypothesis Hwf : wf e.

Lemma advance_0 : advance 0 e = e.
Proof.
  pose proof (wf_Eip e Hwf). destruct e as [rs f m p k]. unfold advance, set_Eip.
  simpl in *. f_equal. rewrite Z.add_0_r. apply u32_small. assumption.
Qed.

Lemma skip (k n : Z) : add_Eip n (advance k e) = Ok tt (advance (k + n) e) [].
Proof. rewrite <- advance_advance. reflexivity. Qed.

Lemma Eip_advance (k : Z) : 0 <= k -> Eip e + k < 2^32 -> Eip (advance k e) = Eip e + k.
Proof. intros. pose proof (wf_Eip e Hwf). simpl. apply u32_small. lia. Qed.

Lemma next8 (k b : Z) :
  0 <= k -> Eip e + k < 2^32 ->
  index (Memory e) (Eip e + k) = Some b ->
  GetCode8 0 (advance k e) = Ok b (advance k e) [].
Proof.
  intros Hk Hmax H. apply (code8_at _ (wf_advance e Hwf k)); [| lia |];
    rewrite Eip_advance, Z.add_0_r by lia; [lia | exact H].
Qed.

Lemma next8s (k b : Z) :
  0 <= k -> Eip e + k < 2^32 ->
  index (Memory e) (Eip e + k) = Some b ->
  GetSignCode8 0 (advance k e) = Ok (signed8 b) (advance k e) [].
Proof.
  intros Hk Hmax H. apply (sign8_at _ (wf_advance e Hwf k)); [| lia |];
    rewrite Eip_advance, Z.add_0_r by lia; [lia | exact H].
Qed.

Lemma next32 (k b0 b1 b2 b3 : Z) :
  0 <= k -> Eip e + k + 3 < 2^32 ->
  code_at (Memory e) (Eip e + k) [b0; b1; b2; b3] ->
  GetCode32 0 (advance k e) = Ok (le32 b0 b1 b2 b3) (advance k e) [].
Proof.
  intros Hk Hmax H. apply (code32_at _ (wf_advance e Hwf k)); [| lia |];
    rewrite Eip_advance, Z.add_0_r by lia; [lia | exact H].
Qed.

Lemma next32s (k b0 b1 b2 b3 : Z) :
  0 <= k -> Eip e + k + 3 < 2^32 ->
  code_at (Memory e) (Eip e + k) [b0; b1; b2; b3] ->
  GetSignCode32 0 (advance k e) = Ok (signed32 (le32 b0 b1 b2 b3)) (advance k e) [].
Proof.
  intros Hk Hmax H. apply GetSignCode32_spec. apply next32; assumption.
Qed.

End Decoding.

Section DecoderParts.

Variable e : Emulator.
Hypothesis Hwf : wf e.

Lemma bytes_available (a : Z) (n : nat) :
  0 <= a -> a + Z.of_nat n <= Z.of_nat (length (Memory e)) ->
  exists bs, length bs = n /\ code_at (Memory e) a bs.
Proof.
  revert a. induction n as [|n IH]; intros a Ha Hlen.
  - exists []. split; [reflexivity | exact I].
  - destruct (byte_available (Memory e) a ltac:(lia)) as [b Hb].
    destruct (IH (a + 1) ltac:(lia) ltac:(lia)) as (bs & Hl & Hbs).
    exists (b :: bs). split; [simpl; congruence | split; assumption].
Qed.

Lemma read_sib (j md rm : Z) :
  0 <= j ->
  Eip e + j + sib_length md rm <= 2^32 ->
  Eip e + j + sib_length md rm <= Z.of_nat (length (Memory e)) ->
  exists sib,
    (if negb (md =? 3) && (rm =? 4)
     then let* s := GetCode8 0 in add_Eip 1 >> ret (u8 s)
     else ret 0) (advance j e)
    = Ok sib (advance (j + sib_length md rm) e) []
    /\ (sib_length md rm = 1 -> index (Memory e) (Eip e + j) = Some sib).
Proof.
  pose proof (wf_Eip e Hwf) as Hp. unfold sib_length. intros Hj Hmax Hlen.
  destruct (negb (md =? 3) && (rm =? 4)).
  - destruct (byte_available (Memory e) (Eip e + j) ltac:(lia)) as [s Hs].
    pose proof (wf_byte e Hwf _ _ Hs) as Rs. exists s. split; [|intros _; exact Hs].
    rewrite (bind_Ok_nil _ _ _ _ _ (next8 e Hwf j s Hj ltac:(lia) Hs)).
    rewrite (bind_Ok_nil _ _ _ _ _ (skip e j 1)).
    rewrite u8_small by assumption. reflexivity.
  - exists 0. split; [|discriminate]. rewrite Z.add_0_r. reflexivity.
Qed.

Lemma read_disp (j md rg rm sib : Z) :
  0 <= j ->
  Eip e + j + disp_length md rm <= 2^32 ->
  Eip e + j + disp_length md rm <= Z.of_nat (length (Memory e)) ->
  exists m,
    (if ((md =? 0) && (rm =? 5)) || (md =? 2) then
       let* d := GetSignCode32 0 in
       add_Eip 4 >> ret (mkModRM md rg rm sib 0 (u32 d))
     else if md =? 1 then
       let* d := GetSignCode8 0 in
       add_Eip 1 >> ret (mkModRM md rg rm sib (i8 d) 0)
     else ret (mkModRM md rg rm sib 0 0)) (advance j e)
    = Ok m (advance (j + disp_length md rm) e) []
    /\ Mod m = md /\ Reg m = rg /\ Rm m = rm /\ Sib m = sib
    /\ (disp_length md rm = 1 ->
        exists b, index (Memory e) (Eip e + j) = Some b /\ Disp8 m = signed8 b)
    /\ (disp_length md rm = 4 ->
        exists b0 b1 b2 b3,
          code_at (Memory e) (Eip e + j) [b0; b1; b2; b3]
          /\ Disp32 m = b0 + 2^8 * b1 + 2^16 * b2 + 2^24 * b3).
Proof.
  pose proof (wf_Eip e Hwf) as Hp. unfold disp_length. intros Hj Hmax Hlen.
  destruct (((md =? 0) && (rm =? 5)) || (md =? 2)); [|destruct (md =? 1)].
  - destruct (bytes_available (Eip e + j) 4 ltac:(lia) ltac:(lia)) as (bs & Hl & Hbs).
    destruct bs as [|b0 [|b1 [|b2 [|b3 [|]]]]]; try discriminate Hl.
    rewrite (bind_Ok_nil _ _ _ _ _
               (next32s e Hwf j b0 b1 b2 b3 Hj ltac:(lia) Hbs)).
    rewrite (bind_Ok_nil _ _ _ _ _ (skip e j 4)).
    eexists. split; [reflexivity|]. repeat (split; [reflexivity|]).
    split; [discriminate|]. intros _. exists b0, b1, b2, b3. split; [exact Hbs|].
    simpl. rewrite signed32_u32 by apply le32_range.
    destruct Hbs as (H0 & H1 & H2 & H3 & _).
    apply le32_sum; eapply wf_byte; eassumption.
  - destruct (byte_available (Memory e) (Eip e + j) ltac:(lia)) as [b Hb].
    pose proof (wf_byte e Hwf _ _ Hb) as Rb.
    rewrite (bind_Ok_nil _ _ _ _ _ (next8s e Hwf j b Hj ltac:(lia) Hb)).
    rewrite (bind_Ok_nil _ _ _ _ _ (skip e j 1)).
    eexists. split; [reflexivity|]. repeat (split; [reflexivity|]).
    split; [|discriminate]. intros _. exists b. split; [exact Hb|].
    simpl. apply signed8_i8. assumption.
  - eexists. split; [rewrite Z.add_0_r; reflexivity|].
    repeat (split; [reflexivity|]). split; discriminate.
Qed.

Lemma ParseModrm_at (k code : Z) :
  0 <= k ->
  Eip e + k + modrm_length (code / 64) (code mod 8) <= 2^32 ->
  Eip e + k + modrm_length (code / 64) (code mod 8) <= Z.of_nat (length (Memory e)) ->
  index (Memory e) (Eip e + k) = Some code ->
  exists m,
    ParseModrm (advance k e)
    = Ok m (advance (k + modrm_length (code / 64) (code mod 8)) e) []
    /\ Mod m = code / 64 /\ Reg m = (code / 8) mod 8 /\ Rm m = code mod 8
    /\ (sib_length (code / 64) (code mod 8) = 1 ->
        index (Memory e) (Eip e + k + 1) = Some (Sib m))
    /\ (disp_length (code / 64) (code mod 8) = 1 ->
        exists b,
          index (Memory e) (Eip e + k + 1 + sib_length (code / 64) (code mod 8)) = Some b
          /\ Disp8 m = signed8 b)
    /\ (disp_length (code / 64) (code mod 8) = 4 ->
        exists b0 b1 b2 b3,
          code_at (Memory e) (Eip e + k + 1 + sib_length (code / 64) (code mod 8))
            [b0; b1; b2; b3]
          /\ Disp32 m = b0 + 2^8 * b1 + 2^16 * b2 + 2^24 * b3).
Proof.
  intros Hk Hmax Hlen Hc.
  pose proof (wf_Eip e Hwf) as Hp. pose proof (wf_byte e Hwf _ _ Hc) as Hb.
  unfold ParseModrm.
  assert (L : 0 <= sib_length (code / 64) (code mod 8)
              /\ 0 <= disp_length (code / 64) (code mod 8)).
  { unfold sib_length, disp_length.
    repeat match goal with |- context [if ?b then _ else _] => destruct b end; lia. }
  unfold modrm_length in *.
  rewrite (bind_Ok_nil _ _ _ _ _ (next8 e Hwf k code Hk ltac:(lia) Hc)). cbv zeta.
  destruct (modrm_fields code Hb) as (-> & -> & ->).
  revert Hmax Hlen L. generalize (code / 64) (code mod 8) ((code / 8) mod 8).
  intros md rm rg Hmax Hlen L.
  rewrite (bind_Ok_nil _ _ _ _ _ (skip e k 1)).
  destruct (read_sib (k + 1) md rm ltac:(lia) ltac:(lia) ltac:(lia)) as (sib & Hsib & Ssib).
  rewrite (bind_Ok_nil _ _ _ _ _ Hsib).
  destruct (read_disp (k + 1 + sib_length md rm) md rg rm sib
              ltac:(lia) ltac:(lia) ltac:(lia))
    as (m & Hm & M1 & M2 & M3 & M4 & D8 & D32).
  exists m. rewrite Hm, !Z.add_assoc in *. 
  split; [reflexivity|]. repeat (split; [assumption|]).
  split; [rewrite M4; exact Ssib|]. split; assumption.
Qed.

End DecoderParts.

(** X17: the addressing decoder, given the bytes it needs, splits the
    first byte into mode (bits 7..6), register field (bits 5..3) and base
    field (bits 2..0), consumes a SIB byte when the mode is not 3 and the
    base field is 4, then a four-byte little-endian displacement (mode 2,
    or mode 0 with base field 5) or a one-byte two's-complement one
    (mode 1), and moves only the program counter, past what it read. *)
Theorem modrm_decode (e : Emulator) (code : Z) :
  wf e ->
  Eip e + modrm_length (code / 64) (code mod 8) <= 2^32 ->
  Eip e + modrm_length (code / 64) (code mod 8) <= Z.of_nat (length (Memory e)) ->
  index (Memory e) (Eip e) = Some code ->
  exists m,
    ParseModrm e = Ok m (advance (modrm_length (code / 64) (code mod 8)) e) []
    /\ Mod m = code / 64 /\ Reg m = (code / 8) mod 8 /\ Rm m = code mod 8
    /\ (sib_length (code / 64) (code mod 8) = 1 ->
        index (Memory e) (Eip e + 1) = Some (Sib m))
    /\ (disp_length (code / 64) (code mod 8) = 1 ->
        exists b,
          index (Memory e) (Eip e + 1 + sib_length (code / 64) (code mod 8)) = Some b
          /\ Disp8 m = signed8 b)
    /\ (disp_length (code / 64) (code mod 8) = 4 ->
        exists b0 b1 b2 b3,
          code_at (Memory e) (Eip e + 1 + sib_length (code / 64) (code mod 8))
            [b0; b1; b2; b3]
          /\ Disp32 m = b0 + 2^8 * b1 + 2^16 * b2 + 2^24 * b3).
Proof.
  intros Hwf Hmax Hlen Hc.
  destruct (ParseModrm_at e Hwf 0 code ltac:(lia)
              ltac:(rewrite Z.add_0_r; exact Hmax) ltac:(rewrite Z.add_0_r; exact Hlen)
              ltac:(rewrite Z.add_0_r; exact Hc)) as (m & H).
  exists m. rewrite (advance_0 e Hwf), !Z.add_0_r, Z.add_0_l in H. exact H.
Qed.

Lemma modrm_decode_witness :
  wf operand_esp_minus_4
  /\ exists m,
      ParseModrm operand_esp_minus_4 = Ok m (advance 3 operand_esp_minus_4) []
      /\ Mod m = 1 /\ Reg m = 0 /\ Rm m = 4
      /\ Sib m = 0x24 /\ Disp8 m = -4.
Proof.
  assert (Hwf : wf operand_esp_minus_4) by (vm_compute; reflexivity).
  split; [exact Hwf|].
  destruct (modrm_decode operand_esp_minus_4 0x44 Hwf
              ltac:(vm_compute; discriminate) ltac:(vm_compute; discriminate)
              ltac:(vm_compute; reflexivity))
    as (m & Hm & M1 & M2 & M3 & Hs & Hd & _).
  exists m. split; [exact Hm|]. repeat (split; [assumption|]).
  specialize (Hs eq_refl). destruct (Hd eq_refl) as (b & Hb & Hd8).
  vm_compute in Hs. vm_compute in Hb. injection Hs as Hs. injection Hb as Hb.
  split; [symmetry; exact Hs|]. rewrite Hd8, <- Hb. reflexivity.
Defined.

(** ** Instructions on a register operand *)

Lemma ParseModrm_register (e : Emulator) (rg rm : Z) :
  wf e -> Eip e + 1 < 2^32 ->
  0 <= rg < 8 -> 0 <= rm < 8 ->
  index (Memory e) (Eip e + 1) = Some (0xC0 + 8 * rg + rm) ->
  ParseModrm (advance 1 e) = Ok (mkModRM 3 rg rm 0 0 0) (advance 2 e) [].
Proof.
  intros Hwf Hmax Hrg Hrm Hc. pose proof (wf_Eip e Hwf) as Hp.
  rewrite (ParseModrm_direct (advance 1 e) (0xC0 + 8 * rg + rm)).
  - change (set_Eip (fun p => u32 (p + 1)) (advance 1 e)) with (advance 1 (advance 1 e)).
    rewrite advance_advance. f_equal. f_equal; Z.div_mod_to_equations; lia.
  - apply wf_Eip. apply wf_advance. exact Hwf.
  - rewrite Eip_advance by (assumption || lia). exact Hc.
  - lia.
Qed.

Lemma updateEflagsSub_frame (e : Emulator) (a b r : Z) :
  exists e',
    updateEflagsSub a b r e = Ok tt e' []
    /\ Registers e' = Registers e /\ Memory e' = Memory e /\ Eip e' = Eip e.
Proof.
  unfold updateEflagsSub, setCarry, setZero, setSign, setOverFlow.
  rewrite (bind_Ok_nil _ _ _ _ _ (setFlag_spec _ _ _)).
  rewrite (bind_Ok_nil _ _ _ _ _ (setFlag_spec _ _ _)).
  rewrite (bind_Ok_nil _ _ _ _ _ (setFlag_spec _ _ _)).
  rewrite setFlag_spec. eexists. split; [reflexivity|]. repeat split.
Qed.

Lemma u32_add_r (x y : Z) : u32 (x + u32 y) = (x + y) mod 2^32.
Proof. unfold u32. rewrite Zplus_mod_idemp_r. reflexivity. Qed.

Lemma u32_sub_u64 (x y : Z) : u32 (u64 (x - u64 y)) = (x - y) mod 2^32.
Proof. unfold u32, u64. Z.div_mod_to_equations. lia. Qed.

Lemma code_at_nat (m : list Z) (code : list Z) (k : nat) (a b : Z) :
  code_at m a code -> code !! k = Some b -> index m (a + Z.of_nat k) = Some b.
Proof.
  revert a k. induction code as [|c code IH]; intros a k H Hk; [discriminate|].
  destruct H as [Hc H]. destruct k as [|k].
  - injection Hk as <-. rewrite Z.add_0_r. exact Hc.
  - replace (a + Z.of_nat (S k)) with (a + 1 + Z.of_nat k) by lia.
    apply IH; assumption.
Qed.

Lemma code_at_index (m : list Z) (code : list Z) (k a b : Z) :
  code_at m a code -> 0 <= k -> code !! Z.to_nat k = Some b ->
  index m (a + k) = Some b.
Proof.
  intros H Hk Hb. rewrite <- (Z2Nat.id k Hk). eapply code_at_nat; eassumption.
Qed.

Lemma register_advance (e : Emulator) (k r : Z) :
  register (advance k e) r = register e r.
Proof. reflexivity. Qed.

(** X18: on a register operand, group 0x83 adds (sub-opcode 0) or
    subtracts (sub-opcode 5) the sign-extended immediate byte modulo
    2^32, also for a negative immediate, and leaves the register alone
    when it compares (sub-opcode 7); group 0xFF with sub-opcode 0 adds 1
    modulo 2^32.  No other register and no memory changes, and the program
    counter moves past the instruction. *)
Theorem group_arithmetic_on_register (e : Emulator) (r b v : Z) :
  wf e -> Eip e + 2 < 2^32 ->
  0 <= r < 8 ->
  register e r = Some v ->
  (code_at (Memory e) (Eip e) [0x83; 0xC0 + 8 * 0 + r; b] ->
   executeOpCode 0x83 e
   = Ok tt (advance 3 (set_Registers
                         (fun rs => <[Z.to_nat r := (v + signed8 b) mod 2^32]> rs) e)) [])
  /\ (code_at (Memory e) (Eip e) [0x83; 0xC0 + 8 * 5 + r; b] ->
      exists e',
        executeOpCode 0x83 e = Ok tt e' []
        /\ Registers e' = <[Z.to_nat r := (v - signed8 b) mod 2^32]> (Registers e)
        /\ Memory e' = Memory e /\ Eip e' = u32 (Eip e + 3))
  /\ (code_at (Memory e) (Eip e) [0x83; 0xC0 + 8 * 7 + r; b] ->
      exists e',
        executeOpCode 0x83 e = Ok tt e' []
        /\ Registers e' = Registers e
        /\ Memory e' = Memory e /\ Eip e' = u32 (Eip e + 3))
  /\ (code_at (Memory e) (Eip e) [0xFF; 0xC0 + 8 * 0 + r] ->
      executeOpCode 0xFF e
      = Ok tt (advance 2 (set_Registers
                            (fun rs => <[Z.to_nat r := (v + 1) mod 2^32]> rs) e)) []).
Proof.
  intros Hwf Hmax Hr Hv. pose proof (wf_Eip e Hwf) as Hp.
  assert (Hv2 : forall k, Registers_at r (advance k e) = Ok v (advance k e) [])
    by (intros k; apply Registers_at_spec; assumption).
  split; [|split; [|split]].
  - intros Hcode.
    pose proof (code_at_index _ _ 1 _ _ Hcode ltac:(lia) eq_refl) as Hm.
    pose proof (code_at_index _ _ 2 _ _ Hcode ltac:(lia) eq_refl) as Hb.
    change (executeOpCode 0x83) with Code83. unfold Code83.
    rewrite (bind_Ok_nil (add_Eip 1) _ e tt (advance 1 e) eq_refl).
    rewrite (bind_Ok_nil _ _ _ _ _
               (ParseModrm_register e 0 r Hwf ltac:(lia) ltac:(lia) Hr Hm)).
    cbv beta iota delta [Reg]. unfold AddRm32Imm8, getRm32, setRm32, getRegister32,
      setRegister32. cbv beta iota delta [Mod Rm Z.eqb Pos.eqb].
    rewrite (bind_Ok_nil _ _ _ _ _ (Hv2 2)).
    rewrite (bind_Ok_nil _ _ _ _ _ (next8s e Hwf 2 b ltac:(lia) ltac:(lia) Hb)).
    rewrite (bind_Ok_nil _ _ _ _ _ (skip e 2 1)).
    rewrite Registers_put_spec by assumption. rewrite u32_add_r. reflexivity.
  - intros Hcode.
    pose proof (code_at_index _ _ 1 _ _ Hcode ltac:(lia) eq_refl) as Hm.
    pose proof (code_at_index _ _ 2 _ _ Hcode ltac:(lia) eq_refl) as Hb.
    change (executeOpCode 0x83) with Code83. unfold Code83.
    rewrite (bind_Ok_nil (add_Eip 1) _ e tt (advance 1 e) eq_refl).
    rewrite (bind_Ok_nil _ _ _ _ _
               (ParseModrm_register e 5 r Hwf ltac:(lia) ltac:(lia) Hr Hm)).
    cbv beta iota delta [Reg]. unfold SubRm32Imm8, getRm32, setRm32, getRegister32,
      setRegister32. cbv beta iota delta [Mod Rm Z.eqb Pos.eqb].
    rewrite (bind_Ok_nil _ _ _ _ _ (Hv2 2)).
    rewrite (bind_Ok_nil _ _ _ _ _ (next8s e Hwf 2 b ltac:(lia) ltac:(lia) Hb)).
    rewrite (bind_Ok_nil _ _ _ _ _ (skip e 2 1)). cbv zeta.
    rewrite (bind_Ok_nil _ _ _ _ _ (Registers_put_spec _ r _ Hr)).
    rewrite u32_sub_u64.
    match goal with |- context [updateEflagsSub ?a ?c ?d ?s] =>
      destruct (updateEflagsSub_frame s a c d) as (e' & He' & R & M & P) end.
    exists e'. split; [exact He'|]. rewrite R, M, P. repeat split.
  - intros Hcode.
    pose proof (code_at_index _ _ 1 _ _ Hcode ltac:(lia) eq_refl) as Hm.
    pose proof (code_at_index _ _ 2 _ _ Hcode ltac:(lia) eq_refl) as Hb.
    change (executeOpCode 0x83) with Code83. unfold Code83.
    rewrite (bind_Ok_nil (add_Eip 1) _ e tt (advance 1 e) eq_refl).
    rewrite (bind_Ok_nil _ _ _ _ _
               (ParseModrm_register e 7 r Hwf ltac:(lia) ltac:(lia) Hr Hm)).
    cbv beta iota delta [Reg]. unfold CmpRm32Imm8, getRm32, getRegister32.
    cbv beta iota delta [Mod Rm Z.eqb Pos.eqb].
    rewrite (bind_Ok_nil _ _ _ _ _ (Hv2 2)).
    rewrite (bind_Ok_nil _ _ _ _ _ (next8s e Hwf 2 b ltac:(lia) ltac:(lia) Hb)).
    rewrite (bind_Ok_nil _ _ _ _ _ (skip e 2 1)). cbv zeta.
    match goal with |- context [updateEflagsSub ?a ?c ?d ?s] =>
      destruct (updateEflagsSub_frame s a c d) as (e' & He' & R & M & P) end.
    exists e'. split; [exact He'|]. rewrite R, M, P. repeat split.
  - intros Hcode.
    pose proof (code_at_index _ _ 1 _ _ Hcode ltac:(lia) eq_refl) as Hm.
    change (executeOpCode 0xFF) with CodeFF. unfold CodeFF.
    rewrite (bind_Ok_nil (add_Eip 1) _ e tt (advance 1 e) eq_refl).
    rewrite (bind_Ok_nil _ _ _ _ _
               (ParseModrm_register e 0 r Hwf ltac:(lia) ltac:(lia) Hr Hm)).
    cbv beta iota delta [Reg]. unfold IncRm32, getRm32, setRm32, getRegister32,
      setRegister32. cbv beta iota delta [Mod Rm Z.eqb Pos.eqb].
    rewrite (bind_Ok_nil _ _ _ _ _ (Hv2 2)).
    rewrite Registers_put_spec by assumption. reflexivity.
Qed.

Lemma group_arithmetic_on_register_witness :
  wf add_ebx_minus_two
  /\ exists e',
      executeOpCode 0x83 add_ebx_minus_two = Ok tt e' []
      /\ register e' CEbx = Some 0xFFFFFFFF
      /\ Eip e' = 19.
Proof.
  assert (Hwf : wf add_ebx_minus_two) by (vm_compute; reflexivity).
  split; [exact Hwf|].
  destruct (group_arithmetic_on_register add_ebx_minus_two 3 0xFE 1 Hwf
              ltac:(reflexivity) ltac:(split; [discriminate | reflexivity]) eq_refl)
    as (H & _).
  eexists. split.
  - apply H. cbv [code_at]. repeat (split; [vm_compute; reflexivity|]). exact I.
  - split; reflexivity.
Defined.

(** X19: a group instruction whose sub-opcode (bits 5..3 of the ModRM
    byte) has no handler ends the process with exit code 1 after naming
    the group and the sub-opcode: any sub-opcode but 0, 5 and 7 for group
    0x83, any but 0 for group 0xFF, whatever the addressing mode. *)
Theorem unknown_sub_opcode_exits (e : Emulator) (code : Z) :
  wf e ->
  Eip e + 1 + modrm_length (code / 64) (code mod 8) <= 2^32 ->
  Eip e + 1 + modrm_length (code / 64) (code mod 8) <= Z.of_nat (length (Memory e)) ->
  index (Memory e) (Eip e + 1) = Some code ->
  ((code / 8) mod 8 <> 0 -> (code / 8) mod 8 <> 5 -> (code / 8) mod 8 <> 7 ->
   executeOpCode 0x83 e
   = Exit 1 [("Not implemented: 83 %d\n"%string, [(code / 8) mod 8])])
  /\ ((code / 8) mod 8 <> 0 ->
      executeOpCode 0xFF e
      = Exit 1 [("Not implemented: FF %d\n"%string, [(code / 8) mod 8])]).
Proof.
  intros Hwf Hmax Hlen Hc.
  destruct (ParseModrm_at e Hwf 1 code ltac:(lia) Hmax Hlen Hc)
    as (m & Hm & _ & Hreg & _).
  assert (Hrg : 0 <= (code / 8) mod 8 < 8) by (apply Z.mod_pos_bound; lia).
  revert Hreg Hrg. generalize ((code / 8) mod 8). intros rg Hreg Hrg.
  split.
  - intros N0 N5 N7. change (executeOpCode 0x83) with Code83. unfold Code83.
    rewrite (bind_Ok_nil (add_Eip 1) _ e tt (advance 1 e) eq_refl).
    rewrite (bind_Ok_nil _ _ _ _ _ Hm). rewrite Hreg.
    assert (rg = 1 \/ rg = 2 \/ rg = 3 \/ rg = 4 \/ rg = 6)
      as [-> | [-> | [-> | [-> | ->]]]] by lia; reflexivity.
  - intros N0. change (executeOpCode 0xFF) with CodeFF. unfold CodeFF.
    rewrite (bind_Ok_nil (add_Eip 1) _ e tt (advance 1 e) eq_refl).
    rewrite (bind_Ok_nil _ _ _ _ _ Hm). rewrite Hreg.
    assert (rg = 1 \/ rg = 2 \/ rg = 3 \/ rg = 4 \/ rg = 5 \/ rg = 6 \/ rg = 7)
      as [-> | [-> | [-> | [-> | [-> | [-> | ->]]]]]] by lia; reflexivity.
Qed.

Lemma unknown_sub_opcode_exits_witness :
  wf group83_adc
  /\ executeOpCode 0x83 group83_adc
     = Exit 1 [("Not implemented: 83 %d\n"%string, [2])].
Proof.
  assert (Hwf : wf group83_adc) by (vm_compute; reflexivity).
  split; [exact Hwf|].
  destruct (unknown_sub_opcode_exits group83_adc 0xD0 Hwf
              ltac:(vm_compute; discriminate) ltac:(vm_compute; discriminate)
              ltac:(vm_compute; reflexivity)) as (H & _).
  apply H; vm_compute; discriminate.
Defined.

(** X20: with a register operand (mode 3), opcode 0x01 adds the register
    of the reg field into the register of the base field modulo 2^32,
    opcode 0x89 copies the former into the latter and opcode 0x8B copies
    the other way; flags and memory stay as they were and the program
    counter advances by 2. *)
Theorem register_to_register (e : Emulator) (rg rm a b : Z) :
  wf e -> Eip e + 1 < 2^32 ->
  0 <= rg < 8 -> 0 <= rm < 8 ->
  index (Memory e) (Eip e + 1) = Some (0xC0 + 8 * rg + rm) ->
  register e rg = Some a -> register e rm = Some b ->
  executeOpCode 0x01 e
  = Ok tt (advance 2 (set_Registers
                        (fun rs => <[Z.to_nat rm := (a + b) mod 2^32]> rs) e)) []
  /\ executeOpCode 0x89 e
     = Ok tt (advance 2 (set_Registers (fun rs => <[Z.to_nat rm := a]> rs) e)) []
  /\ executeOpCode 0x8B e
     = Ok tt (advance 2 (set_Registers (fun rs => <[Z.to_nat rg := b]> rs) e)) [].
Proof.
  intros Hwf Hmax Hrg Hrm Hc Ha Hb.
  pose proof (ParseModrm_register e rg rm Hwf Hmax Hrg Hrm Hc) as Hm.
  assert (Ha2 : Registers_at rg (advance 2 e) = Ok a (advance 2 e) [])
    by (apply Registers_at_spec; assumption).
  assert (Hb2 : Registers_at rm (advance 2 e) = Ok b (advance 2 e) [])
    by (apply Registers_at_spec; assumption).
  split; [|split].
  - change (executeOpCode 0x01) with AddRm32R32. unfold AddRm32R32.
    rewrite (bind_Ok_nil (add_Eip 1) _ e tt (advance 1 e) eq_refl).
    rewrite (bind_Ok_nil _ _ _ _ _ Hm).
    unfold getR32, getRm32, setRm32, getRegister32, setRegister32.
    cbv beta iota delta [Mod Rm Reg Z.eqb Pos.eqb].
    rewrite (bind_Ok_nil _ _ _ _ _ Ha2), (bind_Ok_nil _ _ _ _ _ Hb2).
    rewrite Registers_put_spec by assumption. reflexivity.
  - change (executeOpCode 0x89) with MovRm32R32. unfold MovRm32R32.
    rewrite (bind_Ok_nil (add_Eip 1) _ e tt (advance 1 e) eq_refl).
    rewrite (bind_Ok_nil _ _ _ _ _ Hm).
    unfold getR32, setRm32, getRegister32, setRegister32.
    cbv beta iota delta [Mod Rm Reg Z.eqb Pos.eqb].
    rewrite (bind_Ok_nil _ _ _ _ _ Ha2).
    rewrite Registers_put_spec by assumption. reflexivity.
  - change (executeOpCode 0x8B) with MovR32Rm32. unfold MovR32Rm32.
    rewrite (bind_Ok_nil (add_Eip 1) _ e tt (advance 1 e) eq_refl).
    rewrite (bind_Ok_nil _ _ _ _ _ Hm).
    unfold setR32, getRm32, getRegister32, setRegister32.
    cbv beta iota delta [Mod Rm Reg Z.eqb Pos.eqb].
    rewrite (bind_Ok_nil _ _ _ _ _ Hb2).
    rewrite Registers_put_spec by assumption. reflexivity.
Qed.

Lemma register_to_register_witness :
  wf add_ecx_ebx
  /\ exists e',
      executeOpCode 0x01 add_ecx_ebx = Ok tt e' []
      /\ register e' CEcx = Some 1 /\ register e' CEbx = Some 2
      /\ Eflags e' = 0 /\ Eip e' = 18.
Proof.
  assert (Hwf : wf add_ecx_ebx) by (vm_compute; reflexivity).
  split; [exact Hwf|].
  destruct (register_to_register add_ecx_ebx 3 1 2 0xFFFFFFFF Hwf
              ltac:(reflexivity) ltac:(split; [discriminate | reflexivity])
              ltac:(split; [discriminate | reflexivity])
              ltac:(vm_compute; reflexivity) eq_refl eq_refl) as (H & _).
  eexists. split; [exact H|]. repeat split.
Defined.

(** ** Instructions on a memory operand *)

Lemma signed8_not_min (d : Z) :
  0 <= d < 2^8 -> d <> 0x80 -> (signed8 d =? - 2^7) = false.
Proof.
  intros Hd Hne. apply Z.eqb_neq. unfold signed8.
  destruct (Z.ltb_spec d (2^7)); lia.
Qed.

(** Run the first computation of a sequence with its known result. *)
Ltac run H :=
  match goal with
  | |- context [bind ?m ?f ?s] => rewrite (bind_Ok_nil m f s _ _ H)
  end.

(** The decoder and the address resolution for [[base + disp8]]. *)
Lemma disp8_operand (e : Emulator) (rg rm d base : Z) :
  wf e -> Z.of_nat (length (Memory e)) <= 2^32 ->
  0 <= rg < 8 -> 0 <= rm < 8 -> rm <> 4 -> d <> 0x80 ->
  code_at (Memory e) (Eip e + 1) [0x40 + 8 * rg + rm; d] ->
  register e rm = Some base ->
  exists m,
    ParseModrm (advance 1 e) = Ok m (advance 3 e) []
    /\ Mod m = 1 /\ Reg m = rg
    /\ forall k, calcMemoryAddress m (advance k e)
                 = Ok (u32 (base + signed8 d)) (advance k e) [].
Proof.
  intros Hwf Hlen Hrg Hrm H4 H80 Hcode Hbase.
  pose proof (code_at_index _ _ 0 _ _ Hcode ltac:(lia) eq_refl) as Hc.
  pose proof (code_at_index _ _ 1 _ _ Hcode ltac:(lia) eq_refl) as Hd.
  rewrite Z.add_0_r in Hc.
  pose proof (wf_byte e Hwf _ _ Hd) as Rd.
  apply index_Some in Hd as Hd'. destruct Hd' as [_ Hd']. apply lookup_lt_Some in Hd'.
  set (code := 0x40 + 8 * rg + rm) in *.
  assert (E1 : code / 64 = 1) by (unfold code; Z.div_mod_to_equations; lia).
  assert (E2 : (code / 8) mod 8 = rg) by (unfold code; Z.div_mod_to_equations; lia).
  assert (E3 : code mod 8 = rm) by (unfold code; Z.div_mod_to_equations; lia).
  assert (L : modrm_length (code / 64) (code mod 8) = 2).
  { rewrite E1, E3. unfold modrm_length, sib_length, disp_length.
    destruct (Z.eqb_spec rm 4); [contradiction|]. reflexivity. }
  assert (S0 : sib_length (code / 64) (code mod 8) = 0).
  { rewrite E1, E3. unfold sib_length.
    destruct (Z.eqb_spec rm 4); [contradiction|]. reflexivity. }
  destruct (ParseModrm_at e Hwf 1 code ltac:(lia) ltac:(rewrite L; lia)
              ltac:(rewrite L; lia) Hc)
    as (m & Hm & M1 & M2 & M3 & _ & D8 & _).
  rewrite L in Hm. rewrite E1 in M1. rewrite E2 in M2. rewrite E3 in M3.
  destruct (D8 ltac:(rewrite E1, E3; reflexivity)) as (b & Hb & Eb).
  rewrite S0, Z.add_0_r in Hb. rewrite Hd in Hb. injection Hb as <-.
  exists m. split; [exact Hm|]. split; [exact M1|]. split; [exact M2|].
  intros j.
  rewrite (calcMemoryAddress_disp8 (advance j e) m base M1
             ltac:(rewrite M3; exact H4) ltac:(rewrite M3; exact Hrm)
             ltac:(rewrite M3; exact Hbase)
             ltac:(rewrite Eb; apply signed8_range; exact Rd)).
  rewrite Eb, signed8_not_min by assumption. reflexivity.
Qed.

(** X21: with the operand [[base + disp8]] (mode 1, displacement byte
    other than 0x80), opcode 0x89 stores the register of the reg field in
    the four bytes at the address (base + signed displacement) mod 2^32,
    least significant byte first, opcode 0x8B loads the little-endian
    word there into that register, and opcode 0xC7 stores the four-byte
    immediate that follows the displacement; the program counter moves
    past the instruction and nothing else changes. *)
Theorem memory_operand_moves (e : Emulator) (rg rm d base a : Z) :
  wf e -> Z.of_nat (length (Memory e)) <= 2^32 ->
  0 <= rg < 8 -> 0 <= rm < 8 -> rm <> 4 -> d <> 0x80 ->
  code_at (Memory e) (Eip e + 1) [0x40 + 8 * rg + rm; d] ->
  register e rm = Some base ->
  a = u32 (base + signed8 d) ->
  a + 3 < Z.of_nat (length (Memory e)) ->
  (forall v, register e rg = Some v ->
     executeOpCode 0x89 e = Ok tt (advance 3 (set_Memory (store32 a v) e)) [])
  /\ (forall c0 c1 c2 c3, code_at (Memory e) a [c0; c1; c2; c3] ->
        executeOpCode 0x8B e
        = Ok tt (advance 3 (set_Registers
                   (fun rs => <[Z.to_nat rg := c0 + 2^8 * c1 + 2^16 * c2 + 2^24 * c3]> rs)
                   e)) [])
  /\ (forall b0 b1 b2 b3, code_at (Memory e) (Eip e + 3) [b0; b1; b2; b3] ->
        executeOpCode 0xC7 e
        = Ok tt (advance 7 (set_Memory
                   (store32 a (b0 + 2^8 * b1 + 2^16 * b2 + 2^24 * b3)) e)) []).
Proof.
  intros Hwf Hlen Hrg Hrm H4 H80 Hcode Hbase -> Ha.
  destruct (disp8_operand e rg rm d base Hwf Hlen Hrg Hrm H4 H80 Hcode Hbase)
    as (m & Hm & M1 & M2 & Haddr).
  pose proof (u32_range (base + signed8 d)) as Ra.
  pose proof (wf_Eip e Hwf) as Hp.
  split; [|split].
  - intros v Hv. change (executeOpCode 0x89) with MovRm32R32. unfold MovRm32R32.
    rewrite (bind_Ok_nil (add_Eip 1) _ e tt (advance 1 e) eq_refl).
    rewrite (bind_Ok_nil _ _ _ _ _ Hm).
    unfold getR32, setRm32, getRegister32. rewrite M1, M2.
    rewrite (bind_Ok_nil _ _ _ _ _
               (Registers_at_spec (advance 3 e) rg v Hrg Hv)).
    cbv beta iota delta [Z.eqb Pos.eqb].
    run (Haddr 3).
    apply (setMemory32_spec (advance 3 e)); simpl; lia.
  - intros c0 c1 c2 c3 Hw. change (executeOpCode 0x8B) with MovR32Rm32.
    unfold MovR32Rm32.
    rewrite (bind_Ok_nil (add_Eip 1) _ e tt (advance 1 e) eq_refl).
    rewrite (bind_Ok_nil _ _ _ _ _ Hm).
    pose proof (code_at_index _ _ 0 _ _ Hw ltac:(lia) eq_refl) as H0.
    pose proof (code_at_index _ _ 1 _ _ Hw ltac:(lia) eq_refl) as H1.
    pose proof (code_at_index _ _ 2 _ _ Hw ltac:(lia) eq_refl) as H2.
    pose proof (code_at_index _ _ 3 _ _ Hw ltac:(lia) eq_refl) as H3.
    assert (Hload : getRm32 m (advance 3 e) = Ok (le32 c0 c1 c2 c3) (advance 3 e) []).
    { unfold getRm32. rewrite M1. cbv beta iota delta [Z.eqb Pos.eqb].
      run (Haddr 3).
      apply (getMemory32_spec (advance 3 e)); rewrite u32_small by lia; assumption. }
    run Hload. unfold setR32, setRegister32. rewrite M2.
    rewrite Registers_put_spec by assumption.
    rewrite le32_sum by (eapply wf_byte; eassumption). reflexivity.
  - intros b0 b1 b2 b3 Hw. change (executeOpCode 0xC7) with MovRm32Imm32.
    unfold MovRm32Imm32.
    rewrite (bind_Ok_nil (add_Eip 1) _ e tt (advance 1 e) eq_refl).
    rewrite (bind_Ok_nil _ _ _ _ _ Hm).
    pose proof (code_at_index _ _ 0 _ _ Hw ltac:(lia) eq_refl) as H0.
    pose proof (code_at_index _ _ 1 _ _ Hw ltac:(lia) eq_refl) as H1.
    pose proof (code_at_index _ _ 2 _ _ Hw ltac:(lia) eq_refl) as H2.
    pose proof (code_at_index _ _ 3 _ _ Hw ltac:(lia) eq_refl) as H3.
    apply index_Some in H3 as H3'. destruct H3' as [_ H3'].
    apply lookup_lt_Some in H3'.
    rewrite (bind_Ok_nil _ _ _ _ _ (next32 e Hwf 3 b0 b1 b2 b3 ltac:(lia) ltac:(lia) Hw)).
    rewrite (bind_Ok_nil _ _ _ _ _ (skip e 3 4)).
    unfold setRm32. rewrite M1. cbv beta iota delta [Z.eqb Pos.eqb].
    run (Haddr (3 + 4)).
    rewrite le32_sum by (eapply wf_byte; eassumption).
    apply (setMemory32_spec (advance (3 + 4) e)); simpl; lia.
Qed.

Lemma memory_operand_moves_witness :
  wf mov_to_frame
  /\ exists e',
      executeOpCode 0x89 mov_to_frame = Ok tt e' []
      /\ getMemory32 8 e' = Ok 0x11223344 e' []
      /\ Eip e' = 19.
Proof.
  assert (Hwf : wf mov_to_frame) by (vm_compute; reflexivity).
  split; [exact Hwf|].
  destruct (memory_operand_moves mov_to_frame 0 5 0xFC 12 8 Hwf
              ltac:(vm_compute; discriminate)
              ltac:(split; [discriminate | reflexivity])
              ltac:(split; [discriminate | reflexivity])
              ltac:(discriminate) ltac:(discriminate)
              ltac:(cbv [code_at]; repeat (split; [vm_compute; reflexivity|]); exact I)
              eq_refl eq_refl ltac:(vm_compute; reflexivity)) as (H & _).
  eexists. split; [exact (H 0x11223344 eq_refl)|].
  split; reflexivity.
Defined.

(** ** The opcodes 0xB0 to 0xB7 *)

Lemma getRegister8_value (e : Emulator) (i r : Z) :
  0 <= i < 8 -> register e (i mod 4) = Some r ->
  getRegister8 i e = Ok ((r / 2^byte_offset i) mod 2^8) e [].
Proof.
  intros Hi Hr. unfold byte_offset. destruct (Z.ltb_spec i 4).
  - rewrite Z.mod_small in Hr by lia. rewrite (getRegister8_low e i r) by (assumption || lia).
    rewrite Z.div_1_r. reflexivity.
  - replace (i mod 4) with (i - 4) in Hr by (Z.div_mod_to_equations; lia).
    apply getRegister8_high; assumption || lia.
Qed.

(** X22: the handler of opcodes 0xB0 to 0xB7 reads no immediate byte
    and ignores the register number in the opcode: it decodes the next
    byte as a ModRM byte and, for a register operand, copies byte register
    [src] (base field) into byte register [dst] (reg field), advancing the
    program counter by 2. *)
Theorem opcode_B0_is_a_register_move (e : Emulator) (k dst src r r0 : Z) :
  wf e -> Eip e + 1 < 2^32 ->
  0 <= k < 8 -> 0 <= dst < 8 -> 0 <= src < 8 ->
  index (Memory e) (Eip e + 1) = Some (0xC0 + 8 * dst + src) ->
  register e (src mod 4) = Some r ->
  register e (dst mod 4) = Some r0 ->
  exists e',
    executeOpCode (0xB0 + k) e = Ok tt e' []
    /\ getRegister8 dst e' = Ok ((r / 2^byte_offset src) mod 2^8) e' []
    /\ (forall j, 0 <= j -> j <> dst mod 4 -> register e' j = register e j)
    /\ Memory e' = Memory e /\ Eflags e' = Eflags e /\ Eip e' = u32 (Eip e + 2).
Proof.
  intros Hwf Hmax Hk Hdst Hsrc Hc Hr Hr0.
  rewrite (opcode_in_row 0xB0 k MovR8Imm8 Hk)
    by (intros j Hj; simpl in Hj;
        repeat (destruct Hj as [<-|Hj]; [reflexivity|]); contradiction).
  unfold MovR8Imm8.
  rewrite (bind_Ok_nil (add_Eip 1) _ e tt (advance 1 e) eq_refl).
  rewrite (bind_Ok_nil _ _ _ _ _ (ParseModrm_register e dst src Hwf Hmax Hdst Hsrc Hc)).
  unfold getRm8, setR8. cbv beta iota delta [Mod Rm Reg Z.eqb Pos.eqb].
  rewrite (bind_Ok_nil _ _ _ _ _ (getRegister8_value (advance 2 e) src r Hsrc Hr)).
  destruct (setRegister8_effect (advance 2 e) dst r0 ((r / 2^byte_offset src) mod 2^8)
              Hdst Hr0 (wf_register e Hwf _ _ Hr0)
              ltac:(apply Z.mod_pos_bound; lia))
    as (e' & r' & Hs & _ & _ & Hg & Ho & HM & HF & HP).
  exists e'. split; [exact Hs|]. split; [exact Hg|]. split; [exact Ho|].
  rewrite HM, HF, HP. repeat split.
Qed.

Lemma opcode_B0_is_a_register_move_witness :
  wf mov_cl_imm
  /\ exists e',
      executeOpCode 0xB1 mov_cl_imm = Ok tt e' []
      /\ getRegister8 CAl e' = Ok 0x88 e' []
      /\ register e' CEcx = Some 0
      /\ Eip e' = 18.
Proof.
  assert (Hwf : wf mov_cl_imm) by (vm_compute; reflexivity).
  split; [exact Hwf|].
  destruct (opcode_B0_is_a_register_move mov_cl_imm 1 0 3 0x55667788 0x11223344 Hwf
              ltac:(reflexivity)
              ltac:(split; [discriminate | reflexivity])
              ltac:(split; [discriminate | reflexivity])
              ltac:(split; [discriminate | reflexivity])
              ltac:(vm_compute; reflexivity) eq_refl eq_refl)
    as (e' & He & Hg & Ho & _ & _ & HP).
  exists e'. split; [exact He|]. split; [exact Hg|].
  split; [exact (Ho CEcx ltac:(discriminate) ltac:(discriminate)) | exact HP].
Defined.

(** ** Leaving a stack frame *)

(** X23: [leave] (opcode 0xC9) loads the word at the address in EBP into
    EBP and leaves ESP four bytes above that address (modulo 2^32); memory, flags and
    the other registers are untouched and the program counter advances by
    1. *)
Theorem leave_unwinds_frame (e : Emulator) (bp c0 c1 c2 c3 : Z) :
  wf e ->
  register e CEbp = Some bp ->
  bp + 3 < 2^32 ->
  code_at (Memory e) bp [c0; c1; c2; c3] ->
  executeOpCode 0xC9 e
  = Ok tt (advance 1
             (set_Registers
                (fun rs => <[Z.to_nat CEbp := c0 + 2^8 * c1 + 2^16 * c2 + 2^24 * c3]>
                             (<[Z.to_nat CEsp := (bp + 4) mod 2^32]> rs)) e)) [].
Proof.
  intros Hwf Hbp Hmax Hw. change (executeOpCode 0xC9) with Leave. unfold Leave.
  pose proof (wf_register e Hwf _ _ Hbp) as Rbp.
  destruct (wf_parts e Hwf) as (Hlen & _).
  unfold getRegister32, setRegister32.
  rewrite (bind_Ok_nil _ _ _ _ _
             (Registers_at_spec e CEbp bp ltac:(unfold CEbp; lia) Hbp)).
  rewrite (bind_Ok_nil _ _ _ _ _
             (Registers_put_spec e CEsp bp ltac:(unfold CEsp; lia))).
  set (e1 := set_Registers (fun rs => <[Z.to_nat CEsp := bp]> rs) e).
  pose proof (code_at_index _ _ 0 _ _ Hw ltac:(lia) eq_refl) as H0.
  pose proof (code_at_index _ _ 1 _ _ Hw ltac:(lia) eq_refl) as H1.
  pose proof (code_at_index _ _ 2 _ _ Hw ltac:(lia) eq_refl) as H2.
  pose proof (code_at_index _ _ 3 _ _ Hw ltac:(lia) eq_refl) as H3.
  assert (Hsp : register e1 CEsp = Some bp).
  { unfold register, e1. simpl. apply list_lookup_insert_eq. rewrite Hlen.
    unfold CEsp. lia. }
  assert (Hload : getMemory32 bp e1 = Ok (le32 c0 c1 c2 c3) e1 [])
    by (apply (getMemory32_spec e1); rewrite u32_small by lia; assumption).
  rewrite (bind_Ok_nil _ _ _ _ _ (pop32_spec e1 bp _ Hsp Hload)).
  rewrite (bind_Ok_nil _ _ _ _ _
             (Registers_put_spec _ CEbp _ ltac:(unfold CEbp; lia))).
  rewrite le32_sum by (eapply wf_byte; eassumption).
  unfold add_Eip, modify, advance, e1, set_Eip, set_Registers. simpl.
  rewrite list_insert_insert_eq. reflexivity.
Qed.

Lemma leave_unwinds_frame_witness :
  wf leave_frame
  /\ exists e',
      executeOpCode 0xC9 leave_frame = Ok tt e' []
      /\ register e' CEsp = Some 12 /\ register e' CEbp = Some 0x0C
      /\ Eip e' = 17.
Proof.
  assert (Hwf : wf leave_frame) by (vm_compute; reflexivity).
  split; [exact Hwf|]. eexists. split.
  - apply (leave_unwinds_frame leave_frame 8 0x0C 0 0 0 Hwf eq_refl);
      [reflexivity|].
    cbv [code_at]. repeat (split; [vm_compute; reflexivity|]). exact I.
  - repeat split.
Defined.

(** ** An instruction cut off by the end of memory *)

Section Truncated.

Variable e : Emulator.
Hypothesis Hnone : index (Memory e) (u32 (Eip e + 1)) = None.

Lemma bind_Panic {A B : Type} (m : M A) (f : A -> M B) (s : Emulator) :
  m s = Panic [] -> bind m f s = Panic [].
Proof. unfold bind. intros ->. reflexivity. Qed.

Lemma GetCode8_cut : GetCode8 1 e = Panic [].
Proof. unfold GetCode8, bind, get. rewrite Hnone. reflexivity. Qed.

Lemma GetSignCode8_cut : GetSignCode8 1 e = Panic [].
Proof. unfold GetSignCode8, bind, get. rewrite Hnone. reflexivity. Qed.

Lemma GetCode32_cut : GetCode32 1 e = Panic [].
Proof.
  unfold GetCode32. cbn [for_range]. apply bind_Panic. apply bind_Panic.
  exact GetCode8_cut.
Qed.

Lemma GetSignCode32_cut : GetSignCode32 1 e = Panic [].
Proof. unfold GetSignCode32. apply bind_Panic. exact GetCode32_cut. Qed.

Lemma ParseModrm_cut : ParseModrm (advance 1 e) = Panic [].
Proof.
  unfold ParseModrm. apply bind_Panic.
  unfold GetCode8, bind, get. simpl Eip. simpl Memory.
  replace (u32 (u32 (Eip e + 1) + 0)) with (u32 (Eip e + 1))
    by (rewrite Z.add_0_r; unfold u32; rewrite Zmod_mod; reflexivity).
  rewrite Hnone. reflexivity.
Qed.

End Truncated.

Lemma bind_bind {A B C : Type} (m : M A) (f : A -> M B) (g : B -> M C) (s : Emulator) :
  bind (bind m f) g s = bind m (fun a => bind (f a) g) s.
Proof.
  unfold bind. destruct (m s) as [a s1 o1| |]; try reflexivity.
  destruct (f a s1) as [b s2 o2| |]; simpl; try reflexivity.
  destruct (g b s2); simpl; rewrite app_assoc; reflexivity.
Qed.

(** X24: when the opcode is the last byte of memory, every instruction
    that takes operand bytes panics on the out-of-range read of the first
    of them, before it has printed or changed anything. *)
Theorem truncated_instruction_panics (e : Emulator) (op : Z) :
  wf e -> Eip e + 1 < 2^32 ->
  index (Memory e) (Eip e) = Some op ->
  Z.of_nat (length (Memory e)) <= Eip e + 1 ->
  In op reads_operand_first ->
  executeOpCode op e = Panic [].
Proof.
  intros Hwf Hmax Hop Hlen Hin. pose proof (wf_Eip e Hwf) as Hp.
  assert (Hnone : index (Memory e) (u32 (Eip e + 1)) = None).
  { rewrite u32_small by lia. unfold index.
    destruct (Z.ltb_spec (Eip e + 1) (Z.of_nat (length (Memory e)))); [lia|].
    rewrite andb_false_r. reflexivity. }
  pose proof (fetch_spec e op Hwf Hop) as Hfetch.
  unfold reads_operand_first in Hin. simpl in Hin.
  repeat (destruct Hin as [<-|Hin];
    [cbv beta iota delta [executeOpCode];
     unfold AddRm32R32, CmpR32Rm32, CmpAlImm8, CmpEaxImm32, PushImm32, PushImm8,
       Code83, MovRm8R8, MovRm32R32, MovR32Rm32, MovR8Imm8, MovR32Imm32,
       MovRm32Imm32, Swi, CallRel32, NearJump, ShortJump, CodeFF;
     first
       [ apply bind_Panic;
         first [ apply GetCode8_cut | apply GetSignCode8_cut
               | apply GetCode32_cut | apply GetSignCode32_cut ]; exact Hnone
       | rewrite (bind_Ok_nil (add_Eip 1) _ e tt (advance 1 e) eq_refl);
         apply bind_Panic; apply ParseModrm_cut; exact Hnone
       | rewrite (bind_Ok_nil _ _ _ _ _ Hfetch);
         apply bind_Panic; apply GetCode32_cut; exact Hnone ] |]).
  contradiction.
Qed.

Lemma truncated_instruction_panics_witness :
  wf jmp_at_the_end
  /\ index (Memory jmp_at_the_end) (Eip jmp_at_the_end) = Some 0xEB
  /\ executeOpCode 0xEB jmp_at_the_end = Panic [].
Proof.
  assert (Hwf : wf jmp_at_the_end) by (vm_compute; reflexivity).
  assert (Hop : index (Memory jmp_at_the_end) (Eip jmp_at_the_end) = Some 0xEB)
    by (vm_compute; reflexivity).
  split; [exact Hwf|]. split; [exact Hop|].
  apply (truncated_instruction_panics jmp_at_the_end 0xEB Hwf);
    [reflexivity | exact Hop | vm_compute; discriminate |].
  unfold reads_operand_first. simpl. tauto.
Defined.

(** ** The quiet flag *)

Lemma forget_prepend {A : Type} (o : stdout) (r : outcome A) :
  forget_output (prepend o r) = forget_output r.
Proof. destruct r; reflexivity. Qed.

Lemma forget_bind {A B : Type} (m1 m2 : M A) (f1 f2 : A -> M B) (s : Emulator) :
  forget_output (m1 s) = forget_output (m2 s) ->
  (forall a s', forget_output (f1 a s') = forget_output (f2 a s')) ->
  forget_output (bind m1 f1 s) = forget_output (bind m2 f2 s).
Proof.
  intros Hm Hf. unfold bind.
  destruct (m1 s) as [a1 s1 o1| |], (m2 s) as [a2 s2 o2| |]; try discriminate Hm;
    try reflexivity.
  - injection Hm as -> ->. rewrite !forget_prepend. apply Hf.
  - injection Hm as ->. reflexivity.
Qed.

Lemma forget_step (s : Emulator) :
  forget_output (step true s) = forget_output (step false s).
Proof.
  unfold step. apply forget_bind; [reflexivity|]. intros c s1.
  apply forget_bind; [reflexivity|]. intros [] s2. reflexivity.
Qed.

(** X25: the quiet flag changes only what is printed: with and without
    it the run loop ends the same way, in the same state or with the same
    exit code. *)
Theorem quiet_changes_only_the_output (fuel : nat) (e : Emulator) :
  forget_output (Run fuel true e) = forget_output (Run fuel false e).
Proof.
  revert e. induction fuel as [|fuel IH]; intros e; [reflexivity|].
  cbn [Run]. apply forget_bind; [reflexivity|]. intros s s1.
  destruct (MaxMemorySize s <=? Eip s); [reflexivity|].
  apply forget_bind; [apply forget_step|]. intros [] s2.
  apply forget_bind; [reflexivity|]. intros s3 s4.
  destruct (Eip s3 =? 0); [reflexivity | apply IH].
Qed.

(** ** Pushing a 32-bit immediate *)

(** X26: opcode 0x68 pushes the four bytes after it, read least
    significant first: the stack pointer drops by 4, the word lies at the
    new stack pointer, the program counter advances by 5 and nothing else
    changes. *)
Theorem push_immediate32 (e : Emulator) (s b0 b1 b2 b3 : Z) :
  wf e -> Eip e + 4 < 2^32 ->
  code_at (Memory e) (Eip e + 1) [b0; b1; b2; b3] ->
  register e CEsp = Some s ->
  4 <= s <= Z.of_nat (length (Memory e)) ->
  executeOpCode 0x68 e
  = Ok tt (advance 5 (after_push s (b0 + 2^8 * b1 + 2^16 * b2 + 2^24 * b3) e)) [].
Proof.
  intros Hwf Hmax Hcode Hsp Hslot. change (executeOpCode 0x68) with PushImm32.
  unfold PushImm32.
  rewrite (bind_Ok_nil _ _ _ _ _
             (code32_at e Hwf 1 b0 b1 b2 b3 ltac:(lia) ltac:(lia) Hcode)).
  rewrite (bind_Ok_nil _ _ _ _ _ (push32_spec e Hwf s Hsp Hslot _)).
  pose proof (code_at_index _ _ 0 _ _ Hcode ltac:(lia) eq_refl) as H0.
  pose proof (code_at_index _ _ 1 _ _ Hcode ltac:(lia) eq_refl) as H1.
  pose proof (code_at_index _ _ 2 _ _ Hcode ltac:(lia) eq_refl) as H2.
  pose proof (code_at_index _ _ 3 _ _ Hcode ltac:(lia) eq_refl) as H3.
  rewrite le32_sum by (eapply wf_byte; eassumption). reflexivity.
Qed.

Lemma push_immediate32_witness :
  wf push_imm32
  /\ exists e',
      executeOpCode 0x68 push_imm32 = Ok tt e' []
      /\ register e' CEsp = Some 12
      /\ getMemory32 12 e' = Ok 0x00010203 e' []
      /\ Eip e' = 21.
Proof.
  assert (Hwf : wf push_imm32) by (vm_compute; reflexivity).
  split; [exact Hwf|]. eexists. split.
  - apply (push_immediate32 push_imm32 16 0x03 0x02 0x01 0x00 Hwf);
      [reflexivity | | reflexivity | vm_compute; split; discriminate].
    cbv [code_at]. repeat (split; [vm_compute; reflexivity|]). exact I.
  - split; [reflexivity|]. split; reflexivity.
Defined.

(** ** Compare instructions *)

(** X27: the three compare opcodes return with the flags of the
    subtraction of their operands and write nothing else but the program
    counter: 0x3C compares the low byte of EAX with the immediate byte
    (both zero-extended) and advances by 2, 0x3D compares EAX with the
    little-endian 32-bit immediate and advances by 5, and 0x3B with a
    register operand compares the reg-field register with the base-field
    register and advances by 2. *)
Theorem compare_writes_only_flags (e : Emulator) (eax : Z) :
  wf e ->
  register e CEax = Some eax ->
  (forall b, Eip e + 1 < 2^32 ->
     index (Memory e) (Eip e + 1) = Some b ->
     exists e',
       executeOpCode 0x3C e = Ok tt e' []
       /\ sub_flags (eax mod 2^8) b e'
       /\ Registers e' = Registers e /\ Memory e' = Memory e
       /\ Eip e' = u32 (Eip e + 2))
  /\ (forall b0 b1 b2 b3, Eip e + 4 < 2^32 ->
        code_at (Memory e) (Eip e + 1) [b0; b1; b2; b3] ->
        exists e',
          executeOpCode 0x3D e = Ok tt e' []
          /\ sub_flags eax (b0 + 2^8 * b1 + 2^16 * b2 + 2^24 * b3) e'
          /\ Registers e' = Registers e /\ Memory e' = Memory e
          /\ Eip e' = u32 (Eip e + 5))
  /\ (forall rg rm a b, Eip e + 1 < 2^32 ->
        0 <= rg < 8 -> 0 <= rm < 8 ->
        index (Memory e) (Eip e + 1) = Some (0xC0 + 8 * rg + rm) ->
        register e rg = Some a -> register e rm = Some b ->
        exists e',
          executeOpCode 0x3B e = Ok tt e' []
          /\ sub_flags a b e'
          /\ Registers e' = Registers e /\ Memory e' = Memory e
          /\ Eip e' = u32 (Eip e + 2)).
Proof.
  intros Hwf Ha. pose proof (wf_Eip e Hwf) as Hp.
  pose proof (wf_register e Hwf _ _ Ha) as Ra.
  split; [|split].
  - intros b Hmax Hb. pose proof (wf_byte e Hwf _ _ Hb) as Rb.
    change (executeOpCode 0x3C) with CmpAlImm8. unfold CmpAlImm8.
    rewrite (bind_Ok_nil _ _ _ _ _ (code8_at e Hwf 1 b ltac:(lia) ltac:(lia) Hb)).
    rewrite (bind_Ok_nil _ _ _ _ _
               (getRegister8_low e CAl eax ltac:(unfold CAl, CEax; lia) Ha)).
    cbv zeta.
    assert (Rl : 0 <= eax mod 2^8 < 2^8) by (apply Z.mod_pos_bound; lia).
    destruct (updateEflagsSub_rule e (eax mod 2^8) b ltac:(lia) ltac:(lia))
      as (e1 & H1 & R & M & P & F).
    rewrite (bind_Ok_nil _ _ _ _ _ H1).
    eexists. split; [reflexivity|]. split; [exact F|].
    simpl. rewrite R, M, P. repeat split.
  - intros b0 b1 b2 b3 Hmax Hcode.
    pose proof (code_at_index _ _ 0 _ _ Hcode ltac:(lia) eq_refl) as H0.
    pose proof (code_at_index _ _ 1 _ _ Hcode ltac:(lia) eq_refl) as H1.
    pose proof (code_at_index _ _ 2 _ _ Hcode ltac:(lia) eq_refl) as H2.
    pose proof (code_at_index _ _ 3 _ _ Hcode ltac:(lia) eq_refl) as H3.
    change (executeOpCode 0x3D) with CmpEaxImm32. unfold CmpEaxImm32, getRegister32.
    rewrite (bind_Ok_nil _ _ _ _ _
               (code32_at e Hwf 1 b0 b1 b2 b3 ltac:(lia) ltac:(lia) Hcode)).
    rewrite (bind_Ok_nil _ _ _ _ _
               (Registers_at_spec e CEax eax ltac:(unfold CEax; lia) Ha)).
    cbv zeta. pose proof (le32_range b0 b1 b2 b3) as Rw.
    destruct (updateEflagsSub_rule e eax (le32 b0 b1 b2 b3) Ra Rw)
      as (e1 & He1 & R & M & P & F).
    rewrite (bind_Ok_nil _ _ _ _ _ He1).
    rewrite le32_sum in F by (eapply wf_byte; eassumption).
    eexists. split; [reflexivity|]. split; [exact F|].
    simpl. rewrite R, M, P. repeat split.
  - intros rg rm a b Hmax Hrg Hrm Hc Hra Hrb.
    pose proof (wf_register e Hwf _ _ Hra) as Rra.
    pose proof (wf_register e Hwf _ _ Hrb) as Rrb.
    change (executeOpCode 0x3B) with CmpR32Rm32. unfold CmpR32Rm32.
    rewrite (bind_Ok_nil (add_Eip 1) _ e tt (advance 1 e) eq_refl).
    rewrite (bind_Ok_nil _ _ _ _ _ (ParseModrm_register e rg rm Hwf Hmax Hrg Hrm Hc)).
    unfold getR32, getRm32, getRegister32.
    cbv beta iota delta [Mod Rm Reg Z.eqb Pos.eqb].
    rewrite (bind_Ok_nil _ _ _ _ _ (Registers_at_spec (advance 2 e) rg a Hrg Hra)).
    rewrite (bind_Ok_nil _ _ _ _ _ (Registers_at_spec (advance 2 e) rm b Hrm Hrb)).
    cbv zeta.
    destruct (updateEflagsSub_rule (advance 2 e) a b Rra Rrb)
      as (e1 & He1 & R & M & P & F).
    exists e1. split; [exact He1|]. split; [exact F|].
    rewrite R, M, P. repeat split.
Qed.

Lemma compare_writes_only_flags_witness :
  wf cmp_ecx_edx
  /\ exists e',
      executeOpCode 0x3B cmp_ecx_edx = Ok tt e' []
      /\ testFlag CarryFlag e' = true /\ testFlag ZeroFlag e' = false
      /\ Registers e' = Registers cmp_ecx_edx
      /\ Eip e' = 18.
Proof.
  assert (Hwf : wf cmp_ecx_edx) by (vm_compute; reflexivity).
  split; [exact Hwf|].
  destruct (compare_writes_only_flags cmp_ecx_edx 0 Hwf eq_refl) as (_ & _ & H).
  destruct (H 1 2 3 7 ltac:(reflexivity)
              ltac:(split; [discriminate | reflexivity])
              ltac:(split; [discriminate | reflexivity])
              ltac:(vm_compute; reflexivity) eq_refl eq_refl)
    as (e' & He & (Fc & Fz & _) & HR & _ & HP).
  exists e'. split; [exact He|]. split; [exact Fc|]. split; [exact Fz|].
  split; [exact HR | exact HP].
Defined.
